(** * guilib: vectors, matrices, triangles, the model loader and the run loop

    A shallow embedding of the Go packages of [jfigge/guilib]
    ([graphics/components], [graphics/matrix] alias [graphics/geometry],
    and [graphics]) together with the properties of their specification.

    Conventions of the embedding.

    - [float64] is read as the real numbers [R]: arithmetic is exact.
      Rounding, NaN, the infinities and the sign of zero are outside the
      model; [math.Sqrt], [math.Sin], [math.Cos], [math.Tan], [math.Acos]
      and [math.Pi] are [sqrt], [sin], [cos], [tan], [acos] and [PI].
    - [*Vector] and [*Triangle] are addresses into an append-only store
      (Go never frees a reachable object); [nil] is [None].  A nil
      dereference and an index out of range are the outcome [Panic].
    - A Go [(value, error)] result is a pair or a sum; [fmt.Errorf] keeps
      its format string and its arguments unrendered.
    - [uint32], [uint64] and [int64] values are in [Z], with the wrap-around
      written out where the source can reach it. *)

From Stdlib Require Import Reals Lra ZArith Lia String Ascii List Bool.
From stdpp Require Import base list.
Import ListNotations.

Local Open Scope R_scope.

Abbreviation float64 := R (only parsing).

(** [a < b] and [a == b] on [float64], as booleans. *)
Definition float_lt (a b : float64) : bool := if Rlt_dec a b then true else false.
Definition float_eq (a b : float64) : bool := if Req_dec_T a b then true else false.

(** ** [type Matrix4X4 [4][4]float64]

    An array of arrays is a function of the row and the column index; only
    indices below 4 are ever read.  [lit] is the composite literal
    [Matrix4X4{{..},{..},{..},{..}}]: the elements a row leaves out are
    zero, as in Go. *)
Definition Matrix4X4 : Type := nat -> nat -> float64.

Definition lit (rows : list (list float64)) : Matrix4X4 :=
  fun r c => nth c (nth r rows []) 0.

(** [m[r][c]] *)
Notation "m .[ r , c ]" := (m r%nat c%nat)
  (at level 1, left associativity, only parsing).

(** [mo[r][c] = v] *)
Definition set (mo : Matrix4X4) (r c : nat) (v : float64) : Matrix4X4 :=
  fun r' c' => if (Nat.eqb r' r && Nat.eqb c' c)%bool then v else mo r' c'.

(** Equality of the sixteen entries. *)
Definition meq (a b : Matrix4X4) : Prop :=
  forall r c : nat, (r < 4)%nat -> (c < 4)%nat -> a r c = b r c.

(** ** vector.go *)
Module Vector.

Record Vector : Type := mk { x : float64; y : float64; z : float64; w : float64 }.

Definition New (x y z : float64) : Vector := mk x y z 1.

Definition NewInstance (v : Vector) : Vector := mk (x v) (y v) (z v) (w v).

Definition DotProduct (v v1 : Vector) : float64 :=
  x v * x v1 + y v * y v1 + z v * z v1.

Definition Length (v : Vector) : float64 := sqrt (DotProduct v v).

Definition Normalize (v : Vector) : Vector :=
  let l := Length v in
  mk (x v / l) (y v / l) (z v / l) (w v).

Definition CrossProduct (v v1 : Vector) : Vector :=
  mk (y v * z v1 - z v * y v1)
     (z v * x v1 - x v * z v1)
     (x v * y v1 - y v * x v1)
     (w v).

Definition Add (v v1 : Vector) : Vector :=
  mk (x v + x v1) (y v + y v1) (z v + z v1) (w v).

Definition Subtract (v v1 : Vector) : Vector :=
  mk (x v - x v1) (y v - y v1) (z v - z v1) (w v).

Definition Multiply (v : Vector) (l : float64) : Vector :=
  mk (x v * l) (y v * l) (z v * l) (w v).

Definition Divide (v : Vector) (l : float64) : Vector :=
  let l := if float_eq l 0 then 1 else l in
  mk (x v / l) (y v / l) (z v / l) l.

Definition MatrixMultiply (v : Vector) (matrix : Matrix4X4) : Vector :=
  mk (x v * matrix.[0,0] + y v * matrix.[0,1] + z v * matrix.[0,2] + w v * matrix.[0,3])
     (x v * matrix.[1,0] + y v * matrix.[1,1] + z v * matrix.[1,2] + w v * matrix.[1,3])
     (x v * matrix.[2,0] + y v * matrix.[2,1] + z v * matrix.[2,2] + w v * matrix.[2,3])
     (x v * matrix.[3,0] + y v * matrix.[3,1] + z v * matrix.[3,2] + w v * matrix.[3,3]).

(** [v.z = z] of [SetZ], on the value. *)
Definition SetZ (v : Vector) (z' : float64) : Vector := mk (x v) (y v) z' (w v).

End Vector.

Abbreviation Vector := Vector.Vector.

(** ** matrix.go *)
Module Matrix.

Import Vector.

Definition NewInstance (m : Matrix4X4) : Matrix4X4 :=
  lit [ [m.[0,0]; m.[0,1]; m.[0,2]; m.[0,3]];
        [m.[1,0]; m.[1,1]; m.[1,2]; m.[1,3]];
        [m.[2,0]; m.[2,1]; m.[2,2]; m.[2,3]];
        [m.[3,0]; m.[3,1]; m.[3,2]; m.[3,3]] ].

Definition Identity : Matrix4X4 :=
  lit [ [1; 0; 0; 0];
        [0; 1; 0; 0];
        [0; 0; 1; 0];
        [0; 0; 0; 1] ].

Definition TranslateXYZ (x y z : float64) : Matrix4X4 :=
  lit [ [1; 0; 0; x];
        [0; 1; 0; y];
        [0; 0; 1; z];
        [0; 0; 0; 1] ].

(** The parameters [y], [z] of [TranslateX] and [x], [z] of [TranslateY]
    are not used by the source. *)
Definition TranslateX (x y z : float64) : Matrix4X4 :=
  lit [ [1; 0; 0; x];
        [0; 1; 0; 0];
        [0; 0; 1; 0];
        [0; 0; 0; 1] ].

Definition TranslateY (x y z : float64) : Matrix4X4 :=
  lit [ [1; 0; 0; 0];
        [0; 1; 0; y];
        [0; 0; 1; 0];
        [0; 0; 0; 1] ].

Definition TranslateZ (z : float64) : Matrix4X4 :=
  lit [ [1; 0; 0; 0];
        [0; 1; 0; 0];
        [0; 0; 1; z];
        [0; 0; 0; 1] ].

(** The literal of the source has a 1 in the first column of its last two
    rows. *)
Definition InvertXYZ (x y z : bool) : Matrix4X4 :=
  let m1 := lit [ [1; 0; 0; 0];
                  [0; 1; 0; 0];
                  [1; 0; 1; 0];
                  [1; 0; 0; 1] ] in
  let m1 := if x then set m1 0 0 (-1) else m1 in
  let m1 := if y then set m1 1 1 (-1) else m1 in
  let m1 := if z then set m1 2 2 (-1) else m1 in
  m1.

Definition Projection (width height fovDeg near far : float64) : Matrix4X4 :=
  let a := height / width in
  let f := 1 / tan (fovDeg / 360 * PI) in
  lit [ [a * f; 0; 0; 0];
        [0; f; 0; 0];
        [0; 0; far / (far - near); (- far * near) / (far - near)];
        [0; 0; 1; 0] ].

Definition ScaleXYZ (x y z : float64) : Matrix4X4 :=
  lit [ [x; 0; 0; 0];
        [0; y; 0; 0];
        [0; 0; z; 0];
        [0; 0; 0; 1] ].

Definition ScaleX (x : float64) : Matrix4X4 := ScaleXYZ x 1 1.
Definition ScaleY (y : float64) : Matrix4X4 := ScaleXYZ 1 y 1.
Definition ScaleZ (z : float64) : Matrix4X4 := ScaleXYZ 1 1 z.

Definition DegToRad (x : float64) : float64 := x * PI / 180.

Definition RotateXYZ (x y z : float64) : Matrix4X4 :=
  let cosX := cos x in
  let sinX := sin x in
  let cosY := cos y in
  let sinY := sin y in
  let cosZ := cos z in
  let sinZ := sin z in
  lit [ [cosY * cosZ; sinX * sinY * cosZ - cosX * sinZ; cosX * sinY * cosZ + sinX * sinZ; 0];
        [cosY * sinZ; sinX * sinY * sinZ + cosX * cosZ; cosX * sinY * sinZ - sinX * cosZ; 0];
        [- sinY; sinX * cosY; cosX * cosY; 0];
        [0; 0; 0; 1] ].

Definition RotateX (angle : float64) : Matrix4X4 :=
  lit [ [1; 0; 0; 0];
        [0; cos angle; - sin angle; 0];
        [0; sin angle; cos angle; 0];
        [0; 0; 0; 1] ].

Definition RotateY (angle : float64) : Matrix4X4 :=
  lit [ [cos angle; 0; sin angle; 0];
        [0; 1; 0; 0];
        [- sin angle; 0; cos angle; 0];
        [0; 0; 0; 1] ].

(** The second row of the source literal has three elements. *)
Definition RotateZ (angle : float64) : Matrix4X4 :=
  lit [ [cos angle; - sin angle; 0; 0];
        [sin angle; cos angle; 0];
        [0; 0; 1; 0];
        [0; 0; 0; 1] ].

(** The three basis vectors [PointAt] and [LookAtMatrix] start with:
    [newForward], [newUp] and [newRight] of the source. *)
Definition newForward (pos target : Vector) : Vector :=
  Normalize (Subtract target pos).
Definition newUp (pos target up : Vector) : Vector :=
  Normalize (Subtract up (Vector.Multiply (newForward pos target)
                                          (DotProduct up (newForward pos target)))).
Definition newRight (pos target up : Vector) : Vector :=
  CrossProduct (newUp pos target up) (newForward pos target).

Definition PointAt (pos target up : Vector) : Matrix4X4 :=
  let newForward := newForward pos target in
  let newUp := newUp pos target up in
  let newRight := newRight pos target up in
  lit [ [x newRight; y newRight; z newRight; 0];
        [x newUp; y newUp; z newUp; 0];
        [x newForward; y newForward; z newForward; 0];
        [x pos; y pos; z pos; 1] ].

Definition LookAtMatrix (pos target up : Vector) : Matrix4X4 :=
  let newForward := newForward pos target in
  let newUp := newUp pos target up in
  let newRight := newRight pos target up in
  lit [ [x newRight; x newUp; x newForward; 0];
        [y newRight; y newUp; y newForward; 0];
        [z newRight; z newUp; z newForward; 0];
        [ - (x pos * x newRight + y pos * y newRight + z pos * z newRight);
          - (x pos * x newUp + y pos * y newUp + z pos * z newUp);
          - (x pos * x newForward + y pos * y newForward + z pos * y newForward);
          1 ] ].

(** The two nested loops of [Multiply], column index outermost. *)
Definition Multiply (m m1 : Matrix4X4) : Matrix4X4 :=
  fold_left
    (fun mo c =>
       fold_left
         (fun mo r =>
            set mo r c (m.[r,0] * m1.[0,c] + m.[r,1] * m1.[1,c] + m.[r,2] * m1.[2,c] + m.[r,3] * m1.[3,c]))
         (seq 0 4) mo)
    (seq 0 4) (lit []).

End Matrix.

(** ** The store

    [type Triangle struct] of triangle.go.  The array [vs [3]*Vector] is
    only ever indexed by the constants 0, 1 and 2: it is the three fields
    [vs0], [vs1], [vs2].  [color] is a [uint32]. *)
Definition ptr : Type := option nat.

Record Triangle : Type := mkTriangle {
  vs0 : ptr;
  vs1 : ptr;
  vs2 : ptr;
  normal : ptr;
  normalI : float64;
  incident : float64;
  color : Z
}.

Record Heap : Type := mkHeap {
  vectors : list Vector;
  triangles : list Triangle
}.

Definition empty_heap : Heap := mkHeap [] [].

(** A computation reads and extends the store and returns, or panics. *)
Inductive outcome (A : Type) : Type :=
| Done (a : A) (h : Heap)
| Panic.
Arguments Done {A} a h.
Arguments Panic {A}.

Definition M (A : Type) : Type := Heap -> outcome A.

Definition ret {A : Type} (a : A) : M A := fun h => Done a h.

Definition bind {A B : Type} (m : M A) (k : A -> M B) : M B :=
  fun h => match m h with
           | Done a h' => k a h'
           | Panic => Panic
           end.

Definition panic {A : Type} : M A := fun _ => Panic.

Declare Scope go_scope.
Delimit Scope go_scope with go.
Notation "'let!' x := m 'in' k" := (bind m (fun x => k))
  (at level 10, x name, m at level 100, k at level 200,
   format "'let!'  x  :=  m  'in' '//' k") : go_scope.
Notation "'do!' m 'in' k" := (bind m (fun _ => k))
  (at level 10, m at level 100, k at level 200,
   format "'do!'  m  'in' '//' k") : go_scope.

(** [&Vector{...}]: the fresh address is the next free one. *)
Definition new_Vector (v : Vector) : M ptr :=
  fun h => Done (Some (length (vectors h)))
                (mkHeap (vectors h ++ [v]) (triangles h)).

(** [*p] for [p *Vector]. *)
Definition get_Vector (p : ptr) : M Vector :=
  fun h => match p with
           | Some a => match vectors h !! a with
                       | Some v => Done v h
                       | None => Panic
                       end
           | None => Panic
           end.

(** [*p = v] for [p *Vector]. *)
Definition put_Vector (p : ptr) (v : Vector) : M unit :=
  fun h => match p with
           | Some a => match vectors h !! a with
                       | Some _ => Done tt (mkHeap (<[a := v]> (vectors h)) (triangles h))
                       | None => Panic
                       end
           | None => Panic
           end.

Definition new_Triangle (t : Triangle) : M ptr :=
  fun h => Done (Some (length (triangles h)))
                (mkHeap (vectors h) (triangles h ++ [t])).

Definition get_Triangle (p : ptr) : M Triangle :=
  fun h => match p with
           | Some a => match triangles h !! a with
                       | Some t => Done t h
                       | None => Panic
                       end
           | None => Panic
           end.

Definition put_Triangle (p : ptr) (t : Triangle) : M unit :=
  fun h => match p with
           | Some a => match triangles h !! a with
                       | Some _ => Done tt (mkHeap (vectors h) (<[a := t]> (triangles h)))
                       | None => Panic
                       end
           | None => Panic
           end.

(** Assignments to one field of a [Triangle]. *)
Definition set_vs0 (t : Triangle) (p : ptr) : Triangle :=
  mkTriangle p (vs1 t) (vs2 t) (normal t) (normalI t) (incident t) (color t).
Definition set_vs1 (t : Triangle) (p : ptr) : Triangle :=
  mkTriangle (vs0 t) p (vs2 t) (normal t) (normalI t) (incident t) (color t).
Definition set_vs2 (t : Triangle) (p : ptr) : Triangle :=
  mkTriangle (vs0 t) (vs1 t) p (normal t) (normalI t) (incident t) (color t).
Definition set_normal (t : Triangle) (p : ptr) : Triangle :=
  mkTriangle (vs0 t) (vs1 t) (vs2 t) p (normalI t) (incident t) (color t).
Definition set_normalI (t : Triangle) (a : float64) : Triangle :=
  mkTriangle (vs0 t) (vs1 t) (vs2 t) (normal t) a (incident t) (color t).
Definition set_incident (t : Triangle) (a : float64) : Triangle :=
  mkTriangle (vs0 t) (vs1 t) (vs2 t) (normal t) (normalI t) a (color t).
Definition set_color (t : Triangle) (c : Z) : Triangle :=
  mkTriangle (vs0 t) (vs1 t) (vs2 t) (normal t) (normalI t) (incident t) c.

(** [uint8(x)] of a [uint32] or [uint64]. *)
Definition uint8 (x : Z) : Z := (x mod 256)%Z.
(** Reduction into [uint32]. *)
Definition uint32 (x : Z) : Z := (x mod 2 ^ 32)%Z.

(** [int(x)] and [uint8(x)] of a [float64]: the fraction is discarded
    (truncation towards zero).  Go leaves the result open when the
    truncated value does not fit the type: [float_to_int] is the truncated
    value itself, [float_to_uint8] reduces it like an integer conversion,
    and the properties below are about values that fit. *)
Definition float_to_int (x : float64) : Z :=
  if Rle_dec 0 x then Int_part x else (- Int_part (- x))%Z.

Definition float_to_uint8 (x : float64) : Z := uint8 (float_to_int x).

(** [float64(n)] of an integer that a [float64] holds exactly. *)
Definition int_to_float (n : Z) : float64 := IZR n.

(** [a > b] on [float64]. *)
Definition float_gt (a b : float64) : bool := if Rgt_dec a b then true else false.

(** [sdl.Color]: four [uint8] channels. *)
Module sdl.

Record Color : Type := mkColor { R : Z; G : Z; B : Z; A : Z }.

(** The constants of package [sdl] that core.go names.  Their values come
    from the SDL headers, not from this repository: they are a parameter
    of the configuration below. *)
Record constants : Type := mkConstants {
  WINDOWPOS_UNDEFINED : Z;
  RENDERER_SOFTWARE : Z;
  RENDERER_ACCELERATED : Z;
  RENDERER_PRESENTVSYNC : Z;
  RENDERER_TARGETTEXTURE : Z;
  WINDOW_FULLSCREEN : Z;
  WINDOW_FULLSCREEN_DESKTOP : Z;
  WINDOW_OPENGL : Z;
  WINDOW_VULKAN : Z;
  WINDOW_HIDDEN : Z;
  WINDOW_BORDERLESS : Z;
  WINDOW_RESIZABLE : Z;
  WINDOW_MINIMIZED : Z;
  WINDOW_MAXIMIZED : Z;
  WINDOW_INPUT_GRABBED : Z;
  WINDOW_ALLOW_HIGHDPI : Z
}.

End sdl.

(** ** triangle.go

    The methods have a pointer receiver: [t] is the address of the
    receiver.  A method that returns [&Vector{..}] to a field allocates;
    the vectors a method only computes with ([v1], [v2] of [Normal]) are
    values. *)
Module Triangle.

Local Open Scope go_scope.

(** [var origin = &Vector{x: 0, y: 0, z: 1}], never assigned to. *)
Definition origin : Vector := Vector.mk 0 0 1 0.

(** The methods of [*Vector] that return a fresh vector, on addresses. *)
Definition NewInstance_at (p : ptr) : M ptr :=
  let! v := get_Vector p in new_Vector (Vector.NewInstance v).
Definition MatrixMultiply_at (p : ptr) (m : Matrix4X4) : M ptr :=
  let! v := get_Vector p in new_Vector (Vector.MatrixMultiply v m).
Definition Add_at (p : ptr) (offset : Vector) : M ptr :=
  let! v := get_Vector p in new_Vector (Vector.Add v offset).

Definition NewInstance (t : ptr) : M ptr :=
  let! T := get_Triangle t in
  let! a := NewInstance_at (vs0 T) in
  let! b := NewInstance_at (vs1 T) in
  let! c := NewInstance_at (vs2 T) in
  let! n := NewInstance_at (normal T) in
  new_Triangle (mkTriangle a b c n 0 0 (color T)).

(** [t.vs[i].z = t.vs[i].w], through the pointer in the field. *)
Definition flatten_at (p : ptr) : M unit :=
  let! v := get_Vector p in put_Vector p (Vector.SetZ v (Vector.w v)).

Definition Normal (t : ptr) (screen : ptr) : M ptr :=
  let! T := get_Triangle t in
  do! flatten_at (vs0 T) in
  do! flatten_at (vs1 T) in
  do! flatten_at (vs2 T) in
  let! a := get_Vector (vs0 T) in
  let! b := get_Vector (vs1 T) in
  let! c := get_Vector (vs2 T) in
  let v1 := Vector.Subtract b a in
  let v2 := Vector.Subtract c a in
  let! n := new_Vector (Vector.Normalize (Vector.CrossProduct v1 v2)) in
  let! T := get_Triangle t in
  do! put_Triangle t (set_normal T n) in
  let! T := get_Triangle t in
  let! nv := get_Vector (normal T) in
  do! put_Triangle t (set_normalI T (acos (Vector.DotProduct nv origin / Vector.Length nv))) in
  let! T := get_Triangle t in
  let! nv := get_Vector (normal T) in
  let! sv := get_Vector screen in
  do! put_Triangle t (set_incident T (acos (Vector.DotProduct nv sv / Vector.Length nv))) in
  ret t.

Definition R (t : ptr) : M Z := let! T := get_Triangle t in ret (uint8 (Z.shiftr (color T) 24)).
Definition G (t : ptr) : M Z := let! T := get_Triangle t in ret (uint8 (Z.shiftr (color T) 16)).
Definition B (t : ptr) : M Z := let! T := get_Triangle t in ret (uint8 (Z.shiftr (color T) 8)).
Definition A (t : ptr) : M Z := let! T := get_Triangle t in ret (uint8 (color T)).

Definition Multiply (t : ptr) (matrix : Matrix4X4) : M ptr :=
  let! T := get_Triangle t in
  let! a := MatrixMultiply_at (vs0 T) matrix in
  let! b := MatrixMultiply_at (vs1 T) matrix in
  let! c := MatrixMultiply_at (vs2 T) matrix in
  new_Triangle (mkTriangle a b c (normal T) (normalI T) (incident T) (color T)).

(** [t1.vs[i] = t1.vs[i].Divide(t1.vs[i].w)] *)
Definition divide_by_w (p : ptr) : M ptr :=
  let! v := get_Vector p in new_Vector (Vector.Divide v (Vector.w v)).

Definition Project (t : ptr) (projection : Matrix4X4) : M ptr :=
  let! T := get_Triangle t in
  let! a := MatrixMultiply_at (vs0 T) projection in
  let! b := MatrixMultiply_at (vs1 T) projection in
  let! c := MatrixMultiply_at (vs2 T) projection in
  let! t1 := new_Triangle (mkTriangle a b c (normal T) (normalI T) (incident T) (color T)) in
  let! T1 := get_Triangle t1 in
  let! d := divide_by_w (vs0 T1) in
  do! put_Triangle t1 (set_vs0 T1 d) in
  let! T1 := get_Triangle t1 in
  let! d := divide_by_w (vs1 T1) in
  do! put_Triangle t1 (set_vs1 T1 d) in
  let! T1 := get_Triangle t1 in
  let! d := divide_by_w (vs2 T1) in
  do! put_Triangle t1 (set_vs2 T1 d) in
  ret t1.

Definition applyMatrix (t : ptr) (m : Matrix4X4) : M unit :=
  let! T := get_Triangle t in
  let! a := MatrixMultiply_at (vs0 T) m in
  do! put_Triangle t (set_vs0 T a) in
  let! T := get_Triangle t in
  let! b := MatrixMultiply_at (vs1 T) m in
  do! put_Triangle t (set_vs1 T b) in
  let! T := get_Triangle t in
  let! c := MatrixMultiply_at (vs2 T) m in
  put_Triangle t (set_vs2 T c).

Definition IsVisible (t : ptr) : M bool :=
  let! T := get_Triangle t in
  ret (float_lt (normalI T) (PI / 2)).

Definition TranslateXYZ (t : ptr) (x y z : float64) : M ptr :=
  let offset := Vector.mk x y z 0 in
  let! T := get_Triangle t in
  let! a := Add_at (vs0 T) offset in
  let! b := Add_at (vs1 T) offset in
  let! c := Add_at (vs2 T) offset in
  new_Triangle (mkTriangle a b c (normal T) (normalI T) (incident T) (color T)).





Definition FaceColor (t : ptr) : M sdl.Color :=
  let! T := get_Triangle t in
  ret (sdl.mkColor (uint8 (Z.shiftr (color T) 24)) (uint8 (Z.shiftr (color T) 16))
                   (uint8 (Z.shiftr (color T) 8)) (uint8 (color T))).

Definition ShadedColor (t : ptr) : M sdl.Color :=
  let! T := get_Triangle t in
  if float_gt (normalI T) (PI / 2) then ret (sdl.mkColor 32 32 32 0)
  else
    let shade := cos (normalI T) in
    ret (sdl.mkColor
           (float_to_uint8 (int_to_float (uint8 (Z.shiftr (color T) 24)) * shade))
           (float_to_uint8 (int_to_float (uint8 (Z.shiftr (color T) 16)) * shade))
           (float_to_uint8 (int_to_float (uint8 (Z.shiftr (color T) 8)) * shade))
           (uint8 (color T))).

End Triangle.

(** ** The library functions object.go calls

    [strings.TrimSpace], [strings.Split] and [strconv.ParseUint],
    [strconv.ParseInt] of the Go standard library, on byte strings and for
    the arguments the loader passes (separator [" "], base 10). *)
Module strings.

Local Open Scope nat_scope.

(** The table [asciiSpace]: tab, line feed, vertical tab, form feed,
    carriage return, space.  A byte above 127 counts as no space (the
    Unicode spaces outside ASCII are not modelled). *)
Definition asciiSpace (c : ascii) : bool :=
  let n := nat_of_ascii c in
  (Nat.leb 9 n && Nat.leb n 13) || Nat.eqb n 32.

Fixpoint TrimLeft (s : string) : string :=
  match s with
  | EmptyString => EmptyString
  | String c s' => if asciiSpace c then TrimLeft s' else s
  end.

Fixpoint TrimRight (s : string) : string :=
  match s with
  | EmptyString => EmptyString
  | String c s' =>
      match TrimRight s' with
      | EmptyString => if asciiSpace c then EmptyString else String c EmptyString
      | r => String c r
      end
  end.

Definition TrimSpace (s : string) : string := TrimRight (TrimLeft s).

(** [strings.Split(s, " ")]: one more piece than there are spaces. *)
Fixpoint Split (s : string) : list string :=
  match s with
  | EmptyString => [EmptyString]
  | String c s' =>
      if Ascii.eqb c " " then EmptyString :: Split s'
      else match Split s' with
           | piece :: pieces => String c piece :: pieces
           | [] => [String c EmptyString]
           end
  end.

(** [s[i:]] and [s[:j]]; the callers check the bounds. *)
Definition from (i : nat) (s : string) : string := substring i (String.length s - i) s.
Definition upto (j : nat) (s : string) : string := substring 0 j s.

End strings.

Module strconv.

Local Open Scope Z_scope.

Inductive NumError : Type := ErrSyntax | ErrRange.

Definition isDigit (c : ascii) : bool :=
  let n := nat_of_ascii c in (Nat.leb 48 n && Nat.leb n 57)%nat.

Definition digit (c : ascii) : Z := Z.of_nat (nat_of_ascii c) - 48.

Definition maxUint64 : Z := 2 ^ 64 - 1.

(** The loop of [ParseUint] for base 10: [cutoff] is [maxUint64/10 + 1],
    [n] a [uint64]. *)
Fixpoint ParseUint_loop (s : string) (maxVal n : Z) : Z * option NumError :=
  match s with
  | EmptyString => (n, None)
  | String c s' =>
      if negb (isDigit c) then (0, Some ErrSyntax)
      else
        let d := digit c in
        if n >=? maxUint64 / 10 + 1 then (maxVal, Some ErrRange)
        else
          let n := n * 10 in
          let n1 := (n + d) mod 2 ^ 64 in
          if (n1 <? n) || (n1 >? maxVal) then (maxVal, Some ErrRange)
          else ParseUint_loop s' maxVal n1
  end.

(** [strconv.ParseUint(s, 10, bitSize)] for [0 < bitSize <= 64]. *)
Definition ParseUint (s : string) (bitSize : Z) : Z * option NumError :=
  match s with
  | EmptyString => (0, Some ErrSyntax)
  | _ => ParseUint_loop s (2 ^ bitSize - 1) 0
  end.

(** [strconv.ParseInt(s, 10, bitSize)] for [0 < bitSize <= 64]. *)
Definition ParseInt (s : string) (bitSize : Z) : Z * option NumError :=
  match s with
  | EmptyString => (0, Some ErrSyntax)
  | String c s' =>
      let neg := Ascii.eqb c "-" in
      let s := if Ascii.eqb c "+" then s' else if Ascii.eqb c "-" then s' else s in
      let (un, err) := ParseUint s bitSize in
      match err with
      | Some ErrSyntax => (0, err)
      | _ =>
          let cutoff := 2 ^ (bitSize - 1) in
          if negb neg && (un >=? cutoff) then (cutoff - 1, Some ErrRange)
          else if neg && (un >? cutoff) then (- cutoff, Some ErrRange)
          else (if neg then - un else un, None)
      end
  end.

End strconv.

(** [error] values built by [fmt.Errorf]: the format and its arguments. *)
Inductive arg : Type :=
| Int (n : Z)
| Str (s : string).

Record error : Type := Errorf { format : string; args : list arg }.

(** ** object.go *)
Module Object.

Local Open Scope string_scope.
Local Open Scope Z_scope.
Local Open Scope go_scope.

Record Object : Type := mk { ts : list ptr; offset : ptr }.

(** [len(s)] as an [int]. *)
Definition len {A : Type} (l : list A) : Z := Z.of_nat (List.length l).

(** [s[i]] on a slice: out of range panics. *)
Definition index {A : Type} (l : list A) (i : Z) : M A :=
  if (i <? 0) || (len l <=? i) then panic
  else match l !! Z.to_nat i with
       | Some a => ret a
       | None => panic
       end.

Section Loader.

(** [strconv.ParseFloat(s, 32)] of the Go library, [None] for a non-nil
    error: the loader is modelled for every such function. *)
Variable ParseFloat : string -> option float64.

(** The fields of a ["v "] line: all of [parseVector] up to its last
    [return]. *)
Definition parseVector_fields (line : string) (lineCnt : Z) : Vector + error :=
  let xyzw := strings.Split (strings.TrimSpace line) in
  if len xyzw <? 3 then
    inr (Errorf "too few values in line %d: %s" [Int lineCnt; Str line])
  else if len xyzw >? 4 then
    inr (Errorf "too many values in line %d: %s" [Int lineCnt; Str line])
  else
    match ParseFloat (nth 0 xyzw "") with
    | None => inr (Errorf "bad x in line %d: %s" [Int lineCnt; Str line])
    | Some x =>
    match ParseFloat (nth 1 xyzw "") with
    | None => inr (Errorf "bad Y in line %d: %s" [Int lineCnt; Str line])
    | Some y =>
    match ParseFloat (nth 2 xyzw "") with
    | None => inr (Errorf "bad Z in line %d: %s" [Int lineCnt; Str line])
    | Some z =>
        if len xyzw =? 4 then
          match ParseFloat (nth 3 xyzw "") with
          | None => inr (Errorf "bad W in line %d: %s" [Int lineCnt; Str line])
          | Some w => inl (Vector.mk x y z w)
          end
        else inl (Vector.mk x y z 1%R)
    end end end.

Definition parseVector (line : string) (lineCnt : Z) : M (ptr * option error) :=
  match parseVector_fields line lineCnt with
  | inr e => ret (None, Some e)
  | inl v => let! p := new_Vector v in ret (p, None)
  end.

(** The three indices of an ["f "] line: all of [parseFace] up to its
    last [return]. *)
Definition parseFace_fields (line : string) (lineCnt : Z) : (Z * Z * Z) + error :=
  let xyz := strings.Split (strings.TrimSpace line) in
  if negb (len xyz =? 3) then
    inr (Errorf "bad face in line %d: %s" [Int lineCnt; Str line])
  else
    match strconv.ParseInt (nth 0 xyz "") 32 with
    | (_, Some _) => inr (Errorf "bad x in line %d: %s" [Int lineCnt; Str line])
    | (i1, None) =>
    match strconv.ParseInt (nth 1 xyz "") 32 with
    | (_, Some _) => inr (Errorf "bad Y in line %d: %s" [Int lineCnt; Str line])
    | (i2, None) =>
    match strconv.ParseInt (nth 2 xyz "") 32 with
    | (_, Some _) => inr (Errorf "bad Z in line %d: %s" [Int lineCnt; Str line])
    | (i3, None) => inl (i1, i2, i3)
    end end end.

Definition parseFace (pts : list ptr) (line : string) (lineCnt : Z)
  : M (ptr * option error) :=
  match parseFace_fields line lineCnt with
  | inr e => ret (None, Some e)
  | inl (i1, i2, i3) =>
      let! a := index pts (i1 - 1) in
      let! b := index pts (i2 - 1) in
      let! c := index pts (i3 - 1) in
      let! n := new_Vector (Vector.mk 0 0 0 1) in
      let! t := new_Triangle (mkTriangle a b c n 0 0 4294967295) in
      ret (t, None)
  end.

(** The index and the channels of an ["xc"] line: all of
    [parseFaceColor] up to its assignment.  The variables are [uint64]. *)
Definition parseFaceColor_fields (ts : list ptr) (line : string) (lineCnt : Z)
  : (Z * Z * Z * Z * Z) + error :=
  let irgba := strings.Split (strings.TrimSpace line) in
  if len irgba <? 1 then
    inr (Errorf "too few color entries in line %d: %s" [Int lineCnt; Str line])
  else
    let l := len irgba in
    match strconv.ParseUint (nth 0 irgba "") 8 with
    | (_, Some _) => inr (Errorf "bad i in line %d: %s" [Int lineCnt; Str line])
    | (i, None) =>
    if (i <? 1) || (i >? len ts) then
      inr (Errorf "bad i (%d) in line %d. Must be between 1 & %d: %s"
                  [Int i; Int lineCnt; Int (len ts); Str line])
    else
    match (if l >? 1 then strconv.ParseUint (nth 1 irgba "") 8 else (0, None)) with
    | (_, Some _) => inr (Errorf "bad r in line %d: %s" [Int lineCnt; Str line])
    | (r, None) =>
    match (if l >? 2 then strconv.ParseUint (nth 2 irgba "") 8 else (0, None)) with
    | (_, Some _) => inr (Errorf "bad g in line %d: %s" [Int lineCnt; Str line])
    | (g, None) =>
    match (if l >? 3 then strconv.ParseUint (nth 3 irgba "") 8 else (0, None)) with
    | (_, Some _) => inr (Errorf "bad b in line %d: %s" [Int lineCnt; Str line])
    | (b, None) =>
    match (if l >? 4 then strconv.ParseUint (nth 4 irgba "") 8 else (255, None)) with
    | (_, Some _) => inr (Errorf "bad a in line %d: %s" [Int lineCnt; Str line])
    | (a, None) => inl (i, r, g, b, a)
    end end end end end.

(** [uint32(uint8(r))<<24 + uint32(uint8(g))<<16 + uint32(uint8(b))<<8
    + uint32(uint8(a))] *)
Definition pack (r g b a : Z) : Z :=
  uint32 (uint32 (uint32 (uint32 (Z.shiftl (uint8 r) 24) + uint32 (Z.shiftl (uint8 g) 16))
                  + uint32 (Z.shiftl (uint8 b) 8))
          + uint8 a).

Definition parseFaceColor (ts : list ptr) (line : string) (lineCnt : Z)
  : M (option error) :=
  match parseFaceColor_fields ts line lineCnt with
  | inr e => ret (Some e)
  | inl (i, r, g, b, a) =>
      let! t := index ts (i - 1) in
      let! T := get_Triangle t in
      do! put_Triangle t (set_color T (pack r g b a)) in
      ret None
  end.

(** The [switch line[:2]] of the loop of [LoadObject]: the new [pts],
    [ts] and [err].  [err] is nil when an iteration starts, for the loop
    returns as soon as it is not. *)
Definition dispatch (line : string) (lineCnt : Z) (pts ts : list ptr)
  : M (list ptr * list ptr * option error) :=
  let tag := strings.upto 2 line in
  if String.eqb tag "# " then ret (pts, ts, None)
  else if String.eqb tag "v " then
    let! r := parseVector (strings.from 1 line) lineCnt in
    ret ((pts ++ [fst r])%list, ts, snd r)
  else if String.eqb tag "vt" then ret (pts, ts, None)
  else if String.eqb tag "vn" then ret (pts, ts, None)
  else if String.eqb tag "vp" then ret (pts, ts, None)
  else if String.eqb tag "f " then
    let! r := parseFace pts (strings.from 1 line) lineCnt in
    ret (pts, (ts ++ [fst r])%list, snd r)
  else if String.eqb tag "l " then ret (pts, ts, None)
  else if String.eqb tag "xc" then
    let! err := parseFaceColor ts (strings.from 2 line) lineCnt in
    ret (pts, ts, err)
  else ret (pts, ts, None).

(** The loop [for scanner.Scan()] over the lines the scanner delivers,
    and the final [return].  [line[:2]] of a line of one byte panics. *)
Fixpoint scan (lines : list string) (lineCnt : Z) (pts ts : list ptr)
  : M (Object + error) :=
  match lines with
  | [] => ret (inl (mk ts None))
  | line :: lines' =>
      let lineCnt := lineCnt + 1 in
      if (String.length line =? 0)%nat then scan lines' lineCnt pts ts
      else if (String.length line <? 2)%nat then panic
      else
        let! r := dispatch line lineCnt pts ts in
        match r with
        | (_, _, Some e) => ret (inr e)
        | (pts, ts, None) => scan lines' lineCnt pts ts
        end
  end.

(** [LoadObject] from where the file is open: [lines] are the lines of
    the file. *)
Definition LoadObject (lines : list string) : M (Object + error) :=
  scan lines 0 [] [].

End Loader.

(** The methods of [*Object].  The receiver is the value of the object;
    [Offset], which assigns to a field of its receiver, returns the
    receiver's new value beside its result. *)

(** [for i, t := range o.ts { ts[i] = t.NewInstane() }] *)
Fixpoint newInstance_each (l : list ptr) : M (list ptr) :=
  match l with
  | [] => ret []
  | t :: l' =>
      let! t1 := Triangle.NewInstance t in
      let! l1 := newInstance_each l' in
      ret (t1 :: l1)
  end.

Definition newInstance (o : Object) : M Object :=
  let! l := newInstance_each (ts o) in
  ret (mk l (offset o)).

(** [for _, t := range o.ts { t.applyMatrix(m) }] *)
Fixpoint applyMatrix_each (l : list ptr) (m : Matrix4X4) : M unit :=
  match l with
  | [] => ret tt
  | t :: l' => do! Triangle.applyMatrix t m in applyMatrix_each l' m
  end.

Definition applyMatrix (o : Object) (m : Matrix4X4) : M Object :=
  do! applyMatrix_each (ts o) m in
  ret o.

Definition Rotate (o : Object) (xDeg yDeg zDeg : float64) : M Object :=
  let xRad := (xDeg * PI / 180)%R in
  let yRad := (yDeg * PI / 180)%R in
  let zRad := (zDeg * PI / 180)%R in
  let! o1 := newInstance o in
  applyMatrix o1 (Matrix.RotateXYZ xRad yRad zRad).

Definition Scale (o : Object) (x y z : float64) : M Object :=
  let scale := Matrix.ScaleXYZ x y z in
  let! o1 := newInstance o in
  applyMatrix o1 scale.

Definition Translate (o : Object) (x y z : float64) : M Object :=
  let! o1 := newInstance o in
  let! p := new_Vector (Vector.mk x y z 0%R) in
  ret (mk (ts o1) p).

Definition Offset (o : Object) : M (ptr * Object) :=
  match offset o with
  | None =>
      let! p := new_Vector (Vector.mk 0%R 0%R 0%R 0%R) in
      ret (p, mk (ts o) p)
  | Some _ => ret (offset o, o)
  end.

Definition OffsetXYZ (o : Object) : M (float64 * float64 * float64 * Object) :=
  let! r := Offset o in
  let! o1 := get_Vector (fst r) in
  ret (Vector.x o1, Vector.y o1, Vector.z o1, snd r).

Definition Triangles (o : Object) : list ptr := ts o.

End Object.

(** ** common.go

    [FMap] computes in [float32]; like [float64] it is read as the reals. *)
Definition FMap (value srcMin srcMax destMin destMax : float64) : float64 :=
  (value - srcMin) * (destMax - destMin) / (srcMax - srcMin) + destMin.

(** ** The handler: [BaseHandler]

    A destroyer is a [func()] that acts on the world outside the handler;
    it is taken not to call back into the handler (whose lock is held
    while it runs).  A nil slice is [None]. *)
Module BaseHandler.

Section Destroyers.

Variable World : Type.

Definition destroyer : Type := World -> World.

Record BaseHandler : Type := mk { destroyers : option (list destroyer) }.

Definition AddDestroyer (b : BaseHandler) (d : destroyer) : BaseHandler :=
  let b := match destroyers b with
           | None => mk (Some [])
           | Some _ => b
           end in
  match destroyers b with
  | Some l => mk (Some (l ++ [d]))
  | None => mk (Some [d])
  end.

(** [for _, destroyer := range b.destroyers { destroyer() }] *)
Fixpoint call_each (l : list destroyer) (w : World) : World :=
  match l with
  | [] => w
  | d :: l' => call_each l' (d w)
  end.

Definition Destroy (b : BaseHandler) (w : World) : BaseHandler * World :=
  match destroyers b with
  | Some l => (mk None, call_each l w)
  | None => (b, w)
  end.

End Destroyers.

End BaseHandler.

(** ** core.go: the configuration

    [Open] fills a [config] with its defaults and applies the options of
    its caller in their order.  A [ConfigOption] is a [func(c *config)]:
    here the function from the old to the new value of [*c]. *)
Module Config.

Local Open Scope Z_scope.

Record config : Type := mk {
  windowX : Z;
  windowY : Z;
  windowFlags : Z;
  framerate : Z;
  rendererFlags : Z
}.

Definition ConfigOption : Type := config -> config.

Definition Framerate (fr : Z) : ConfigOption :=
  fun c =>
    if fr >? 0
    then mk (windowX c) (windowY c) (windowFlags c) fr (rendererFlags c)
    else c.

Definition WindowPosition (x y : Z) : ConfigOption :=
  fun c => mk x y (windowFlags c) (framerate c) (rendererFlags c).

Section Constants.

Variable k : sdl.constants.

Definition RendererFlags (flags : Z) : ConfigOption :=
  fun c =>
    mk (windowX c) (windowY c) (windowFlags c) (framerate c)
       (Z.land (Z.land (Z.land (Z.land flags
          (sdl.RENDERER_SOFTWARE k))
          (sdl.RENDERER_ACCELERATED k))
          (sdl.RENDERER_PRESENTVSYNC k))
          (sdl.RENDERER_TARGETTEXTURE k)).

Definition WindowFlags (flags : Z) : ConfigOption :=
  fun c =>
    mk (windowX c) (windowY c)
       (Z.land (Z.land (Z.land (Z.land (Z.land (Z.land (Z.land (Z.land (Z.land (Z.land
          (Z.land flags
          (sdl.WINDOW_FULLSCREEN k))
          (sdl.WINDOW_FULLSCREEN_DESKTOP k))
          (sdl.WINDOW_OPENGL k))
          (sdl.WINDOW_VULKAN k))
          (sdl.WINDOW_HIDDEN k))
          (sdl.WINDOW_BORDERLESS k))
          (sdl.WINDOW_RESIZABLE k))
          (sdl.WINDOW_MINIMIZED k))
          (sdl.WINDOW_MAXIMIZED k))
          (sdl.WINDOW_INPUT_GRABBED k))
          (sdl.WINDOW_ALLOW_HIGHDPI k))
       (framerate c) (rendererFlags c).

(** The [cfg] of [Open] before and after its loop over the options. *)
Definition defaults : config :=
  mk (sdl.WINDOWPOS_UNDEFINED k) (sdl.WINDOWPOS_UNDEFINED k)
     (sdl.WINDOW_OPENGL k) 60 (sdl.RENDERER_ACCELERATED k).

Definition configure (options : list ConfigOption) : config :=
  fold_left (fun cfg option => option cfg) options defaults.

End Constants.

(** [fr := time.Second / time.Duration(framerate)] of [gameLoop], in
    nanoseconds: an integer division, which panics on a zero divisor. *)
Definition period (framerate : Z) : option Z :=
  if framerate =? 0 then None else Some (Z.quot 1000000000 framerate).

End Config.

(** ** core.go: the run loop

    [Quit] and the goroutine [gameLoop] starts run concurrently.  Each is
    a program counter over the statements of the source; a configuration
    holds the [Canvas], the two counters and nothing else, and a step is a
    step of one of them or of their surroundings (the ticker firing, the
    event loop taking or releasing [c.lock]).  [fmt.Println] has no effect
    on a configuration and is left out.  The callbacks of the handler are
    taken to return, and [Quit] to be called from a goroutine other than
    the game loop, one call at a time. *)
Module Canvas.

Local Open Scope Z_scope.

Inductive runState : Type := initialized | running | terminating | stopped.

Definition runState_eqb (a b : runState) : bool :=
  match a, b with
  | initialized, initialized | running, running
  | terminating, terminating | stopped, stopped => true
  | _, _ => false
  end.

(** A [*time.Ticker]: whether it is still running, and whether a tick
    waits in its channel [C] (of capacity one). *)
Record Ticker : Type := mkTicker { active : bool; pending : bool }.

(** Who holds [c.lock]: the event loop of [start], or the game loop. *)
Inductive owner : Type := Events | Tick.

(** [type Canvas struct].  The window, the renderer and the handler are
    opaque handles; [done] is an unbuffered channel and has no state of
    its own; [glwg] is the counter of the wait group. *)
Record Canvas : Type := mkCanvas {
  Window : nat;
  state : runState;
  renderer : nat;
  handler : nat;
  glwg : Z;
  frameRateTimer : option Ticker;
  lock : option owner
}.

Definition set_state (c : Canvas) (s : runState) : Canvas :=
  mkCanvas (Window c) s (renderer c) (handler c) (glwg c) (frameRateTimer c) (lock c).
Definition set_glwg (c : Canvas) (n : Z) : Canvas :=
  mkCanvas (Window c) (state c) (renderer c) (handler c) n (frameRateTimer c) (lock c).
Definition set_frameRateTimer (c : Canvas) (t : option Ticker) : Canvas :=
  mkCanvas (Window c) (state c) (renderer c) (handler c) (glwg c) t (lock c).
Definition set_lock (c : Canvas) (l : option owner) : Canvas :=
  mkCanvas (Window c) (state c) (renderer c) (handler c) (glwg c) (frameRateTimer c) l.

Definition IsTerminated (c : Canvas) : bool := negb (runState_eqb (state c) running).

(** Where a call of [Quit] stands: before the statement named. *)
Inductive quit_pc : Type :=
| Q_if                (* if c.state == running *)
| Q_terminating       (* c.state = terminating *)
| Q_stop              (* c.frameRateTimer.Stop() *)
| Q_send              (* c.done <- true *)
| Q_wait              (* c.glwg.Wait() *)
| Q_stopped           (* c.state = stopped *)
| Q_return            (* returned *)
| Q_panic.            (* nil dereference *)

(** Where the goroutine of [gameLoop] stands. *)
Inductive loop_pc : Type :=
| G_new               (* c.frameRateTimer = time.NewTicker(fr) *)
| G_for               (* for c.state == running *)
| G_select            (* select *)
| G_lock              (* case <-c.frameRateTimer.C: c.lock.Lock() *)
| G_body              (* OnUpdate, OnDraw, Present *)
| G_unlock            (* defer c.lock.Unlock() *)
| G_done              (* the deferred c.glwg.Done() *)
| G_exit              (* the goroutine is over *)
| G_panic.            (* negative WaitGroup counter *)

Definition loop_pc_eqb (a b : loop_pc) : bool :=
  match a, b with
  | G_new, G_new | G_for, G_for | G_select, G_select | G_lock, G_lock
  | G_body, G_body | G_unlock, G_unlock | G_done, G_done | G_exit, G_exit
  | G_panic, G_panic => true
  | _, _ => false
  end.

Record config : Type := mkConfig { canvas : Canvas; qpc : quit_pc; gpc : loop_pc }.

(** One step of [Quit]; [None] when it is blocked or over.  The send on
    [c.done] goes through when the game loop stands at its [select],
    which then takes the case [<-c.done] and returns to its deferred
    calls; [Wait] goes through when the counter is zero. *)
Definition Quit (k : config) : option config :=
  let c := canvas k in
  match qpc k with
  | Q_if =>
      if runState_eqb (state c) running
      then Some (mkConfig c Q_terminating (gpc k))
      else Some (mkConfig c Q_return (gpc k))
  | Q_terminating => Some (mkConfig (set_state c terminating) Q_stop (gpc k))
  | Q_stop =>
      match frameRateTimer c with
      | None => Some (mkConfig c Q_panic (gpc k))
      | Some t =>
          Some (mkConfig (set_frameRateTimer c (Some (mkTicker false (pending t))))
                         Q_send (gpc k))
      end
  | Q_send =>
      if loop_pc_eqb (gpc k) G_select
      then Some (mkConfig c Q_wait G_done)
      else None
  | Q_wait =>
      if glwg c =? 0 then Some (mkConfig c Q_stopped (gpc k)) else None
  | Q_stopped => Some (mkConfig (set_state c stopped) Q_return (gpc k))
  | Q_return => None
  | Q_panic => None
  end.

(** One step of the goroutine of [gameLoop], other than the receive from
    [c.done] (which is the send of [Quit]). *)
Definition gameLoop (k : config) : option config :=
  let c := canvas k in
  match gpc k with
  | G_new =>
      Some (mkConfig (set_frameRateTimer c (Some (mkTicker true false))) (qpc k) G_for)
  | G_for =>
      if runState_eqb (state c) running
      then Some (mkConfig c (qpc k) G_select)
      else Some (mkConfig c (qpc k) G_done)
  | G_select =>
      match frameRateTimer c with
      | Some t =>
          if pending t
          then Some (mkConfig (set_frameRateTimer c (Some (mkTicker (active t) false)))
                              (qpc k) G_lock)
          else None
      | None => None
      end
  | G_lock =>
      match lock c with
      | None => Some (mkConfig (set_lock c (Some Tick)) (qpc k) G_body)
      | Some _ => None
      end
  | G_body => Some (mkConfig c (qpc k) G_unlock)
  | G_unlock => Some (mkConfig (set_lock c None) (qpc k) G_for)
  | G_done =>
      if glwg c - 1 <? 0 then Some (mkConfig c (qpc k) G_panic)
      else Some (mkConfig (set_glwg c (glwg c - 1)) (qpc k) G_exit)
  | G_exit => None
  | G_panic => None
  end.

(** The surroundings: a running ticker puts a tick in its empty channel. *)
Definition tick (k : config) : option config :=
  let c := canvas k in
  match frameRateTimer c with
  | Some t =>
      if active t && negb (pending t)
      then Some (mkConfig (set_frameRateTimer c (Some (mkTicker true true))) (qpc k) (gpc k))
      else None
  | None => None
  end.

(** The surroundings: the event loop locks and unlocks [c.lock] around
    the dispatch of an event. *)
Definition events (k : config) : option config :=
  let c := canvas k in
  match lock c with
  | None => Some (mkConfig (set_lock c (Some Events)) (qpc k) (gpc k))
  | Some Events => Some (mkConfig (set_lock c None) (qpc k) (gpc k))
  | Some Tick => None
  end.

Definition step (k k' : config) : Prop :=
  Quit k = Some k' \/ gameLoop k = Some k' \/ tick k = Some k' \/ events k = Some k'.

Inductive reachable (k : config) : config -> Prop :=
| reachable_refl : reachable k k
| reachable_step k1 k2 : reachable k k1 -> step k1 k2 -> reachable k k2.

(** A new call of [Quit]. *)
Definition call_Quit (k : config) : config := mkConfig (canvas k) Q_if (gpc k).

(** [Quit] is called while the game loop [start] launched is inside its
    [for] statement: the ticker exists and runs, the wait group counts the
    one goroutine, and [c.lock] is the game loop's exactly between its
    [Lock] and its [Unlock]. *)
Definition in_loop (g : loop_pc) : bool :=
  match g with
  | G_for | G_select | G_lock | G_body | G_unlock => true
  | _ => false
  end.

Definition holds_lock (g : loop_pc) : bool :=
  match g with
  | G_body | G_unlock => true
  | _ => false
  end.

Definition lock_eqb (a b : option owner) : bool :=
  match a, b with
  | None, None | Some Events, Some Events | Some Tick, Some Tick => true
  | _, _ => false
  end.

Definition launched (k : config) : bool :=
  runState_eqb (state (canvas k)) running
  && match qpc k with Q_if => true | _ => false end
  && in_loop (gpc k)
  && match frameRateTimer (canvas k) with Some t => active t | None => false end
  && (glwg (canvas k) =? 1)
  && eqb (holds_lock (gpc k)) (lock_eqb (lock (canvas k)) (Some Tick)).


(** *** What holds while [Quit] runs

    The state, the ticker and the game loop at each statement of [Quit]. *)
Definition state_at (q : quit_pc) : runState :=
  match q with
  | Q_if | Q_terminating => running
  | Q_stop | Q_send | Q_wait | Q_stopped => terminating
  | Q_return | Q_panic => stopped
  end.

Definition ticking_at (q : quit_pc) : bool :=
  match q with
  | Q_if | Q_terminating | Q_stop => true
  | _ => false
  end.

Definition left_loop (g : loop_pc) (n : Z) : bool :=
  (loop_pc_eqb g G_done && (n =? 1)) || (loop_pc_eqb g G_exit && (n =? 0)).

Definition loop_at (q : quit_pc) (g : loop_pc) (n : Z) : bool :=
  match q with
  | Q_if | Q_terminating => in_loop g && (n =? 1)
  | Q_stop | Q_send => (in_loop g && (n =? 1)) || left_loop g n
  | Q_wait => left_loop g n
  | Q_stopped | Q_return => loop_pc_eqb g G_exit && (n =? 0)
  | Q_panic => false
  end.

Definition inv (k0 k : config) : Prop :=
  Window (canvas k) = Window (canvas k0)
  /\ renderer (canvas k) = renderer (canvas k0)
  /\ handler (canvas k) = handler (canvas k0)
  /\ state (canvas k) = state_at (qpc k)
  /\ (exists t : Ticker,
         frameRateTimer (canvas k) = Some t /\ active t = ticking_at (qpc k))
  /\ loop_at (qpc k) (gpc k) (glwg (canvas k)) = true.

(** Schedules: who takes the next step. *)
Inductive actor : Type := quit | loop | ticker | event_loop.

Definition act (a : actor) : config -> option config :=
  match a with
  | quit => Quit
  | loop => gameLoop
  | ticker => tick
  | event_loop => events
  end.

Fixpoint run (sched : list actor) (k : config) : option config :=
  match sched with
  | [] => Some k
  | a :: sched' =>
      match act a k with
      | Some k' => run sched' k'
      | None => None
      end
  end.

(** Steps of the program itself, not of its surroundings. *)
Definition program (a : actor) : bool :=
  match a with
  | quit | loop => true
  | ticker | event_loop => false
  end.

(** The schedule that lets the game loop reach its [select], [Quit] run
    up to its send, the game loop take the signal and leave, and [Quit]
    finish. *)
Definition to_select (g : loop_pc) : list actor :=
  match g with
  | G_lock => [loop; loop; loop; loop]
  | G_body => [loop; loop; loop]
  | G_unlock => [loop; loop]
  | G_for => [loop]
  | _ => []
  end.

Definition handshake : list actor := [quit; quit; quit; quit; loop; quit; quit].

(** The game loop waits in its [select] when [Quit] is called. *)
Definition waiting : config :=
  mkConfig (mkCanvas 1 running 2 3 1 (Some (mkTicker true false)) None) Q_if G_select.

End Canvas.


(** * Definitions for the properties *)

(** The layout the specification gives for the projection matrix. *)
Definition projection_layout (width height fovDegrees near far : float64) : Matrix4X4 :=
  let f := 1 / tan (fovDegrees * PI / 360) in
  lit [ [(height / width) * f; 0; 0; 0];
        [0; f; 0; 0];
        [0; 0; far / (far - near); - (far * near) / (far - near)];
        [0; 0; 1; 0] ].

(** The forward component as the specification describes it: the [pos.Y]
    term on [newForward.X], the other two terms on matching axes. *)
Definition forward_translation_as_described (pos newForward : Vector) : float64 :=
  - (Vector.x pos * Vector.x newForward
     + Vector.y pos * Vector.x newForward
     + Vector.z pos * Vector.z newForward).

(** The camera at [(0,0,1)] looking along the y axis. *)
Definition eye : Vector := Vector.mk 0 0 1 1.
Definition along_y : Vector := Vector.mk 0 1 1 1.
Definition z_up : Vector := Vector.mk 0 0 1 1.

(** Everything [h] holds, [h'] holds at the same address. *)
Definition unchanged (h h' : Heap) : Prop :=
  (forall (p : ptr) (v : Vector), get_Vector p h = Done v h -> get_Vector p h' = Done v h')
  /\ (forall (p : ptr) (T : Triangle),
        get_Triangle p h = Done T h -> get_Triangle p h' = Done T h').

(** A store with one triangle, on the vertices [(0,0,0)], [(1,0,0)],
    [(0,1,0)], and a vector for the screen direction [(0,0,-1)]. *)
Definition unit_triangle : Triangle :=
  mkTriangle (Some 0%nat) (Some 1%nat) (Some 2%nat) (Some 3%nat) 0 0 4294967295.

Definition unit_store : Heap :=
  mkHeap [Vector.mk 0 0 0 1; Vector.mk 1 0 0 1; Vector.mk 0 1 0 1;
          Vector.mk 0 0 0 1; Vector.mk 0 0 (-1) 0]
         [unit_triangle].

(** The value of a string of decimal digits read after [n]; [None] when a
    byte is no digit. *)
Fixpoint decimal_from (s : string) (n : Z) : option Z :=
  match s with
  | EmptyString => Some n
  | String c s' =>
      if strconv.isDigit c then decimal_from s' (n * 10 + strconv.digit c)%Z else None
  end.

(** The value of a nonempty string of decimal digits. *)
Definition decimal (s : string) : option Z :=
  match s with
  | EmptyString => None
  | _ => decimal_from s 0%Z
  end.

(** The formats of the errors [parseFaceColor] returns for a channel. *)
Definition channel_errors : list string :=
  ["bad r in line %d: %s"; "bad g in line %d: %s";
   "bad b in line %d: %s"; "bad a in line %d: %s"]%string.

(** The product of the matrix [m] and the column [(x, y, z, w)] of [v],
    written out entry by entry. *)
Definition times (m : Matrix4X4) (v : Vector) : Vector :=
  Vector.mk
    (m.[0,0] * Vector.x v + m.[0,1] * Vector.y v + m.[0,2] * Vector.z v + m.[0,3] * Vector.w v)
    (m.[1,0] * Vector.x v + m.[1,1] * Vector.y v + m.[1,2] * Vector.z v + m.[1,3] * Vector.w v)
    (m.[2,0] * Vector.x v + m.[2,1] * Vector.y v + m.[2,2] * Vector.z v + m.[2,3] * Vector.w v)
    (m.[3,0] * Vector.x v + m.[3,1] * Vector.y v + m.[3,2] * Vector.z v + m.[3,3] * Vector.w v).

(** A field of a line: one byte or more, each of them an ASCII character
    other than white space. *)
Definition field_byte (c : ascii) : bool :=
  negb (strings.asciiSpace c) && (nat_of_ascii c <? 128)%nat.

Fixpoint no_space (s : string) : bool :=
  match s with
  | EmptyString => true
  | String c s' => field_byte c && no_space s'
  end.

Definition is_field (s : string) : bool :=
  match s with
  | EmptyString => false
  | _ => no_space s
  end.

(** The fields [fs] parted by one space. *)
Fixpoint join (fs : list string) : string :=
  match fs with
  | [] => EmptyString
  | f :: fs' =>
      match fs' with
      | [] => f
      | _ => (f ++ " " ++ join fs')%string
      end
  end.

(** [l] is the vertex line ["v x y z"] or ["v x y z w"], its fields parted
    by one space, and [v] is the vertex it declares: the coordinates are
    what [ParseFloat] reads in the fields, and [w] is 1 when the line has
    no fourth field. *)
Definition vertex_declared (ParseFloat : string -> option float64) (l : string) (v : Vector)
  : Prop :=
  exists fx fy fz : string,
    is_field fx = true /\ is_field fy = true /\ is_field fz = true
    /\ ParseFloat fx = Some (Vector.x v)
    /\ ParseFloat fy = Some (Vector.y v)
    /\ ParseFloat fz = Some (Vector.z v)
    /\ ((l = ("v " ++ fx ++ " " ++ fy ++ " " ++ fz)%string /\ Vector.w v = 1)
        \/ exists fw : string,
            is_field fw = true
            /\ ParseFloat fw = Some (Vector.w v)
            /\ l = ("v " ++ fx ++ " " ++ fy ++ " " ++ fz ++ " " ++ fw)%string).

(** [l] is the face line ["f a b c"], its fields the decimal numerals of
    [a], [b] and [c]. *)
Definition face_declared (l : string) (a b c : Z) : Prop :=
  exists fa fb fc : string,
    decimal fa = Some a /\ decimal fb = Some b /\ decimal fc = Some c
    /\ l = ("f " ++ fa ++ " " ++ fb ++ " " ++ fc)%string.

(** [l] is a ["v "] line whose fields parse to the vector [v]. *)
Definition vertex_line (ParseFloat : string -> option float64) (l : string) (v : Vector)
  : Prop :=
  exists body : string,
    l = ("v " ++ body)%string
    /\ forall lineCnt : Z,
         Object.parseVector_fields ParseFloat (" " ++ body)%string lineCnt = inl v.

(** [l] is an ["f "] line whose fields parse to the indices [a], [b], [c]. *)
Definition face_line (l : string) (a b c : Z) : Prop :=
  exists body : string,
    l = ("f " ++ body)%string
    /\ forall lineCnt : Z,
         Object.parseFace_fields (" " ++ body)%string lineCnt = inl (a, b, c).

(** The five lines of the scenario. *)
Definition scenario : list string :=
  ["v 0 0 0"; "v 1 0 0"; "v 0 1 0"; "f 1 2 3"; "xc 1 255 0 0"]%string.

(** A [ParseFloat] that reads the unsigned decimal integers, and nothing
    else. *)
Definition ParseFloat_of_digits (s : string) : option float64 :=
  match decimal s with
  | Some n => Some (IZR n)
  | None => None
  end.

(** What [t.vs[i].z = t.vs[i].w] of [Normal] leaves in a vertex. *)
Definition flatten (v : Vector) : Vector := Vector.SetZ v (Vector.w v).

(** A line the loop of [LoadObject] reads and does nothing with: an empty
    line, or a line of two bytes or more that starts with none of ["v "],
    ["f "] and ["xc"]. *)
Definition passed_over (line : string) : bool :=
  (String.length line =? 0)%nat
  || ((2 <=? String.length line)%nat
      && negb (String.eqb (strings.upto 2 line) "v ")
      && negb (String.eqb (strings.upto 2 line) "f ")
      && negb (String.eqb (strings.upto 2 line) "xc")).

(** The number of lines that start with [tag]. *)
Definition tag_count (tag : string) (lines : list string) : nat :=
  length (List.filter (fun line => String.eqb (strings.upto 2 line) tag) lines).

(** The line number an error of the loader carries: the argument of the
    [%d] that follows ["line"] in its format. *)
Definition lineCnt_of (e : error) : option Z :=
  match args e with
  | [Int n; Str _] => Some n
  | [Int _; Int n; Int _; Str _] => Some n
  | _ => None
  end.

(** The triangle at [t] and its three vertices are in the store; its
    normal is, too. *)
Definition loaded (h : Heap) (t : ptr) : Prop :=
  exists (T : Triangle) (a b c : Vector),
    get_Triangle t h = Done T h
    /\ get_Vector (vs0 T) h = Done a h
    /\ get_Vector (vs1 T) h = Done b h
    /\ get_Vector (vs2 T) h = Done c h.

Definition complete (h : Heap) (t : ptr) : Prop :=
  loaded h t
  /\ exists (T : Triangle) (n : Vector),
      get_Triangle t h = Done T h /\ get_Vector (normal T) h = Done n h.

(** The triangle at [t'] in [h'] is a copy of the triangle at [t] in [h]
    with [f] applied to its vertices: the normal has the same value, the
    color is the same, and both incidences are zero. *)
Definition image (f : Vector -> Vector) (h h' : Heap) (t t' : ptr) : Prop :=
  exists (T T' : Triangle) (a b c n : Vector),
    get_Triangle t h = Done T h
    /\ get_Vector (vs0 T) h = Done a h
    /\ get_Vector (vs1 T) h = Done b h
    /\ get_Vector (vs2 T) h = Done c h
    /\ get_Vector (normal T) h = Done n h
    /\ get_Triangle t' h' = Done T' h'
    /\ get_Vector (vs0 T') h' = Done (f a) h'
    /\ get_Vector (vs1 T') h' = Done (f b) h'
    /\ get_Vector (vs2 T') h' = Done (f c) h'
    /\ get_Vector (normal T') h' = Done n h'
    /\ normalI T' = 0
    /\ incident T' = 0
    /\ color T' = color T.

(** An object of one triangle, the one of [unit_store]. *)
Definition unit_object : Object.Object := Object.mk [Some 0%nat] None.

(** The run in which the game loop misses the signal of [Quit]: the game
    loop is brought to the test of its [for] statement (with a tick of the
    ticker and the event loop giving up [c.lock] where it needs them),
    [Quit] assigns [terminating], the game loop tests its condition and
    leaves, and [Quit] goes on to its send. *)
Definition to_for (k : Canvas.config) : list Canvas.actor :=
  let release :=
    match Canvas.lock (Canvas.canvas k) with
    | Some Canvas.Events => [Canvas.event_loop]
    | _ => []
    end in
  let fire :=
    match Canvas.frameRateTimer (Canvas.canvas k) with
    | Some t => if Canvas.pending t then [] else [Canvas.ticker]
    | None => []
    end in
  match Canvas.gpc k with
  | Canvas.G_select =>
      fire ++ [Canvas.loop] ++ release ++ [Canvas.loop; Canvas.loop; Canvas.loop]
  | Canvas.G_lock => release ++ [Canvas.loop; Canvas.loop; Canvas.loop]
  | Canvas.G_body => [Canvas.loop; Canvas.loop]
  | Canvas.G_unlock => [Canvas.loop]
  | _ => []
  end.

Definition missed : list Canvas.actor :=
  [Canvas.quit; Canvas.quit; Canvas.loop; Canvas.loop; Canvas.quit].

(** [Quit] waits at its send and the game loop is over. *)
Definition stuck (k : Canvas.config) : Prop :=
  Canvas.qpc k = Canvas.Q_send
  /\ Canvas.gpc k = Canvas.G_exit
  /\ Canvas.state (Canvas.canvas k) = Canvas.terminating
  /\ exists t : Canvas.Ticker,
      Canvas.frameRateTimer (Canvas.canvas k) = Some t /\ Canvas.active t = false.

(** [Quit] is over with a panic, in state [terminating]. *)
Definition panicked (k : Canvas.config) : Prop :=
  Canvas.qpc k = Canvas.Q_panic
  /\ Canvas.state (Canvas.canvas k) = Canvas.terminating.

(** The handler's [Init] calls [Quit]: [start] has assigned [running], the
    game loop is not launched yet, the ticker is nil and the wait group
    at zero. *)
Definition in_Init : Canvas.config :=
  Canvas.mkConfig (Canvas.mkCanvas 1 Canvas.running 2 3 0 None None)
                  Canvas.Q_if Canvas.G_new.

(** The options core.go provides. *)
Inductive provided (k : sdl.constants) : Config.ConfigOption -> Prop :=
| provided_Framerate (fr : Z) : provided k (Config.Framerate fr)
| provided_RendererFlags (flags : Z) : provided k (Config.RendererFlags k flags)
| provided_WindowPosition (x y : Z) : provided k (Config.WindowPosition x y)
| provided_WindowFlags (flags : Z) : provided k (Config.WindowFlags k flags).

(** The values the headers of SDL 2 give the constants. *)
Definition SDL2 : sdl.constants :=
  sdl.mkConstants 536805376 1 2 4 8 1 4097 2 268435456 8 16 32 64 128 256 8192.

(** * Properties *)

(** ** Matrices *)

Lemma Multiply_entry (m m1 : Matrix4X4) (r c : nat) :
  (r < 4)%nat -> (c < 4)%nat ->
  Matrix.Multiply m m1 r c
  = m r 0%nat * m1 0%nat c + m r 1%nat * m1 1%nat c
    + m r 2%nat * m1 2%nat c + m r 3%nat * m1 3%nat c.
Proof.
  intros Hr Hc.
  destruct r as [|[|[|[|r]]]]; try lia;
    destruct c as [|[|[|[|c]]]]; try lia; reflexivity.
Qed.

Lemma Multiply_outside (m m1 : Matrix4X4) (r c : nat) :
  (4 <= r)%nat \/ (4 <= c)%nat -> Matrix.Multiply m m1 r c = 0.
Proof.
  intros H.
  destruct r as [|[|[|[|r]]]]; destruct c as [|[|[|[|c]]]];
    try (exfalso; lia); cbv [Matrix.Multiply fold_left seq set Nat.eqb andb lit nth];
    try reflexivity; destruct c; reflexivity.
Qed.

Ltac entries :=
  let r := fresh "r" in
  let c := fresh "c" in
  let Hr := fresh "Hr" in
  let Hc := fresh "Hc" in
  intros r c Hr Hc;
  destruct r as [|[|[|[|r]]]]; try lia;
  destruct c as [|[|[|[|c]]]]; try lia;
  clear Hr Hc.

(** C8.  The fused rotation is the chained product: for all angles,
    [RotateXYZ(x, y, z)] and [RotateZ(z).Multiply(RotateY(y)).Multiply(RotateX(x))]
    have the same sixteen entries (and so has the product bracketed the
    other way), over exact arithmetic on the same sines and cosines. *)
Theorem RotateXYZ_is_RotateZ_RotateY_RotateX (x y z : float64) :
  meq (Matrix.RotateXYZ x y z)
      (Matrix.Multiply (Matrix.Multiply (Matrix.RotateZ z) (Matrix.RotateY y))
                       (Matrix.RotateX x))
  /\ meq (Matrix.RotateXYZ x y z)
         (Matrix.Multiply (Matrix.RotateZ z)
                          (Matrix.Multiply (Matrix.RotateY y) (Matrix.RotateX x))).
Proof.
  split; entries;
    rewrite !Multiply_entry by lia;
    cbv [Matrix.RotateXYZ Matrix.RotateX Matrix.RotateY Matrix.RotateZ lit nth];
    ring.
Qed.

Lemma RotateXYZ_is_RotateZ_RotateY_RotateX_witness :
  Matrix.RotateXYZ 1 2 3 0%nat 1%nat
  = Matrix.Multiply (Matrix.Multiply (Matrix.RotateZ 3) (Matrix.RotateY 2))
                    (Matrix.RotateX 1) 0%nat 1%nat.
Proof.
  apply (proj1 (RotateXYZ_is_RotateZ_RotateY_RotateX 1 2 3)); lia.
Defined.

(** C7.  For all arguments [Projection] returns the matrix with rows
    [(height/width)*f, 0, 0, 0], [0, f, 0, 0],
    [0, 0, far/(far-near), -far*near/(far-near)] and [0, 0, 1, 0], where
    [f = 1/tan(fovDegrees*pi/360)]; and the [w] of any vector multiplied by
    it is the [z] of that vector. *)
Theorem Projection_layout_and_w (width height fovDegrees near far : float64) :
  Matrix.Projection width height fovDegrees near far
  = projection_layout width height fovDegrees near far
  /\ forall v : Vector,
       Vector.w (Vector.MatrixMultiply v (Matrix.Projection width height fovDegrees near far))
       = Vector.z v.
Proof.
  split.
  - unfold Matrix.Projection, projection_layout.
    replace (fovDegrees / 360 * PI) with (fovDegrees * PI / 360) by lra.
    replace (- far * near / (far - near)) with (- (far * near) / (far - near))
      by (f_equal; lra).
    reflexivity.
  - intros v. cbv [Vector.MatrixMultiply Vector.w Matrix.Projection lit nth]. ring.
Qed.

(** C4.  [Divide] is total: by a divisor other than zero it divides [x],
    [y] and [z] and stores the divisor in [w]; by zero it divides by 1, so
    [x], [y], [z] are those of the receiver and [w] is 1. *)
Theorem Divide_spec (v : Vector) (l : float64) :
  (l <> 0 ->
   Vector.Divide v l = Vector.mk (Vector.x v / l) (Vector.y v / l) (Vector.z v / l) l)
  /\ (l = 0 ->
      Vector.Divide v l = Vector.mk (Vector.x v) (Vector.y v) (Vector.z v) 1).
Proof.
  unfold Vector.Divide, float_eq. split; intros H.
  - destruct (Req_dec_T l 0) as [E | _]; [contradiction | reflexivity].
  - destruct (Req_dec_T l 0) as [_ | N]; [| contradiction].
    f_equal; field.
Qed.

Lemma Divide_spec_witness :
  Vector.Divide (Vector.mk 4 6 8 2) 2 = Vector.mk (4 / 2) (6 / 2) (8 / 2) 2
  /\ Vector.Divide (Vector.mk 4 6 8 0) 0 = Vector.mk 4 6 8 1.
Proof.
  split.
  - apply (proj1 (Divide_spec (Vector.mk 4 6 8 2) 2)). lra.
  - apply (proj2 (Divide_spec (Vector.mk 4 6 8 0) 0)). reflexivity.
Defined.

(** ** The translation row of [LookAtMatrix] *)

Lemma sqrt_of_one (a : R) : a = 1 -> sqrt a = 1.
Proof. intros ->. apply sqrt_1. Qed.

Lemma newForward_along_y : Matrix.newForward eye along_y = Vector.mk 0 1 0 1.
Proof.
  unfold Matrix.newForward, Vector.Normalize, Vector.Length, Vector.DotProduct,
    Vector.Subtract, eye, along_y; simpl.
  rewrite sqrt_of_one by lra.
  f_equal; lra.
Qed.

(** C3, as stated, fails: with the camera at [(0,0,1)] looking along the
    y axis the forward component is [-1], where the formula of the
    specification (and the dot product too) gives [0]. *)
Lemma LookAtMatrix_forward_not_as_described :
  (Matrix.LookAtMatrix eye along_y z_up) 3%nat 2%nat
  <> forward_translation_as_described eye (Matrix.newForward eye along_y).
Proof.
  cbv [Matrix.LookAtMatrix lit nth forward_translation_as_described].
  rewrite newForward_along_y. simpl. lra.
Qed.

(** C3, amended.  In the last row of [LookAtMatrix] the first two
    components are [-(pos . newRight)] and [-(pos . newUp)]; in the third
    the [pos.Z] term is on [newForward.Y] instead of [newForward.Z], the
    other two terms on matching axes, so that it is [-(pos . newForward)]
    plus [pos.Z * (newForward.Z - newForward.Y)]. *)
Theorem LookAtMatrix_translation_row (pos target up : Vector) :
  let m := Matrix.LookAtMatrix pos target up in
  let f := Matrix.newForward pos target in
  m 3%nat 0%nat = - Vector.DotProduct pos (Matrix.newRight pos target up)
  /\ m 3%nat 1%nat = - Vector.DotProduct pos (Matrix.newUp pos target up)
  /\ m 3%nat 2%nat
     = - (Vector.x pos * Vector.x f + Vector.y pos * Vector.y f + Vector.z pos * Vector.y f)
  /\ m 3%nat 2%nat
     = - Vector.DotProduct pos f + Vector.z pos * (Vector.z f - Vector.y f)
  /\ m 3%nat 3%nat = 1.
Proof.
  cbv [Matrix.LookAtMatrix lit nth Vector.DotProduct].
  repeat split; try reflexivity. ring.
Qed.

(** ** Vectors: the cross product *)

(** X2.  Swapping the operands of [CrossProduct] negates [x], [y] and [z]
    of the result, and [w] of the result is that of the receiver. *)
Theorem CrossProduct_swapped_is_negated (v v1 : Vector) :
  Vector.x (Vector.CrossProduct v1 v) = - Vector.x (Vector.CrossProduct v v1)
  /\ Vector.y (Vector.CrossProduct v1 v) = - Vector.y (Vector.CrossProduct v v1)
  /\ Vector.z (Vector.CrossProduct v1 v) = - Vector.z (Vector.CrossProduct v v1)
  /\ Vector.w (Vector.CrossProduct v v1) = Vector.w v
  /\ Vector.w (Vector.CrossProduct v1 v) = Vector.w v1.
Proof.
  destruct v as [a b c d], v1 as [a1 b1 c1 d1].
  unfold Vector.CrossProduct. cbn [Vector.x Vector.y Vector.z Vector.w].
  repeat split; ring.
Qed.

(** ** Matrices: the identity *)

(** X5.  [Identity] is neutral for [Multiply] on both sides, multiplying a
    vector by [Identity] gives the vector back, and [NewInstance] is a
    copy with the same sixteen entries. *)
Theorem Identity_is_neutral (a : Matrix4X4) (v : Vector) :
  meq (Matrix.Multiply Matrix.Identity a) a
  /\ meq (Matrix.Multiply a Matrix.Identity) a
  /\ Vector.MatrixMultiply v Matrix.Identity = v
  /\ meq (Matrix.NewInstance a) a.
Proof.
  split; [|split; [|split]].
  - entries; rewrite !Multiply_entry by lia; cbv [Matrix.Identity lit nth]; ring.
  - entries; rewrite !Multiply_entry by lia; cbv [Matrix.Identity lit nth]; ring.
  - destruct v as [x y z w].
    cbv [Vector.MatrixMultiply Matrix.Identity lit nth Vector.x Vector.y Vector.z Vector.w].
    f_equal; ring.
  - entries; reflexivity.
Qed.

(** ** Rotations *)

(** X7.  The rotation by the angle 0 is the identity: about each axis, and
    about the three of them at once. *)
Theorem Rotate_by_zero_is_Identity :
  meq (Matrix.RotateX 0) Matrix.Identity
  /\ meq (Matrix.RotateY 0) Matrix.Identity
  /\ meq (Matrix.RotateZ 0) Matrix.Identity
  /\ meq (Matrix.RotateXYZ 0 0 0) Matrix.Identity.
Proof.
  split; [|split; [|split]].
  - entries; cbv [Matrix.RotateX Matrix.Identity lit nth];
      rewrite ?sin_0, ?cos_0; ring.
  - entries; cbv [Matrix.RotateY Matrix.Identity lit nth];
      rewrite ?sin_0, ?cos_0; ring.
  - entries; cbv [Matrix.RotateZ Matrix.Identity lit nth];
      rewrite ?sin_0, ?cos_0; ring.
  - entries; cbv [Matrix.RotateXYZ Matrix.Identity lit nth];
      rewrite ?sin_0, ?cos_0; ring.
Qed.

(** ** Translations, scalings and [InvertXYZ] *)

(** X8.  [TranslateXYZ] moves a vector by [w] times the offset: a point
    ([w = 1]) by the offset, a direction ([w = 0]) not at all; [ScaleXYZ]
    multiplies [x], [y] and [z] by its factors and keeps [w].  Two
    translations are the translation by the sum of the offsets, two
    scalings the scaling by the products of the factors.  [TranslateX],
    [TranslateY] and [TranslateZ], which read one of their arguments
    only, multiply to [TranslateXYZ], and [ScaleX], [ScaleY] and [ScaleZ]
    to [ScaleXYZ]. *)
Theorem TranslateXYZ_and_ScaleXYZ_act_per_axis (v : Vector) (x y z x' y' z' : float64) :
  (Vector.MatrixMultiply v (Matrix.TranslateXYZ x y z)
   = Vector.mk (Vector.x v + Vector.w v * x) (Vector.y v + Vector.w v * y)
               (Vector.z v + Vector.w v * z) (Vector.w v)
   /\ meq (Matrix.Multiply (Matrix.TranslateXYZ x y z) (Matrix.TranslateXYZ x' y' z'))
          (Matrix.TranslateXYZ (x + x') (y + y') (z + z'))
   /\ meq (Matrix.Multiply (Matrix.TranslateX x y' z')
             (Matrix.Multiply (Matrix.TranslateY x' y z') (Matrix.TranslateZ z)))
          (Matrix.TranslateXYZ x y z))
  /\ (Vector.MatrixMultiply v (Matrix.ScaleXYZ x y z)
      = Vector.mk (Vector.x v * x) (Vector.y v * y) (Vector.z v * z) (Vector.w v)
      /\ meq (Matrix.Multiply (Matrix.ScaleXYZ x y z) (Matrix.ScaleXYZ x' y' z'))
             (Matrix.ScaleXYZ (x * x') (y * y') (z * z'))
      /\ meq (Matrix.Multiply (Matrix.ScaleX x)
                (Matrix.Multiply (Matrix.ScaleY y) (Matrix.ScaleZ z)))
             (Matrix.ScaleXYZ x y z)).
Proof.
  split; (split; [|split]).
  - cbv [Vector.MatrixMultiply Matrix.TranslateXYZ lit nth]. f_equal; ring.
  - entries; rewrite !Multiply_entry by lia; cbv [Matrix.TranslateXYZ lit nth]; ring.
  - entries; rewrite !Multiply_entry by lia;
      cbv [Matrix.TranslateXYZ Matrix.TranslateX Matrix.TranslateY Matrix.TranslateZ
           lit nth]; ring.
  - cbv [Vector.MatrixMultiply Matrix.ScaleXYZ lit nth]. f_equal; ring.
  - entries; rewrite !Multiply_entry by lia; cbv [Matrix.ScaleXYZ lit nth]; ring.
  - entries; rewrite !Multiply_entry by lia;
      cbv [Matrix.ScaleXYZ Matrix.ScaleX Matrix.ScaleY Matrix.ScaleZ lit nth]; ring.
Qed.

(** X9.  [InvertXYZ] negates the coordinates it is asked to negate, and
    it adds the [x] of the vector to its [z] and to its [w]: with no
    coordinate to negate it is not the identity. *)
Theorem InvertXYZ_adds_x_to_z_and_w (v : Vector) (x y z : bool) :
  Vector.MatrixMultiply v (Matrix.InvertXYZ x y z)
  = Vector.mk (if x then - Vector.x v else Vector.x v)
              (if y then - Vector.y v else Vector.y v)
              (Vector.x v + (if z then - Vector.z v else Vector.z v))
              (Vector.x v + Vector.w v)
  /\ ~ meq (Matrix.InvertXYZ false false false) Matrix.Identity.
Proof.
  split.
  - destruct x, y, z;
      cbv [Vector.MatrixMultiply Matrix.InvertXYZ lit nth set Nat.eqb andb];
      f_equal; ring.
  - intros H. specialize (H 2%nat 0%nat ltac:(lia) ltac:(lia)).
    cbv [Matrix.InvertXYZ Matrix.Identity lit nth] in H. lra.
Qed.

(** ** The camera matrices [PointAt] and [LookAtMatrix] *)

(** X10.  The upper left 3x3 block of [LookAtMatrix] is that of [PointAt]
    transposed; the last column of both is [0, 0, 0, 1], and the last row
    of [PointAt] is the position followed by 1. *)
Theorem LookAtMatrix_transposes_PointAt (pos target up : Vector) :
  (forall i j : nat, (i < 3)%nat -> (j < 3)%nat ->
      Matrix.LookAtMatrix pos target up i j = Matrix.PointAt pos target up j i)
  /\ (forall i : nat, (i < 3)%nat ->
         Matrix.LookAtMatrix pos target up i 3%nat = 0
         /\ Matrix.PointAt pos target up i 3%nat = 0)
  /\ Matrix.LookAtMatrix pos target up 3%nat 3%nat = 1
  /\ Matrix.PointAt pos target up 3%nat 3%nat = 1
  /\ Matrix.PointAt pos target up 3%nat 0%nat = Vector.x pos
  /\ Matrix.PointAt pos target up 3%nat 1%nat = Vector.y pos
  /\ Matrix.PointAt pos target up 3%nat 2%nat = Vector.z pos.
Proof.
  split; [|split].
  - intros i j Hi Hj.
    destruct i as [|[|[|i]]]; try lia; destruct j as [|[|[|j]]]; try lia; reflexivity.
  - intros i Hi. destruct i as [|[|[|i]]]; try lia; split; reflexivity.
  - repeat split.
Qed.

Lemma LookAtMatrix_transposes_PointAt_witness :
  Matrix.LookAtMatrix eye along_y z_up 0%nat 2%nat = Matrix.PointAt eye along_y z_up 2%nat 0%nat.
Proof.
  apply (proj1 (LookAtMatrix_transposes_PointAt eye along_y z_up)); lia.
Defined.

(** ** [FMap] *)

(** X11.  [FMap] takes the lower end of a source range that is not empty
    to the lower end of the destination range, and it keeps the order of
    the values when both ranges run upwards. *)
Theorem FMap_is_monotone (value value' srcMin srcMax destMin destMax : float64) :
  (srcMin <> srcMax -> FMap srcMin srcMin srcMax destMin destMax = destMin)
  /\ (srcMin < srcMax -> destMin <= destMax -> value <= value' ->
      FMap value srcMin srcMax destMin destMax <= FMap value' srcMin srcMax destMin destMax).
Proof.
  unfold FMap. split.
  - intros Hs. field. lra.
  - intros Hs Hd Hv. apply Rplus_le_compat_r. unfold Rdiv.
    apply Rmult_le_compat_r; [left; apply Rinv_0_lt_compat; lra|].
    apply Rmult_le_compat_r; lra.
Qed.

Lemma FMap_is_monotone_witness :
  FMap 0 0 10 0 100 = 0 /\ FMap 2 0 10 0 100 <= FMap 5 0 10 0 100.
Proof.
  destruct (FMap_is_monotone 2 5 0 10 0 100) as [Low Order].
  split; [apply Low; lra | apply Order; lra].
Defined.

(** ** The store *)

Lemma get_Vector_inv (p : ptr) (h h' : Heap) (v : Vector) :
  get_Vector p h = Done v h' ->
  h' = h /\ exists a : nat, p = Some a /\ vectors h !! a = Some v.
Proof.
  unfold get_Vector. destruct p as [a|]; [|discriminate].
  destruct (vectors h !! a) as [v'|] eqn:E; [|discriminate].
  intros [= -> ->]. eauto.
Qed.

Lemma get_Triangle_inv (p : ptr) (h h' : Heap) (T : Triangle) :
  get_Triangle p h = Done T h' ->
  h' = h /\ exists a : nat, p = Some a /\ triangles h !! a = Some T.
Proof.
  unfold get_Triangle. destruct p as [a|]; [|discriminate].
  destruct (triangles h !! a) as [T'|] eqn:E; [|discriminate].
  intros [= -> ->]. eauto.
Qed.

Lemma get_Vector_lookup (a : nat) (h : Heap) (v : Vector) :
  vectors h !! a = Some v -> get_Vector (Some a) h = Done v h.
Proof. intros E. unfold get_Vector. rewrite E. reflexivity. Qed.

Lemma get_Triangle_lookup (a : nat) (h : Heap) (T : Triangle) :
  triangles h !! a = Some T -> get_Triangle (Some a) h = Done T h.
Proof. intros E. unfold get_Triangle. rewrite E. reflexivity. Qed.

(** A store that grew at the end holds what it held. *)
Lemma unchanged_app (h : Heap) (vs : list Vector) (ts : list Triangle) :
  unchanged h (mkHeap (vectors h ++ vs) (triangles h ++ ts)).
Proof.
  split.
  - intros p v H. apply get_Vector_inv in H as (_ & a & -> & E).
    apply get_Vector_lookup. simpl. rewrite lookup_app_l; [exact E|].
    eapply lookup_lt_Some; exact E.
  - intros p T H. apply get_Triangle_inv in H as (_ & a & -> & E).
    apply get_Triangle_lookup. simpl. rewrite lookup_app_l; [exact E|].
    eapply lookup_lt_Some; exact E.
Qed.

Lemma bind_Done {A B : Type} (m : M A) (k : A -> M B) (h h' : Heap) (a : A) :
  m h = Done a h' -> bind m k h = k a h'.
Proof. intros E. unfold bind. rewrite E. reflexivity. Qed.

(** Reading the store just behind what [h] held. *)
Lemma lookup_behind {A : Type} (l l' : list A) (i : nat) :
  (l ++ l') !! (length l + i)%nat = l' !! i.
Proof. rewrite lookup_app_r by lia. f_equal. lia. Qed.

Lemma lookup_first_behind {A : Type} (l l' : list A) :
  (l ++ l') !! length l = l' !! 0%nat.
Proof. rewrite <- (lookup_behind l l' 0). f_equal. lia. Qed.

Lemma lookup_second_behind {A : Type} (l l' : list A) :
  (l ++ l') !! S (length l) = l' !! 1%nat.
Proof. rewrite <- (lookup_behind l l' 1). f_equal. lia. Qed.

Lemma lookup_third_behind {A : Type} (l l' : list A) :
  (l ++ l') !! S (S (length l)) = l' !! 2%nat.
Proof. rewrite <- (lookup_behind l l' 2). f_equal. lia. Qed.

(** [t.vs[i].MatrixMultiply(m)], [t.vs[i].Add(offset)]: the result is
    behind everything the store held. *)
Lemma MatrixMultiply_at_Done (p : ptr) (m : Matrix4X4) (v : Vector)
      (vs : list Vector) (ts : list Triangle) :
  get_Vector p (mkHeap vs ts) = Done v (mkHeap vs ts) ->
  Triangle.MatrixMultiply_at p m (mkHeap vs ts)
  = Done (Some (length vs)) (mkHeap (vs ++ [Vector.MatrixMultiply v m]) ts).
Proof.
  intros H. unfold Triangle.MatrixMultiply_at.
  rewrite (bind_Done _ _ _ _ _ H). reflexivity.
Qed.

Lemma Add_at_Done (p : ptr) (o v : Vector) (vs : list Vector) (ts : list Triangle) :
  get_Vector p (mkHeap vs ts) = Done v (mkHeap vs ts) ->
  Triangle.Add_at p o (mkHeap vs ts)
  = Done (Some (length vs)) (mkHeap (vs ++ [Vector.Add v o]) ts).
Proof.
  intros H. unfold Triangle.Add_at.
  rewrite (bind_Done _ _ _ _ _ H). reflexivity.
Qed.

(** A read of an old address after the store grew. *)
Lemma get_Vector_grown (p : ptr) (v : Vector) (vs vs' : list Vector)
      (ts ts' : list Triangle) :
  get_Vector p (mkHeap vs ts) = Done v (mkHeap vs ts) ->
  get_Vector p (mkHeap (vs ++ vs') ts') = Done v (mkHeap (vs ++ vs') ts').
Proof.
  intros H. apply get_Vector_inv in H as (_ & a & -> & E). simpl in E.
  apply get_Vector_lookup. simpl. rewrite lookup_app_l; [exact E|].
  eapply lookup_lt_Some; exact E.
Qed.

Lemma insert_first_behind {A : Type} (l l' : list A) (x y : A) :
  <[length l := x]> (l ++ y :: l') = l ++ x :: l'.
Proof. induction l as [|z l IH]; simpl; [reflexivity | f_equal; exact IH]. Qed.

Lemma get_Triangle_behind (V : list Vector) (ts l' : list Triangle) (T : Triangle) :
  get_Triangle (Some (length ts)) (mkHeap V (ts ++ T :: l'))
  = Done T (mkHeap V (ts ++ T :: l')).
Proof. apply get_Triangle_lookup. simpl. rewrite lookup_first_behind. reflexivity. Qed.

Lemma put_Triangle_behind (V : list Vector) (ts l' : list Triangle) (T T' : Triangle) :
  put_Triangle (Some (length ts)) T' (mkHeap V (ts ++ T :: l'))
  = Done tt (mkHeap V (ts ++ T' :: l')).
Proof.
  unfold put_Triangle. simpl. rewrite lookup_first_behind. simpl.
  rewrite insert_first_behind. reflexivity.
Qed.

Lemma get_Vector_behind (vs l : list Vector) (TS : list Triangle) (i : nat) (v : Vector) :
  l !! i = Some v ->
  get_Vector (Some (length vs + i)%nat) (mkHeap (vs ++ l) TS)
  = Done v (mkHeap (vs ++ l) TS).
Proof. intros E. apply get_Vector_lookup. simpl. rewrite lookup_behind. exact E. Qed.

(** ** Triangles: what [Multiply], [TranslateXYZ] and [Project] build *)

Section Receiver.

(** The receiver [t] points to [T], whose vertices are [a], [b], [c]. *)
Variables (vs : list Vector) (ts : list Triangle).
Variables (t : ptr) (T : Triangle) (a b c : Vector).
Let h : Heap := mkHeap vs ts.
Hypothesis Ht : get_Triangle t h = Done T h.
Hypothesis Ha : get_Vector (vs0 T) h = Done a h.
Hypothesis Hb : get_Vector (vs1 T) h = Done b h.
Hypothesis Hc : get_Vector (vs2 T) h = Done c h.

Let n : nat := length vs.

Lemma Multiply_Done (m : Matrix4X4) :
  Triangle.Multiply t m h
  = Done (Some (length ts))
         (mkHeap (vs ++ [Vector.MatrixMultiply a m; Vector.MatrixMultiply b m;
                         Vector.MatrixMultiply c m])
                 (ts ++ [mkTriangle (Some n) (Some (n + 1)%nat) (Some (n + 2)%nat)
                                    (normal T) (normalI T) (incident T) (color T)])).
Proof using Ht Ha Hb Hc.
  unfold Triangle.Multiply, h in *.
  rewrite (bind_Done _ _ _ _ _ Ht).
  rewrite (bind_Done _ _ _ _ _ (MatrixMultiply_at_Done _ m _ _ _ Ha)).
  rewrite (bind_Done _ _ _ _ _
             (MatrixMultiply_at_Done _ m _ _ _ (get_Vector_grown _ _ _ _ _ _ Hb))).
  rewrite <- app_assoc.
  rewrite (bind_Done _ _ _ _ _
             (MatrixMultiply_at_Done _ m _ _ _ (get_Vector_grown _ _ _ _ _ _ Hc))).
  rewrite <- app_assoc. unfold new_Triangle. simpl.
  rewrite !length_app. simpl. subst n. reflexivity.
Qed.

Lemma TranslateXYZ_Done (x y z : float64) :
  let o := Vector.mk x y z 0 in
  Triangle.TranslateXYZ t x y z h
  = Done (Some (length ts))
         (mkHeap (vs ++ [Vector.Add a o; Vector.Add b o; Vector.Add c o])
                 (ts ++ [mkTriangle (Some n) (Some (n + 1)%nat) (Some (n + 2)%nat)
                                    (normal T) (normalI T) (incident T) (color T)])).
Proof using Ht Ha Hb Hc.
  intros o. unfold Triangle.TranslateXYZ, h in *. fold o.
  rewrite (bind_Done _ _ _ _ _ Ht).
  rewrite (bind_Done _ _ _ _ _ (Add_at_Done _ o _ _ _ Ha)).
  rewrite (bind_Done _ _ _ _ _
             (Add_at_Done _ o _ _ _ (get_Vector_grown _ _ _ _ _ _ Hb))).
  rewrite <- app_assoc.
  rewrite (bind_Done _ _ _ _ _
             (Add_at_Done _ o _ _ _ (get_Vector_grown _ _ _ _ _ _ Hc))).
  rewrite <- app_assoc. unfold new_Triangle. simpl.
  rewrite !length_app. simpl. subst n. reflexivity.
Qed.

Lemma divide_by_w_Done (p : ptr) (k : Heap) (v : Vector) :
  get_Vector p k = Done v k ->
  Triangle.divide_by_w p k
  = Done (Some (length (vectors k)))
         (mkHeap (vectors k ++ [Vector.Divide v (Vector.w v)]) (triangles k)).
Proof using Type.
  intros H. unfold Triangle.divide_by_w. rewrite (bind_Done _ _ _ _ _ H). reflexivity.
Qed.

Ltac read_behind :=
  apply get_Vector_lookup; cbn [vectors];
  rewrite <- ?app_assoc; cbn [app];
  rewrite ?length_app; cbn [length];
  first [ rewrite lookup_first_behind | rewrite lookup_behind ]; reflexivity.

Lemma Project_Done (p : Matrix4X4) :
  let a' := Vector.MatrixMultiply a p in
  let b' := Vector.MatrixMultiply b p in
  let c' := Vector.MatrixMultiply c p in
  Triangle.Project t p h
  = Done (Some (length ts))
         (mkHeap (vs ++ [a'; b'; c';
                         Vector.Divide a' (Vector.w a');
                         Vector.Divide b' (Vector.w b');
                         Vector.Divide c' (Vector.w c')])
                 (ts ++ [mkTriangle (Some (n + 3)%nat) (Some (n + 4)%nat) (Some (n + 5)%nat)
                                    (normal T) (normalI T) (incident T) (color T)])).
Proof using Ht Ha Hb Hc.
  intros a' b' c'. unfold Triangle.Project, h in *.
  rewrite (bind_Done _ _ _ _ _ Ht).
  rewrite (bind_Done _ _ _ _ _ (MatrixMultiply_at_Done _ p _ _ _ Ha)).
  rewrite (bind_Done _ _ _ _ _
             (MatrixMultiply_at_Done _ p _ _ _ (get_Vector_grown _ _ _ _ _ _ Hb))).
  rewrite <- app_assoc.
  rewrite (bind_Done _ _ _ _ _
             (MatrixMultiply_at_Done _ p _ _ _ (get_Vector_grown _ _ _ _ _ _ Hc))).
  rewrite <- app_assoc. cbn [app]. fold a' b' c'.
  unfold new_Triangle at 1. unfold bind at 1. cbn [vectors triangles].
  rewrite (bind_Done _ _ _ _ _ (get_Triangle_behind _ _ _ _)).
  cbn [vs0].
  erewrite (bind_Done (Triangle.divide_by_w _));
    [| apply (divide_by_w_Done _ _ a'); read_behind ].
  cbn [vectors triangles].
  rewrite (bind_Done _ _ _ _ _ (put_Triangle_behind _ _ _ _ _)).
  rewrite (bind_Done _ _ _ _ _ (get_Triangle_behind _ _ _ _)).
  cbn [vs1 set_vs0].
  erewrite (bind_Done (Triangle.divide_by_w _));
    [| apply (divide_by_w_Done _ _ b'); read_behind ].
  cbn [vectors triangles].
  rewrite (bind_Done _ _ _ _ _ (put_Triangle_behind _ _ _ _ _)).
  rewrite (bind_Done _ _ _ _ _ (get_Triangle_behind _ _ _ _)).
  cbn [vs2 set_vs1].
  erewrite (bind_Done (Triangle.divide_by_w _));
    [| apply (divide_by_w_Done _ _ c'); read_behind ].
  cbn [vectors triangles].
  rewrite (bind_Done _ _ _ _ _ (put_Triangle_behind _ _ _ _ _)).
  unfold ret. rewrite <- !app_assoc. cbn [app].
  rewrite !length_app. cbn [length]. fold n.
  reflexivity.
Qed.

End Receiver.

Lemma fresh_Triangle (t : ptr) (T : Triangle) (h : Heap) :
  get_Triangle t h = Done T h -> Some (length (triangles h)) <> t.
Proof.
  intros H E. apply get_Triangle_inv in H as (_ & i & -> & L).
  apply lookup_lt_Some in L. inversion E. lia.
Qed.

(** [MatrixMultiply] is the product of the matrix and the vector, entry by
    entry. *)
Lemma MatrixMultiply_times (v : Vector) (m : Matrix4X4) :
  Vector.MatrixMultiply v m = times m v.
Proof.
  destruct v as [x y z w]. unfold Vector.MatrixMultiply, times.
  cbn [Vector.x Vector.y Vector.z Vector.w]. f_equal; ring.
Qed.

(** C9.  For a receiver [t] with vertices [a], [b], [c], [Multiply]
    returns a new triangle whose vertices are the products of the matrix
    [m] and [a], [b], [c]: coordinate [i] of a new vertex is
    [m[i][0] * x + m[i][1] * y + m[i][2] * z + m[i][3] * w] of the old one.
    Its normal, normal incidence, view incidence and color are those of
    [t]; everything the store held, [t] and its vertices among it, is as
    it was.  [TranslateXYZ] and [Project] too return a new triangle and
    leave the store as it was. *)
Theorem Multiply_carries_over_and_keeps_receiver
        (h : Heap) (t : ptr) (T : Triangle) (a b c : Vector)
        (m : Matrix4X4) (x y z : float64) :
  get_Triangle t h = Done T h ->
  get_Vector (vs0 T) h = Done a h ->
  get_Vector (vs1 T) h = Done b h ->
  get_Vector (vs2 T) h = Done c h ->
  (exists (t' : ptr) (T' : Triangle) (h' : Heap),
      Triangle.Multiply t m h = Done t' h'
      /\ t' <> t
      /\ get_Triangle t' h' = Done T' h'
      /\ get_Vector (vs0 T') h' = Done (times m a) h'
      /\ get_Vector (vs1 T') h' = Done (times m b) h'
      /\ get_Vector (vs2 T') h' = Done (times m c) h'
      /\ normal T' = normal T
      /\ normalI T' = normalI T
      /\ incident T' = incident T
      /\ color T' = color T
      /\ get_Triangle t h' = Done T h'
      /\ get_Vector (vs0 T) h' = Done a h'
      /\ get_Vector (vs1 T) h' = Done b h'
      /\ get_Vector (vs2 T) h' = Done c h'
      /\ unchanged h h')
  /\ (exists (t' : ptr) (h' : Heap),
         Triangle.TranslateXYZ t x y z h = Done t' h' /\ t' <> t /\ unchanged h h')
  /\ (exists (t' : ptr) (h' : Heap),
         Triangle.Project t m h = Done t' h' /\ t' <> t /\ unchanged h h').
Proof.
  intros Ht Ha Hb Hc. destruct h as [vs ts].
  pose proof (fresh_Triangle _ _ _ Ht) as Hfresh. simpl in Hfresh.
  rewrite <- !MatrixMultiply_times.
  repeat split.
  - eexists _, _, _. split; [apply (Multiply_Done vs ts t T a b c Ht Ha Hb Hc m)|].
    pose proof (unchanged_app (mkHeap vs ts)
                  [Vector.MatrixMultiply a m; Vector.MatrixMultiply b m;
                   Vector.MatrixMultiply c m]
                  [mkTriangle (Some (length vs)) (Some (length vs + 1)%nat)
                              (Some (length vs + 2)%nat)
                              (normal T) (normalI T) (incident T) (color T)]) as U.
    simpl in U. destruct U as [Uv Ut].
    split; [exact Hfresh|].
    split; [apply get_Triangle_behind|]. simpl.
    split; [rewrite <- (Nat.add_0_r (length vs)) at 1;
            apply get_Vector_behind; reflexivity|].
    split; [apply get_Vector_behind; reflexivity|].
    split; [apply get_Vector_behind; reflexivity|].
    repeat (split; [reflexivity|]).
    split; [apply Ut; exact Ht|].
    split; [apply Uv; exact Ha|].
    split; [apply Uv; exact Hb|].
    split; [apply Uv; exact Hc|].
    split; assumption.
  - eexists _, _. split; [apply (TranslateXYZ_Done vs ts t T a b c Ht Ha Hb Hc x y z)|].
    split; [exact Hfresh|].
    apply (unchanged_app (mkHeap vs ts)).
  - eexists _, _. split; [apply (Project_Done vs ts t T a b c Ht Ha Hb Hc m)|].
    split; [exact Hfresh|].
    apply (unchanged_app (mkHeap vs ts)).
Qed.

Lemma Multiply_carries_over_and_keeps_receiver_witness :
  exists (t' : ptr) (T' : Triangle) (h' : Heap),
    Triangle.Multiply (Some 0%nat) (Matrix.ScaleXYZ 2 2 2) unit_store = Done t' h'
    /\ get_Triangle t' h' = Done T' h'
    /\ get_Vector (vs1 T') h'
       = Done (times (Matrix.ScaleXYZ 2 2 2) (Vector.mk 1 0 0 1)) h'
    /\ get_Triangle (Some 0%nat) h' = Done unit_triangle h'
    /\ get_Vector (Some 1%nat) h' = Done (Vector.mk 1 0 0 1) h'.
Proof.
  destruct (Multiply_carries_over_and_keeps_receiver
              unit_store (Some 0%nat) unit_triangle
              (Vector.mk 0 0 0 1) (Vector.mk 1 0 0 1) (Vector.mk 0 1 0 1)
              (Matrix.ScaleXYZ 2 2 2) 0 0 0
              eq_refl eq_refl eq_refl eq_refl)
    as [(t' & T' & h' & HM & _ & HT' & _ & Hb' & _ & _ & _ & _ & _ & Ht & _ & Hb & _) _].
  exists t', T', h'. repeat split; assumption.
Defined.

(** ** Visibility *)

Ltac sqrt_ones :=
  repeat match goal with
         | |- context [sqrt ?a] => rewrite (sqrt_of_one a) by lra
         end.

Ltac run_store :=
  cbv beta iota zeta delta
      [Triangle.Normal Triangle.flatten_at Triangle.IsVisible
       bind ret get_Triangle get_Vector put_Vector put_Triangle new_Vector new_Triangle
       unit_store unit_triangle vectors triangles
       vs0 vs1 vs2 normal normalI incident color
       set_normal set_normalI set_incident
       lookup list_lookup insert list_insert length app].


Ltac vector_fields :=
  cbv [Vector.Normalize Vector.Length Vector.DotProduct Vector.CrossProduct
       Vector.Subtract Vector.SetZ Vector.x Vector.y Vector.z Vector.w
       Triangle.origin].

Lemma unit_triangle_normal :
  Vector.Normalize
    (Vector.CrossProduct
       (Vector.Subtract (Vector.SetZ (Vector.mk 1 0 0 1) (Vector.w (Vector.mk 1 0 0 1)))
                        (Vector.SetZ (Vector.mk 0 0 0 1) (Vector.w (Vector.mk 0 0 0 1))))
       (Vector.Subtract (Vector.SetZ (Vector.mk 0 1 0 1) (Vector.w (Vector.mk 0 1 0 1)))
                        (Vector.SetZ (Vector.mk 0 0 0 1) (Vector.w (Vector.mk 0 0 0 1)))))
  = Vector.mk 0 0 1 1.
Proof. vector_fields. sqrt_ones. f_equal; lra. Qed.

(** C1, as stated, fails.  [Normal] on the triangle [(0,0,0)], [(1,0,0)],
    [(0,1,0)] with the screen direction [(0,0,-1)] leaves the normal
    incidence at [0] and the view incidence at [pi], which is not below
    [pi/2]: the normal points directly opposite the view direction.
    [IsVisible] then returns [true]. *)
Lemma IsVisible_true_with_view_incidence_PI :
  exists (T : Triangle) (h' : Heap),
    Triangle.Normal (Some 0%nat) (Some 4%nat) unit_store = Done (Some 0%nat) h'
    /\ get_Triangle (Some 0%nat) h' = Done T h'
    /\ normalI T = 0
    /\ incident T = PI
    /\ ~ incident T < PI / 2
    /\ Triangle.IsVisible (Some 0%nat) h' = Done true h'.
Proof.
  eexists _, _. split; [run_store; reflexivity|].
  split; [run_store; reflexivity|].
  assert (N : acos (Vector.DotProduct (Vector.mk 0 0 1 1) Triangle.origin
                    / Vector.Length (Vector.mk 0 0 1 1)) = 0).
  { vector_fields. sqrt_ones.
    replace ((0 * 0 + 0 * 0 + 1 * 1) / 1) with 1 by lra. apply acos_1. }
  assert (I : acos (Vector.DotProduct (Vector.mk 0 0 1 1) (Vector.mk 0 0 (-1) 0)
                    / Vector.Length (Vector.mk 0 0 1 1)) = PI).
  { vector_fields. sqrt_ones.
    replace ((0 * 0 + 0 * 0 + 1 * -1) / 1) with (Ropp 1) by lra.
    rewrite acos_opp, acos_1. lra. }
  cbn [normalI incident]. rewrite !unit_triangle_normal.
  split; [exact N|]. split; [exact I|].
  split; [rewrite I; pose proof PI_RGT_0; lra|].
  run_store. rewrite N.
  unfold float_lt. destruct (Rlt_dec 0 (PI / 2)) as [_|F]; [reflexivity|].
  exfalso. apply F. pose proof PI_RGT_0. lra.
Qed.

(** What [IsVisible] reads is [normalI]; the result is the same whatever
    [incident] is. *)
Lemma IsVisible_reads_normalI (t : ptr) (T : Triangle) (h : Heap) :
  get_Triangle t h = Done T h ->
  Triangle.IsVisible t h = Done (float_lt (normalI T) (PI / 2)) h
  /\ (forall (a : nat) (i : float64),
        t = Some a ->
        Triangle.IsVisible t (mkHeap (vectors h) (<[a := set_incident T i]> (triangles h)))
        = Done (float_lt (normalI T) (PI / 2))
               (mkHeap (vectors h) (<[a := set_incident T i]> (triangles h)))).
Proof.
  intros H. split.
  - unfold Triangle.IsVisible. rewrite (bind_Done _ _ _ _ _ H). reflexivity.
  - intros a i ->. apply get_Triangle_inv in H as (_ & a' & [= <-] & L).
    assert (L' : (<[a := set_incident T i]> (triangles h)) !! a = Some (set_incident T i))
      by (apply list_lookup_insert_eq; eapply lookup_lt_Some; exact L).
    unfold Triangle.IsVisible.
    rewrite (bind_Done _ _ _ _ _ (get_Triangle_lookup a (mkHeap _ _) _ L')).
    reflexivity.
Qed.

Lemma bind_inv {A B : Type} (m : M A) (k : A -> M B) (h h' : Heap) (b : B) :
  bind m k h = Done b h' -> exists (a : A) (h1 : Heap), m h = Done a h1 /\ k a h1 = Done b h'.
Proof.
  unfold bind. destruct (m h) as [a h1|]; [|discriminate]. eauto.
Qed.

Lemma put_Triangle_inv (p : ptr) (T : Triangle) (h h' : Heap) (u : unit) :
  put_Triangle p T h = Done u h' ->
  exists a : nat,
    p = Some a /\ (a < length (triangles h))%nat
    /\ h' = mkHeap (vectors h) (<[a := T]> (triangles h)).
Proof.
  unfold put_Triangle. destruct p as [a|]; [|discriminate].
  destruct (triangles h !! a) as [T0|] eqn:E; [|discriminate].
  intros H. inversion H; subst. exists a. split; [reflexivity|]. split; [|reflexivity].
  eapply lookup_lt_Some; exact E.
Qed.

Lemma put_Vector_inv (p : ptr) (v : Vector) (h h' : Heap) (u : unit) :
  put_Vector p v h = Done u h' ->
  triangles h' = triangles h.
Proof.
  unfold put_Vector. destruct p as [a|]; [|discriminate].
  destruct (vectors h !! a) as [v0|] eqn:E; [|discriminate].
  intros H. inversion H; subst. reflexivity.
Qed.

(** What [Normal] leaves in the receiver: the incidence of the new normal
    to [(0,0,1)] in [normalI], its incidence to the screen direction in
    [incident]. *)
Lemma Normal_result (t screen r : ptr) (h h' : Heap) :
  Triangle.Normal t screen h = Done r h' ->
  exists (T' : Triangle) (nv sv : Vector),
    r = t
    /\ get_Triangle t h' = Done T' h'
    /\ get_Vector (normal T') h' = Done nv h'
    /\ get_Vector screen h' = Done sv h'
    /\ normalI T' = acos (Vector.DotProduct nv Triangle.origin / Vector.Length nv)
    /\ incident T' = acos (Vector.DotProduct nv sv / Vector.Length nv).
Proof.
  unfold Triangle.Normal. intros H.
  repeat match type of H with
         | bind _ _ _ = Done _ _ =>
             let a := fresh "x" in
             let h1 := fresh "h" in
             let E := fresh "E" in
             apply bind_inv in H as (a & h1 & E & H); cbv beta zeta in H
         end.
  clear E E0 E1 E2 E3 E4 E5 E6 E7 E8 E9.
  apply get_Vector_inv in E10 as (-> & n & En & Ln).
  apply put_Triangle_inv in E11 as (a & -> & La & ->).
  apply get_Triangle_inv in E12 as (-> & a' & [= <-] & L12).
  cbn [triangles vectors] in *.
  rewrite list_lookup_insert_eq in L12 by exact La. injection L12 as <-.
  apply get_Vector_inv in E13 as (-> & n' & En' & Ln').
  cbn [normal set_normalI vectors] in *.
  rewrite En in En'. injection En' as <-.
  rewrite Ln in Ln'. injection Ln' as <-.
  apply get_Vector_inv in E14 as (-> & s & -> & Ls).
  apply put_Triangle_inv in E15 as (a' & [= <-] & La' & ->).
  inversion H; subst r h'. clear H.
  cbn [triangles vectors] in *.
  eexists _, x10, x14. split; [reflexivity|].
  split; [apply get_Triangle_lookup; cbn [triangles];
          apply list_lookup_insert_eq; exact La'|].
  cbn [normal normalI incident set_incident set_normalI].
  split; [rewrite En; apply get_Vector_lookup; exact Ln|].
  split; [apply get_Vector_lookup; exact Ls|].
  split; reflexivity.
Qed.

(** C1, amended.  After [Normal] has returned, [normalI] is the angle
    between the normal and the fixed direction [(0,0,1)] and [incident]
    the angle between the normal and the screen direction; [IsVisible]
    returns [true] if and only if [normalI] is strictly less than [pi/2]:
    with [normalI = pi] it returns [false], with [normalI = 0] it returns
    [true]. *)
Theorem IsVisible_tests_normal_incidence (t screen r : ptr) (h h' : Heap) :
  Triangle.Normal t screen h = Done r h' ->
  exists (T' : Triangle) (nv sv : Vector),
    r = t
    /\ get_Triangle t h' = Done T' h'
    /\ get_Vector (normal T') h' = Done nv h'
    /\ get_Vector screen h' = Done sv h'
    /\ normalI T' = acos (Vector.DotProduct nv Triangle.origin / Vector.Length nv)
    /\ incident T' = acos (Vector.DotProduct nv sv / Vector.Length nv)
    /\ (exists b : bool,
          Triangle.IsVisible t h' = Done b h' /\ (b = true <-> normalI T' < PI / 2))
    /\ (normalI T' = PI -> Triangle.IsVisible t h' = Done false h')
    /\ (normalI T' = 0 -> Triangle.IsVisible t h' = Done true h').
Proof.
  intros H.
  destruct (Normal_result t screen r h h' H) as (T' & nv & sv & Hr & HT & Hn & Hs & HN & HI).
  destruct (IsVisible_reads_normalI t T' h' HT) as [E _].
  pose proof PI_RGT_0 as Hpi.
  exists T', nv, sv. repeat (split; [assumption|]).
  split; [|split].
  - exists (float_lt (normalI T') (PI / 2)). split; [exact E|].
    unfold float_lt. destruct (Rlt_dec (normalI T') (PI / 2)); split; intros;
      try lra; try discriminate; reflexivity.
  - intros N. rewrite E, N. unfold float_lt.
    destruct (Rlt_dec PI (PI / 2)); [lra | reflexivity].
  - intros N. rewrite E, N. unfold float_lt.
    destruct (Rlt_dec 0 (PI / 2)); [reflexivity | lra].
Qed.

Lemma IsVisible_tests_normal_incidence_witness :
  exists (h' : Heap) (b : bool),
    Triangle.Normal (Some 0%nat) (Some 4%nat) unit_store = Done (Some 0%nat) h'
    /\ Triangle.IsVisible (Some 0%nat) h' = Done b h'.
Proof.
  assert (N : exists h' : Heap,
             Triangle.Normal (Some 0%nat) (Some 4%nat) unit_store = Done (Some 0%nat) h')
    by (eexists; run_store; reflexivity).
  destruct N as [h' N].
  destruct (IsVisible_tests_normal_incidence _ _ _ _ _ N)
    as (T' & nv & sv & _ & _ & _ & _ & _ & _ & (b & Hb & _) & _).
  exists h', b. split; assumption.
Defined.

(** ** Triangles: copies and updates in place *)

Lemma Vector_NewInstance_eq (v : Vector) : Vector.NewInstance v = v.
Proof. destruct v; reflexivity. Qed.

Lemma NewInstance_at_Done (p : ptr) (v : Vector) (vs : list Vector) (ts : list Triangle) :
  get_Vector p (mkHeap vs ts) = Done v (mkHeap vs ts) ->
  Triangle.NewInstance_at p (mkHeap vs ts)
  = Done (Some (length vs)) (mkHeap (vs ++ [v]) ts).
Proof.
  intros H. unfold Triangle.NewInstance_at.
  rewrite (bind_Done _ _ _ _ _ H). unfold new_Vector. simpl.
  rewrite Vector_NewInstance_eq. reflexivity.
Qed.

Lemma put_Triangle_Done (i : nat) (T' : Triangle) (V : list Vector) (ts : list Triangle) :
  (i < length ts)%nat ->
  put_Triangle (Some i) T' (mkHeap V ts) = Done tt (mkHeap V (<[i := T']> ts)).
Proof.
  intros Hi. unfold put_Triangle. simpl.
  destruct (lookup_lt_is_Some_2 ts i Hi) as [T0 E]. rewrite E. reflexivity.
Qed.

Lemma get_Triangle_inserted (i : nat) (T' : Triangle) (V : list Vector) (ts : list Triangle) :
  (i < length ts)%nat ->
  get_Triangle (Some i) (mkHeap V (<[i := T']> ts)) = Done T' (mkHeap V (<[i := T']> ts)).
Proof.
  intros Hi. apply get_Triangle_lookup. simpl.
  apply list_lookup_insert_eq. exact Hi.
Qed.

Lemma get_Vector_fresh (vs : list Vector) (ts : list Triangle) (i : nat) :
  get_Vector (Some (length vs + i)%nat) (mkHeap vs ts) = Panic.
Proof.
  unfold get_Vector. simpl. rewrite lookup_ge_None_2 by lia. reflexivity.
Qed.

Section Copy.

(** The receiver [t] points to [T], whose vertices are [a], [b], [c]. *)
Variables (vs : list Vector) (ts : list Triangle).
Variables (t : ptr) (T : Triangle) (a b c : Vector).
Let h : Heap := mkHeap vs ts.
Hypothesis Ht : get_Triangle t h = Done T h.
Hypothesis Ha : get_Vector (vs0 T) h = Done a h.
Hypothesis Hb : get_Vector (vs1 T) h = Done b h.
Hypothesis Hc : get_Vector (vs2 T) h = Done c h.

Let n : nat := length vs.

Lemma NewInstance_Done (nv : Vector) :
  get_Vector (normal T) h = Done nv h ->
  Triangle.NewInstance t h
  = Done (Some (length ts))
         (mkHeap (vs ++ [a; b; c; nv])
                 (ts ++ [mkTriangle (Some n) (Some (n + 1)%nat) (Some (n + 2)%nat)
                                    (Some (n + 3)%nat) 0 0 (color T)])).
Proof using Ht Ha Hb Hc.
  intros Hn. unfold Triangle.NewInstance, h in *.
  rewrite (bind_Done _ _ _ _ _ Ht).
  rewrite (bind_Done _ _ _ _ _ (NewInstance_at_Done _ _ _ _ Ha)).
  rewrite (bind_Done _ _ _ _ _
             (NewInstance_at_Done _ _ _ _ (get_Vector_grown _ _ _ _ _ _ Hb))).
  rewrite <- app_assoc.
  rewrite (bind_Done _ _ _ _ _
             (NewInstance_at_Done _ _ _ _ (get_Vector_grown _ _ _ _ _ _ Hc))).
  rewrite <- app_assoc.
  rewrite (bind_Done _ _ _ _ _
             (NewInstance_at_Done _ _ _ _ (get_Vector_grown _ _ _ _ _ _ Hn))).
  unfold new_Triangle. cbn [vectors triangles].
  rewrite <- !app_assoc. cbn [app].
  rewrite !length_app. cbn [length]. subst n. reflexivity.
Qed.

Lemma NewInstance_nil_normal :
  normal T = None -> Triangle.NewInstance t h = Panic.
Proof using Ht Ha Hb Hc.
  intros Hn. unfold Triangle.NewInstance, h in *.
  rewrite (bind_Done _ _ _ _ _ Ht).
  rewrite (bind_Done _ _ _ _ _ (NewInstance_at_Done _ _ _ _ Ha)).
  rewrite (bind_Done _ _ _ _ _
             (NewInstance_at_Done _ _ _ _ (get_Vector_grown _ _ _ _ _ _ Hb))).
  rewrite <- app_assoc.
  rewrite (bind_Done _ _ _ _ _
             (NewInstance_at_Done _ _ _ _ (get_Vector_grown _ _ _ _ _ _ Hc))).
  rewrite Hn. reflexivity.
Qed.

Lemma applyMatrix_Done (i : nat) (m : Matrix4X4) :
  t = Some i ->
  Triangle.applyMatrix t m h
  = Done tt
         (mkHeap (vs ++ [Vector.MatrixMultiply a m; Vector.MatrixMultiply b m;
                         Vector.MatrixMultiply c m])
                 (<[i := mkTriangle (Some n) (Some (n + 1)%nat) (Some (n + 2)%nat)
                                    (normal T) (normalI T) (incident T) (color T)]> ts)).
Proof using Ht Ha Hb Hc.
  intros ->. unfold h in *.
  assert (Hi : (i < length ts)%nat).
  { apply get_Triangle_inv in Ht as (_ & i' & [= <-] & L).
    eapply lookup_lt_Some; exact L. }
  unfold Triangle.applyMatrix.
  rewrite (bind_Done _ _ _ _ _ Ht).
  rewrite (bind_Done _ _ _ _ _ (MatrixMultiply_at_Done _ m _ _ _ Ha)).
  rewrite (bind_Done _ _ _ _ _ (put_Triangle_Done _ _ _ _ Hi)).
  rewrite (bind_Done _ _ _ _ _ (get_Triangle_inserted _ _ _ _ Hi)).
  cbn [vs1 set_vs0].
  rewrite (bind_Done _ _ _ _ _
             (MatrixMultiply_at_Done _ m _ _ _ (get_Vector_grown _ _ _ _ _ _ Hb))).
  rewrite <- app_assoc.
  assert (Hi' : forall X : Triangle, (i < length (<[i := X]> ts))%nat)
    by (intros X; rewrite length_insert; exact Hi).
  rewrite (bind_Done _ _ _ _ _ (put_Triangle_Done _ _ _ _ (Hi' _))).
  rewrite list_insert_insert_eq.
  rewrite (bind_Done _ _ _ _ _ (get_Triangle_inserted _ _ _ _ Hi)).
  cbn [vs2 set_vs1 set_vs0 vs0 vs1 normal normalI incident color].
  rewrite (bind_Done _ _ _ _ _
             (MatrixMultiply_at_Done _ m _ _ _ (get_Vector_grown _ _ _ _ _ _ Hc))).
  rewrite <- app_assoc.
  rewrite (put_Triangle_Done _ _ _ _ (Hi' _)).
  rewrite list_insert_insert_eq.
  unfold set_vs2. cbn [vs0 vs1 normal normalI incident color app].
  rewrite !length_app. cbn [length]. subst n.
  reflexivity.
Qed.

End Copy.

(** X12.  [NewInstance] is a deep copy: the new triangle has vertices and
    a normal of its own, at addresses the store did not hold, with the
    values of the receiver's; its color is the receiver's and both
    incidences are zero.  Everything the store held is as it was.  A
    receiver without a normal panics. *)
Theorem NewInstance_is_a_deep_copy
        (h : Heap) (t : ptr) (T : Triangle) (a b c : Vector) :
  get_Triangle t h = Done T h ->
  get_Vector (vs0 T) h = Done a h ->
  get_Vector (vs1 T) h = Done b h ->
  get_Vector (vs2 T) h = Done c h ->
  (forall nv : Vector,
      get_Vector (normal T) h = Done nv h ->
      exists (t' : ptr) (T' : Triangle) (h' : Heap),
        Triangle.NewInstance t h = Done t' h'
        /\ t' <> t
        /\ get_Triangle t' h' = Done T' h'
        /\ get_Vector (vs0 T') h' = Done a h'
        /\ get_Vector (vs1 T') h' = Done b h'
        /\ get_Vector (vs2 T') h' = Done c h'
        /\ get_Vector (normal T') h' = Done nv h'
        /\ get_Vector (vs0 T') h = Panic
        /\ get_Vector (vs1 T') h = Panic
        /\ get_Vector (vs2 T') h = Panic
        /\ get_Vector (normal T') h = Panic
        /\ normalI T' = 0
        /\ incident T' = 0
        /\ color T' = color T
        /\ unchanged h h')
  /\ (normal T = None -> Triangle.NewInstance t h = Panic).
Proof.
  intros Ht Ha Hb Hc. destruct h as [vs ts].
  pose proof (fresh_Triangle _ _ _ Ht) as Hfresh. simpl in Hfresh.
  split.
  - intros nv Hn.
    eexists _, _, _.
    split; [apply (NewInstance_Done vs ts t T a b c Ht Ha Hb Hc nv Hn)|].
    split; [exact Hfresh|].
    split; [apply get_Triangle_behind|]. cbn [vs0 vs1 vs2 normal normalI incident color].
    split; [rewrite <- (Nat.add_0_r (length vs)) at 1;
            apply get_Vector_behind; reflexivity|].
    split; [apply get_Vector_behind; reflexivity|].
    split; [apply get_Vector_behind; reflexivity|].
    split; [apply get_Vector_behind; reflexivity|].
    split; [rewrite <- (Nat.add_0_r (length vs)); apply get_Vector_fresh|].
    split; [apply get_Vector_fresh|].
    split; [apply get_Vector_fresh|].
    split; [apply get_Vector_fresh|].
    repeat (split; [reflexivity|]).
    apply (unchanged_app (mkHeap vs ts)).
  - apply (NewInstance_nil_normal vs ts t T a b c Ht Ha Hb Hc).
Qed.

Lemma NewInstance_is_a_deep_copy_witness :
  exists (t' : ptr) (T' : Triangle) (h' : Heap),
    Triangle.NewInstance (Some 0%nat) unit_store = Done t' h'
    /\ get_Triangle t' h' = Done T' h'
    /\ get_Vector (vs1 T') h' = Done (Vector.mk 1 0 0 1) h'
    /\ get_Vector (vs1 T') unit_store = Panic.
Proof.
  destruct (proj1 (NewInstance_is_a_deep_copy
                     unit_store (Some 0%nat) unit_triangle
                     (Vector.mk 0 0 0 1) (Vector.mk 1 0 0 1) (Vector.mk 0 1 0 1)
                     eq_refl eq_refl eq_refl eq_refl) (Vector.mk 0 0 0 1) eq_refl)
    as (t' & T' & h' & HN & _ & HT' & _ & Hb' & _ & _ & _ & Hf & _).
  exists t', T', h'. repeat split; assumption.
Defined.

(** X13.  [applyMatrix] changes its receiver in place: the three vertex
    fields point to new vectors, at addresses the store did not hold,
    with the values of the old ones multiplied by the matrix (coordinate
    [i] is [m[i][0] * x + m[i][1] * y + m[i][2] * z + m[i][3] * w]), and
    the other fields keep their values.  No vector the store held is written
    to, so a triangle that shares a vertex with the receiver is not moved,
    and no other triangle changes. *)
Theorem applyMatrix_replaces_the_vertices
        (h : Heap) (t : ptr) (T : Triangle) (a b c : Vector) (m : Matrix4X4) :
  get_Triangle t h = Done T h ->
  get_Vector (vs0 T) h = Done a h ->
  get_Vector (vs1 T) h = Done b h ->
  get_Vector (vs2 T) h = Done c h ->
  exists (T' : Triangle) (h' : Heap),
    Triangle.applyMatrix t m h = Done tt h'
    /\ get_Triangle t h' = Done T' h'
    /\ get_Vector (vs0 T') h' = Done (times m a) h'
    /\ get_Vector (vs1 T') h' = Done (times m b) h'
    /\ get_Vector (vs2 T') h' = Done (times m c) h'
    /\ get_Vector (vs0 T') h = Panic
    /\ get_Vector (vs1 T') h = Panic
    /\ get_Vector (vs2 T') h = Panic
    /\ normal T' = normal T
    /\ normalI T' = normalI T
    /\ incident T' = incident T
    /\ color T' = color T
    /\ (forall (p : ptr) (v : Vector),
          get_Vector p h = Done v h -> get_Vector p h' = Done v h')
    /\ (forall (t2 : ptr) (T2 : Triangle),
          t2 <> t -> get_Triangle t2 h = Done T2 h -> get_Triangle t2 h' = Done T2 h')
    /\ length (triangles h') = length (triangles h).
Proof.
  intros Ht Ha Hb Hc. destruct h as [vs ts]. rewrite <- !MatrixMultiply_times.
  destruct (get_Triangle_inv _ _ _ _ Ht) as (_ & i & -> & L). simpl in L.
  assert (Hi : (i < length ts)%nat) by (eapply lookup_lt_Some; exact L).
  eexists _, _.
  split; [apply (applyMatrix_Done vs ts (Some i) T a b c Ht Ha Hb Hc i m eq_refl)|].
  split; [apply get_Triangle_inserted; exact Hi|].
  cbn [vs0 vs1 vs2 normal normalI incident color].
  split; [rewrite <- (Nat.add_0_r (length vs)) at 1;
          apply get_Vector_behind; reflexivity|].
  split; [apply get_Vector_behind; reflexivity|].
  split; [apply get_Vector_behind; reflexivity|].
  split; [rewrite <- (Nat.add_0_r (length vs)); apply get_Vector_fresh|].
  split; [apply get_Vector_fresh|].
  split; [apply get_Vector_fresh|].
  repeat (split; [reflexivity|]).
  split; [|split].
  - intros p v H. eapply get_Vector_grown. exact H.
  - intros t2 T2 Hne H. apply get_Triangle_inv in H as (_ & j & -> & Lj). simpl in Lj.
    apply get_Triangle_lookup. simpl.
    rewrite list_lookup_insert_ne; [exact Lj|]. intros ->. apply Hne. reflexivity.
  - simpl. apply length_insert.
Qed.

Lemma applyMatrix_replaces_the_vertices_witness :
  exists (T' : Triangle) (h' : Heap),
    Triangle.applyMatrix (Some 0%nat) (Matrix.ScaleXYZ 2 2 2) unit_store = Done tt h'
    /\ get_Triangle (Some 0%nat) h' = Done T' h'
    /\ get_Vector (vs1 T') h'
       = Done (times (Matrix.ScaleXYZ 2 2 2) (Vector.mk 1 0 0 1)) h'
    /\ get_Vector (Some 1%nat) h' = Done (Vector.mk 1 0 0 1) h'.
Proof.
  destruct (applyMatrix_replaces_the_vertices
              unit_store (Some 0%nat) unit_triangle
              (Vector.mk 0 0 0 1) (Vector.mk 1 0 0 1) (Vector.mk 0 1 0 1)
              (Matrix.ScaleXYZ 2 2 2) eq_refl eq_refl eq_refl eq_refl)
    as (T' & h' & HA & HT' & _ & Hb' & _ & _ & _ & _ & _ & _ & _ & _ & Hv & _).
  exists T', h'. repeat split; try assumption.
  apply Hv. reflexivity.
Defined.

(** ** [Normal] writes to the vertices *)

Lemma insert_alter {A : Type} (f : A -> A) (l : list A) (p : nat) (v : A) :
  l !! p = Some v -> <[p := f v]> l = alter f p l.
Proof.
  revert p. induction l as [|x l IH]; intros [|p] E; try discriminate.
  - injection E as ->. reflexivity.
  - simpl. f_equal. apply IH. exact E.
Qed.

Lemma flatten_at_Done (p : nat) (V : list Vector) (ts : list Triangle) :
  (p < length V)%nat ->
  Triangle.flatten_at (Some p) (mkHeap V ts) = Done tt (mkHeap (alter flatten p V) ts).
Proof.
  intros Hp. destruct (lookup_lt_is_Some_2 V p Hp) as [v E].
  unfold Triangle.flatten_at.
  rewrite (bind_Done _ _ _ _ _ (get_Vector_lookup p (mkHeap V ts) v E)).
  unfold put_Vector. cbn [vectors triangles]. rewrite E.
  rewrite <- (insert_alter flatten V p v E). reflexivity.
Qed.

Lemma flatten_twice (v : Vector) : flatten (flatten v) = flatten v.
Proof. reflexivity. Qed.

(** The store after the three assignments, read at any address. *)
Lemma lookup_flattened (V : list Vector) (p0 p1 p2 q : nat) :
  alter flatten p2 (alter flatten p1 (alter flatten p0 V)) !! q
  = if (Nat.eqb q p0 || Nat.eqb q p1 || Nat.eqb q p2)%bool
    then flatten <$> V !! q else V !! q.
Proof.
  rewrite !list_lookup_alter.
  destruct (Nat.eqb_spec q p0) as [E0|N0], (Nat.eqb_spec q p1) as [E1|N1],
           (Nat.eqb_spec q p2) as [E2|N2]; cbn [orb];
    repeat case_decide; subst; try congruence;
    repeat match goal with
           | |- context [?l !! ?q] => destruct (l !! q); cbn [fmap option_fmap option_map]
           end; reflexivity.
Qed.

Lemma new_Vector_Done (v : Vector) (V : list Vector) (ts : list Triangle) :
  new_Vector v (mkHeap V ts) = Done (Some (length V)) (mkHeap (V ++ [v]) ts).
Proof. reflexivity. Qed.

Lemma get_Vector_first_behind (V l : list Vector) (ts : list Triangle) (v : Vector) :
  get_Vector (Some (length V)) (mkHeap (V ++ v :: l) ts) = Done v (mkHeap (V ++ v :: l) ts).
Proof. apply get_Vector_lookup. simpl. rewrite lookup_first_behind. reflexivity. Qed.

Lemma get_Vector_old (V l : list Vector) (ts : list Triangle) (p : nat) (v : Vector) :
  V !! p = Some v -> get_Vector (Some p) (mkHeap (V ++ l) ts) = Done v (mkHeap (V ++ l) ts).
Proof.
  intros E. apply get_Vector_lookup. simpl.
  rewrite lookup_app_l; [exact E | eapply lookup_lt_Some; exact E].
Qed.

Lemma Normal_Done (V : list Vector) (ts : list Triangle) (i p0 p1 p2 s : nat)
      (T : Triangle) (a3 b3 c3 sv3 : Vector) :
  let V3 := alter flatten p2 (alter flatten p1 (alter flatten p0 V)) in
  let nv := Vector.Normalize
              (Vector.CrossProduct (Vector.Subtract b3 a3) (Vector.Subtract c3 a3)) in
  ts !! i = Some T ->
  vs0 T = Some p0 -> vs1 T = Some p1 -> vs2 T = Some p2 ->
  V3 !! p0 = Some a3 -> V3 !! p1 = Some b3 -> V3 !! p2 = Some c3 ->
  V3 !! s = Some sv3 ->
  Triangle.Normal (Some i) (Some s) (mkHeap V ts)
  = Done (Some i)
         (mkHeap (V3 ++ [nv])
                 (<[i := mkTriangle (Some p0) (Some p1) (Some p2) (Some (length V))
                          (acos (Vector.DotProduct nv Triangle.origin / Vector.Length nv))
                          (acos (Vector.DotProduct nv sv3 / Vector.Length nv))
                          (color T)]> ts)).
Proof.
  intros V3 nv Hi H0 H1 H2 Ea Eb Ec Es.
  assert (Li : (i < length ts)%nat) by (eapply lookup_lt_Some; exact Hi).
  assert (L0 : (p0 < length V)%nat).
  { apply lookup_lt_Some in Ea. unfold V3 in Ea. rewrite !length_alter in Ea. exact Ea. }
  assert (L1 : (p1 < length V)%nat).
  { apply lookup_lt_Some in Eb. unfold V3 in Eb. rewrite !length_alter in Eb. exact Eb. }
  assert (L2 : (p2 < length V)%nat).
  { apply lookup_lt_Some in Ec. unfold V3 in Ec. rewrite !length_alter in Ec. exact Ec. }
  assert (LV : length V3 = length V) by (unfold V3; rewrite !length_alter; reflexivity).
  assert (Li' : forall X : Triangle, (i < length (<[i := X]> ts))%nat)
    by (intros X; rewrite length_insert; exact Li).
  unfold Triangle.Normal.
  rewrite (bind_Done _ _ _ _ _ (get_Triangle_lookup i (mkHeap V ts) T Hi)).
  rewrite H0, H1, H2.
  rewrite (bind_Done _ _ _ _ _ (flatten_at_Done p0 V ts L0)).
  erewrite (bind_Done (Triangle.flatten_at (Some p1)));
    [| apply flatten_at_Done; rewrite length_alter; exact L1].
  erewrite (bind_Done (Triangle.flatten_at (Some p2)));
    [| apply flatten_at_Done; rewrite !length_alter; exact L2].
  fold V3.
  rewrite (bind_Done _ _ _ _ _ (get_Vector_lookup p0 (mkHeap V3 ts) a3 Ea)).
  rewrite (bind_Done _ _ _ _ _ (get_Vector_lookup p1 (mkHeap V3 ts) b3 Eb)).
  rewrite (bind_Done _ _ _ _ _ (get_Vector_lookup p2 (mkHeap V3 ts) c3 Ec)).
  cbv zeta. fold nv.
  rewrite (bind_Done _ _ _ _ _ (new_Vector_Done nv V3 ts)).
  rewrite (bind_Done _ _ _ _ _ (get_Triangle_lookup i (mkHeap _ ts) T Hi)).
  rewrite (bind_Done _ _ _ _ _ (put_Triangle_Done _ _ _ _ Li)).
  rewrite (bind_Done _ _ _ _ _ (get_Triangle_inserted _ _ _ _ Li)).
  cbn [normal set_normal].
  rewrite (bind_Done _ _ _ _ _ (get_Vector_first_behind V3 [] _ nv)).
  rewrite (bind_Done _ _ _ _ _ (put_Triangle_Done _ _ _ _ (Li' _))).
  rewrite list_insert_insert_eq.
  rewrite (bind_Done _ _ _ _ _ (get_Triangle_inserted _ _ _ _ Li)).
  cbn [normal set_normal set_normalI].
  rewrite (bind_Done _ _ _ _ _ (get_Vector_first_behind V3 [] _ nv)).
  rewrite (bind_Done _ _ _ _ _ (get_Vector_old V3 [nv] _ s sv3 Es)).
  rewrite (bind_Done _ _ _ _ _ (put_Triangle_Done _ _ _ _ (Li' _))).
  rewrite list_insert_insert_eq.
  unfold ret, set_incident, set_normalI, set_normal.
  cbn [vs0 vs1 vs2 normal normalI incident color].
  rewrite H0, H1, H2, LV. reflexivity.
Qed.

(** X14.  [Normal] writes to the three vertices of its receiver: in each
    the [z] is overwritten with the [w], at the address the vertex has, so
    that every triangle that shares the vertex reads the new value; the
    new normal is computed from the overwritten vertices.  No other vector
    and no other triangle changes, and the receiver keeps its vertices and
    its color. *)
Theorem Normal_overwrites_z_of_the_vertices
        (h : Heap) (t screen : ptr) (T : Triangle) (a b c sv : Vector) :
  get_Triangle t h = Done T h ->
  get_Vector (vs0 T) h = Done a h ->
  get_Vector (vs1 T) h = Done b h ->
  get_Vector (vs2 T) h = Done c h ->
  get_Vector screen h = Done sv h ->
  exists (T' : Triangle) (h' : Heap),
    Triangle.Normal t screen h = Done t h'
    /\ get_Triangle t h' = Done T' h'
    /\ vs0 T' = vs0 T /\ vs1 T' = vs1 T /\ vs2 T' = vs2 T /\ color T' = color T
    /\ get_Vector (vs0 T) h' = Done (flatten a) h'
    /\ get_Vector (vs1 T) h' = Done (flatten b) h'
    /\ get_Vector (vs2 T) h' = Done (flatten c) h'
    /\ get_Vector (normal T') h = Panic
    /\ get_Vector (normal T') h'
       = Done (Vector.Normalize
                 (Vector.CrossProduct (Vector.Subtract (flatten b) (flatten a))
                                      (Vector.Subtract (flatten c) (flatten a)))) h'
    /\ (forall (p : ptr) (v : Vector),
          p <> vs0 T -> p <> vs1 T -> p <> vs2 T ->
          get_Vector p h = Done v h -> get_Vector p h' = Done v h')
    /\ (forall (t2 : ptr) (T2 : Triangle),
          t2 <> t -> get_Triangle t2 h = Done T2 h -> get_Triangle t2 h' = Done T2 h').
Proof.
  intros Ht Ha Hb Hc Hs. destruct h as [V ts].
  apply get_Triangle_inv in Ht as (_ & i & -> & Hi).
  apply get_Vector_inv in Ha as (_ & p0 & H0 & Ea).
  apply get_Vector_inv in Hb as (_ & p1 & H1 & Eb).
  apply get_Vector_inv in Hc as (_ & p2 & H2 & Ec).
  apply get_Vector_inv in Hs as (_ & s & -> & Es).
  cbn [vectors triangles] in *.
  set (V3 := alter flatten p2 (alter flatten p1 (alter flatten p0 V))).
  assert (Ea3 : V3 !! p0 = Some (flatten a)).
  { unfold V3. rewrite lookup_flattened, Ea, Nat.eqb_refl. reflexivity. }
  assert (Eb3 : V3 !! p1 = Some (flatten b)).
  { unfold V3. rewrite lookup_flattened, Eb, Nat.eqb_refl, orb_true_r. reflexivity. }
  assert (Ec3 : V3 !! p2 = Some (flatten c)).
  { unfold V3. rewrite lookup_flattened, Ec, Nat.eqb_refl, orb_true_r. reflexivity. }
  assert (Es3 : exists sv3 : Vector, V3 !! s = Some sv3).
  { unfold V3. rewrite lookup_flattened, Es.
    destruct (_ || _ || _)%bool; eexists; reflexivity. }
  destruct Es3 as [sv3 Es3].
  assert (Li : (i < length ts)%nat) by (eapply lookup_lt_Some; exact Hi).
  assert (LV : length V3 = length V) by (unfold V3; rewrite !length_alter; reflexivity).
  eexists _, _.
  split; [apply (Normal_Done V ts i p0 p1 p2 s T _ _ _ sv3 Hi H0 H1 H2 Ea3 Eb3 Ec3 Es3)|].
  fold V3.
  split; [apply get_Triangle_inserted; exact Li|].
  cbn [vs0 vs1 vs2 normal color].
  repeat (split; [symmetry; assumption|]).
  split; [reflexivity|].
  rewrite H0, H1, H2.
  split; [apply get_Vector_old; exact Ea3|].
  split; [apply get_Vector_old; exact Eb3|].
  split; [apply get_Vector_old; exact Ec3|].
  split; [rewrite <- (Nat.add_0_r (length V)); apply get_Vector_fresh|].
  split; [rewrite <- LV; apply get_Vector_first_behind|].
  split.
  - intros p v N0 N1 N2 H. apply get_Vector_inv in H as (_ & q & -> & Eq).
    cbn [vectors] in Eq. apply get_Vector_old.
    unfold V3. rewrite lookup_flattened.
    destruct (Nat.eqb_spec q p0) as [->|_]; [congruence|].
    destruct (Nat.eqb_spec q p1) as [->|_]; [congruence|].
    destruct (Nat.eqb_spec q p2) as [->|_]; [congruence|].
    exact Eq.
  - intros t2 T2 Hne H. apply get_Triangle_inv in H as (_ & j & -> & Lj). simpl in Lj.
    apply get_Triangle_lookup. simpl.
    rewrite list_lookup_insert_ne; [exact Lj|]. intros ->. apply Hne. reflexivity.
Qed.

Lemma Normal_overwrites_z_of_the_vertices_witness :
  exists h' : Heap,
    Triangle.Normal (Some 0%nat) (Some 4%nat) unit_store = Done (Some 0%nat) h'
    /\ get_Vector (Some 1%nat) h' = Done (Vector.mk 1 0 1 1) h'.
Proof.
  destruct (Normal_overwrites_z_of_the_vertices
              unit_store (Some 0%nat) (Some 4%nat) unit_triangle
              (Vector.mk 0 0 0 1) (Vector.mk 1 0 0 1) (Vector.mk 0 1 0 1)
              (Vector.mk 0 0 (-1) 0) eq_refl eq_refl eq_refl eq_refl eq_refl)
    as (T' & h' & HN & _ & _ & _ & _ & _ & _ & Hb & _).
  exists h'. split; [exact HN | exact Hb].
Defined.

(** ** What [Project] and [TranslateXYZ] leave in the new triangle *)

(** X15.  The vertices of the triangle [Project] returns are those of the
    receiver multiplied by the matrix (coordinate [i] is
    [p[i][0] * x + p[i][1] * y + p[i][2] * z + p[i][3] * w]) and then
    divided by their own [w],
    which is never left at zero; those of the triangle [TranslateXYZ]
    returns are the receiver's moved by the offset, with the [w] they had.
    Both carry the normal, the incidences and the color over. *)
Theorem Project_divides_by_w
        (h : Heap) (t : ptr) (T : Triangle) (a b c : Vector)
        (p : Matrix4X4) (x y z : float64) :
  get_Triangle t h = Done T h ->
  get_Vector (vs0 T) h = Done a h ->
  get_Vector (vs1 T) h = Done b h ->
  get_Vector (vs2 T) h = Done c h ->
  (exists (t' : ptr) (T' : Triangle) (h' : Heap) (a' b' c' : Vector),
      Triangle.Project t p h = Done t' h'
      /\ get_Triangle t' h' = Done T' h'
      /\ get_Vector (vs0 T') h' = Done a' h'
      /\ get_Vector (vs1 T') h' = Done b' h'
      /\ get_Vector (vs2 T') h' = Done c' h'
      /\ a' = Vector.Divide (times p a) (Vector.w (times p a))
      /\ b' = Vector.Divide (times p b) (Vector.w (times p b))
      /\ c' = Vector.Divide (times p c) (Vector.w (times p c))
      /\ Vector.w a' <> 0 /\ Vector.w b' <> 0 /\ Vector.w c' <> 0
      /\ normal T' = normal T /\ normalI T' = normalI T
      /\ incident T' = incident T /\ color T' = color T)
  /\ (exists (t' : ptr) (T' : Triangle) (h' : Heap),
         Triangle.TranslateXYZ t x y z h = Done t' h'
         /\ get_Triangle t' h' = Done T' h'
         /\ get_Vector (vs0 T') h'
            = Done (Vector.mk (Vector.x a + x) (Vector.y a + y) (Vector.z a + z) (Vector.w a)) h'
         /\ get_Vector (vs1 T') h'
            = Done (Vector.mk (Vector.x b + x) (Vector.y b + y) (Vector.z b + z) (Vector.w b)) h'
         /\ get_Vector (vs2 T') h'
            = Done (Vector.mk (Vector.x c + x) (Vector.y c + y) (Vector.z c + z) (Vector.w c)) h'
         /\ normal T' = normal T /\ normalI T' = normalI T
         /\ incident T' = incident T /\ color T' = color T).
Proof.
  intros Ht Ha Hb Hc. destruct h as [vs ts]. rewrite <- !MatrixMultiply_times.
  assert (Hw : forall v : Vector, Vector.w (Vector.Divide v (Vector.w v)) <> 0).
  { intros v. unfold Vector.Divide, float_eq; simpl.
    destruct (Req_dec_T (Vector.w v) 0); [lra | assumption]. }
  split.
  - eexists _, _, _, _, _, _.
    split; [apply (Project_Done vs ts t T a b c Ht Ha Hb Hc p)|].
    split; [apply get_Triangle_behind|]. cbn [vs0 vs1 vs2 normal normalI incident color].
    split; [apply get_Vector_behind; reflexivity|].
    split; [apply get_Vector_behind; reflexivity|].
    split; [apply get_Vector_behind; reflexivity|].
    repeat (split; [reflexivity|]).
    repeat (split; [apply Hw|]).
    repeat split.
  - eexists _, _, _.
    split; [apply (TranslateXYZ_Done vs ts t T a b c Ht Ha Hb Hc x y z)|].
    split; [apply get_Triangle_behind|]. cbn [vs0 vs1 vs2 normal normalI incident color].
    split; [rewrite <- (Nat.add_0_r (length vs)) at 1;
            apply get_Vector_behind; reflexivity|].
    split; [apply get_Vector_behind; reflexivity|].
    split; [apply get_Vector_behind; reflexivity|].
    repeat split.
Qed.

Lemma Project_divides_by_w_witness :
  exists (t' : ptr) (T' : Triangle) (h' : Heap) (b' : Vector),
    Triangle.Project (Some 0%nat) (Matrix.ScaleXYZ 2 2 2) unit_store = Done t' h'
    /\ get_Triangle t' h' = Done T' h'
    /\ get_Vector (vs1 T') h' = Done b' h'
    /\ Vector.w b' <> 0.
Proof.
  destruct (proj1 (Project_divides_by_w
                     unit_store (Some 0%nat) unit_triangle
                     (Vector.mk 0 0 0 1) (Vector.mk 1 0 0 1) (Vector.mk 0 1 0 1)
                     (Matrix.ScaleXYZ 2 2 2) 0 0 0 eq_refl eq_refl eq_refl eq_refl))
    as (t' & T' & h' & a' & b' & c' & HP & HT' & _ & Hb' & _ & _ & _ & _ & _ & Hw & _).
  exists t', T', h', b'. repeat split; assumption.
Defined.

(** ** Colors *)

Lemma uint8_range (x : Z) : (0 <= uint8 x < 256)%Z.
Proof. unfold uint8. apply Z.mod_pos_bound. lia. Qed.

Lemma pack_value (r g b a : Z) :
  Object.pack r g b a
  = (uint8 r * 16777216 + uint8 g * 65536 + uint8 b * 256 + uint8 a)%Z.
Proof.
  unfold Object.pack.
  pose proof (uint8_range r) as Hr. pose proof (uint8_range g) as Hg.
  pose proof (uint8_range b) as Hb. pose proof (uint8_range a) as Ha.
  set (r8 := uint8 r) in *. set (g8 := uint8 g) in *.
  set (b8 := uint8 b) in *. set (a8 := uint8 a) in *.
  rewrite !Z.shiftl_mul_pow2 by lia. unfold uint32.
  change (2 ^ 24)%Z with 16777216%Z. change (2 ^ 16)%Z with 65536%Z.
  change (2 ^ 8)%Z with 256%Z. change (2 ^ 32)%Z with 4294967296%Z.
  rewrite (Z.mod_small (r8 * 16777216)) by lia.
  rewrite (Z.mod_small (g8 * 65536)) by lia.
  rewrite (Z.mod_small (b8 * 256)) by lia.
  rewrite (Z.mod_small (r8 * 16777216 + g8 * 65536)) by lia.
  rewrite (Z.mod_small (r8 * 16777216 + g8 * 65536 + b8 * 256)) by lia.
  rewrite Z.mod_small by lia. reflexivity.
Qed.

Lemma unpack (r8 g8 b8 a8 : Z) :
  (0 <= r8 < 256)%Z -> (0 <= g8 < 256)%Z -> (0 <= b8 < 256)%Z -> (0 <= a8 < 256)%Z ->
  let c := (r8 * 16777216 + g8 * 65536 + b8 * 256 + a8)%Z in
  uint8 (Z.shiftr c 24) = r8 /\ uint8 (Z.shiftr c 16) = g8
  /\ uint8 (Z.shiftr c 8) = b8 /\ uint8 c = a8.
Proof.
  intros Hr Hg Hb Ha c. unfold uint8.
  rewrite !Z.shiftr_div_pow2 by lia.
  change (2 ^ 24)%Z with 16777216%Z. change (2 ^ 16)%Z with 65536%Z.
  change (2 ^ 8)%Z with 256%Z. subst c.
  repeat split; Z.div_mod_to_equations; lia.
Qed.

(** X16.  The color [parseFaceColor] packs and the accessors of a triangle
    are inverse to each other: of a triangle whose color was packed from
    [r], [g], [b], [a], [FaceColor] and [R], [G], [B], [A] return the four
    channels, each reduced to [uint8]. *)
Theorem FaceColor_unpacks_pack (h : Heap) (t : ptr) (T : Triangle) (r g b a : Z) :
  get_Triangle t h = Done T h ->
  color T = Object.pack r g b a ->
  Triangle.FaceColor t h = Done (sdl.mkColor (uint8 r) (uint8 g) (uint8 b) (uint8 a)) h
  /\ Triangle.R t h = Done (uint8 r) h
  /\ Triangle.G t h = Done (uint8 g) h
  /\ Triangle.B t h = Done (uint8 b) h
  /\ Triangle.A t h = Done (uint8 a) h.
Proof.
  intros Ht Hc.
  destruct (unpack (uint8 r) (uint8 g) (uint8 b) (uint8 a)
              (uint8_range r) (uint8_range g) (uint8_range b) (uint8_range a))
    as (Er & Eg & Eb & Ea).
  rewrite <- pack_value, <- Hc in Er, Eg, Eb, Ea.
  unfold Triangle.FaceColor, Triangle.R, Triangle.G, Triangle.B, Triangle.A.
  rewrite !(bind_Done _ _ _ _ _ Ht). unfold ret.
  rewrite Er, Eg, Eb, Ea. repeat split.
Qed.

Lemma FaceColor_unpacks_pack_witness :
  Triangle.FaceColor (Some 0%nat) unit_store
  = Done (sdl.mkColor (uint8 255) (uint8 255) (uint8 255) (uint8 255)) unit_store.
Proof.
  apply (FaceColor_unpacks_pack unit_store (Some 0%nat) unit_triangle 255 255 255 255).
  - reflexivity.
  - reflexivity.
Defined.

(** *** Truncation of a [float64] *)

Lemma float_to_int_small (x : float64) : -1 < x < 1 -> float_to_int x = 0%Z.
Proof.
  intros Hx. unfold float_to_int. destruct (Rle_dec 0 x) as [P|N].
  - symmetry. apply Int_part_spec. simpl. lra.
  - rewrite <- (Int_part_spec (- x) 0); [reflexivity | simpl; lra].
Qed.

Lemma float_to_int_nonneg (x : float64) (n : Z) :
  0 <= x -> x <= IZR n -> (0 <= float_to_int x <= n)%Z.
Proof.
  intros H0 Hn. unfold float_to_int. destruct (Rle_dec 0 x) as [_|N]; [|contradiction].
  destruct (base_Int_part x) as [Lo Hi]. split.
  - apply Z.lt_succ_r. apply lt_IZR. rewrite succ_IZR. lra.
  - apply le_IZR. lra.
Qed.



Lemma float_to_int_IZR (n : Z) : (0 <= n)%Z -> float_to_int (IZR n) = n.
Proof.
  intros Hn. unfold float_to_int.
  destruct (Rle_dec 0 (IZR n)) as [_|N]; [|exfalso; apply N, IZR_le; exact Hn].
  symmetry. apply Int_part_spec. lra.
Qed.

Lemma shaded_channel (c : Z) (s : float64) :
  (0 <= c < 256)%Z -> 0 <= s <= 1 ->
  (0 <= float_to_uint8 (int_to_float c * s) <= c)%Z.
Proof.
  intros Hc Hs. unfold float_to_uint8, int_to_float, uint8.
  assert (H0 : 0 <= IZR c) by (apply IZR_le; lia).
  assert (B : (0 <= float_to_int (IZR c * s) <= c)%Z)
    by (apply float_to_int_nonneg; nra).
  rewrite Z.mod_small by lia. exact B.
Qed.

(** X17.  [ShadedColor] of a triangle that faces away ([normalI] above
    [pi/2]) is the dark grey [(32, 32, 32)] with alpha 0.  Otherwise,
    for a [normalI] not below [-pi/2], each of [R], [G], [B] is between 0
    and the channel of [FaceColor], and [A] is that of [FaceColor]; at
    [normalI = 0] the shaded color is the face color.  At [normalI = pi/2]
    exactly the color is black with the alpha of the face, while
    [IsVisible] is false. *)
Theorem ShadedColor_darkens (h : Heap) (t : ptr) (T : Triangle) :
  get_Triangle t h = Done T h ->
  (PI / 2 < normalI T ->
   Triangle.ShadedColor t h = Done (sdl.mkColor 32 32 32 0) h)
  /\ (- (PI / 2) <= normalI T <= PI / 2 ->
      exists c f : sdl.Color,
        Triangle.ShadedColor t h = Done c h
        /\ Triangle.FaceColor t h = Done f h
        /\ (0 <= sdl.R c <= sdl.R f)%Z
        /\ (0 <= sdl.G c <= sdl.G f)%Z
        /\ (0 <= sdl.B c <= sdl.B f)%Z
        /\ sdl.A c = sdl.A f)
  /\ (normalI T = 0 -> Triangle.ShadedColor t h = Triangle.FaceColor t h)
  /\ (normalI T = PI / 2 ->
      Triangle.ShadedColor t h = Done (sdl.mkColor 0 0 0 (uint8 (color T))) h
      /\ Triangle.IsVisible t h = Done false h).
Proof.
  intros Ht. pose proof PI_RGT_0 as Hpi.
  unfold Triangle.ShadedColor, Triangle.FaceColor, Triangle.IsVisible.
  rewrite !(bind_Done _ _ _ _ _ Ht). unfold ret, float_gt, float_lt.
  split; [|split; [|split]].
  - intros H. destruct (Rgt_dec (normalI T) (PI / 2)) as [_|N]; [reflexivity|].
    exfalso. apply N. exact H.
  - intros [Lo Hi]. destruct (Rgt_dec (normalI T) (PI / 2)) as [G|_]; [unfold Rgt in G; lra|].
    assert (Hs : 0 <= cos (normalI T) <= 1).
    { split; [apply cos_ge_0; lra | apply COS_bound]. }
    eexists _, _. split; [reflexivity|]. split; [reflexivity|].
    cbn [sdl.R sdl.G sdl.B sdl.A].
    repeat split; try (apply shaded_channel; [apply uint8_range | exact Hs]).
  - intros E. rewrite E. destruct (Rgt_dec 0 (PI / 2)) as [G|_]; [unfold Rgt in G; lra|].
    rewrite cos_0. unfold float_to_uint8, int_to_float.
    rewrite !Rmult_1_r.
    rewrite !float_to_int_IZR by apply uint8_range.
    unfold uint8. rewrite !Zmod_mod. reflexivity.
  - intros E. rewrite E.
    destruct (Rgt_dec (PI / 2) (PI / 2)) as [G|_]; [unfold Rgt in G; lra|].
    destruct (Rlt_dec (PI / 2) (PI / 2)) as [L|_]; [lra|].
    rewrite cos_PI2. unfold float_to_uint8, int_to_float.
    rewrite !Rmult_0_r. rewrite float_to_int_small by lra.
    split; reflexivity.
Qed.

Lemma ShadedColor_darkens_witness :
  Triangle.ShadedColor (Some 0%nat) unit_store = Triangle.FaceColor (Some 0%nat) unit_store.
Proof.
  apply (ShadedColor_darkens unit_store (Some 0%nat) unit_triangle).
  - reflexivity.
  - reflexivity.
Defined.

(** ** Comparing triangles *)




(** ** Decimal numerals *)

Lemma digit_range (c : ascii) :
  strconv.isDigit c = true -> (0 <= strconv.digit c <= 9)%Z.
Proof.
  unfold strconv.isDigit, strconv.digit. intros H.
  apply andb_prop in H as [H1 H2].
  apply Nat.leb_le in H1. apply Nat.leb_le in H2. lia.
Qed.

Lemma decimal_from_ge (s : string) (n v : Z) :
  (0 <= n)%Z -> decimal_from s n = Some v -> (n <= v)%Z.
Proof.
  revert n. induction s as [|c s IH]; simpl; intros n Hn H.
  - inversion H. lia.
  - destruct (strconv.isDigit c) eqn:D; [|discriminate].
    pose proof (digit_range c D). apply IH in H; lia.
Qed.

(** [ParseUint]'s loop returns without an error exactly on the strings of
    digits whose value fits. *)
Lemma ParseUint_loop_spec (s : string) (maxVal n v : Z) :
  (0 <= n <= maxVal)%Z -> (maxVal <= strconv.maxUint64)%Z ->
  strconv.ParseUint_loop s maxVal n = (v, None)
  <-> decimal_from s n = Some v /\ (v <= maxVal)%Z.
Proof.
  unfold strconv.maxUint64. intros Hn Hmax. revert n Hn.
  induction s as [|c s IH]; simpl; intros n Hn.
  - split.
    + intros [= ->]. split; [reflexivity | lia].
    + intros [[= ->] _]. reflexivity.
  - destruct (strconv.isDigit c) eqn:D; simpl.
    2:{ split; [discriminate | intros [? _]; discriminate]. }
    pose proof (digit_range c D) as Hd.
    change (strconv.maxUint64 / 10 + 1)%Z with 1844674407370955162%Z.
    change (2 ^ 64)%Z with 18446744073709551616%Z in *.
    destruct (Z.geb_spec n 1844674407370955162) as [Hc | Hc].
    { split; [discriminate|]. intros [H Hv].
      apply decimal_from_ge in H; lia. }
    destruct (Z_lt_dec (n * 10 + strconv.digit c) 18446744073709551616) as [Hw | Hw].
    + rewrite Z.mod_small by lia.
      destruct (Z.ltb_spec (n * 10 + strconv.digit c) (n * 10)) as [? | _]; [lia|].
      destruct (Z.gtb_spec (n * 10 + strconv.digit c) maxVal) as [Hg | Hg]; simpl.
      * split; [discriminate|]. intros [H Hv].
        apply decimal_from_ge in H; lia.
      * apply IH. lia.
    + assert (E : ((n * 10 + strconv.digit c) mod 18446744073709551616
                   = n * 10 + strconv.digit c - 18446744073709551616)%Z).
      { symmetry. apply Z.mod_unique with (q := 1%Z); lia. }
      rewrite E.
      destruct (Z.ltb_spec (n * 10 + strconv.digit c - 18446744073709551616) (n * 10))
        as [_ | ?]; [|lia].
      simpl. split; [discriminate|]. intros [H Hv].
      apply decimal_from_ge in H; lia.
Qed.

Lemma ParseUint_spec (s : string) (v : Z) :
  strconv.ParseUint s 8 = (v, None) <-> decimal s = Some v /\ (v <= 255)%Z.
Proof.
  unfold strconv.ParseUint, decimal. destruct s as [|c s].
  - split; [discriminate | intros [? _]; discriminate].
  - change (2 ^ 8 - 1)%Z with 255%Z.
    apply ParseUint_loop_spec; unfold strconv.maxUint64; lia.
Qed.

Lemma ParseUint_nonneg (s : string) (v : Z) :
  strconv.ParseUint s 8 = (v, None) -> (0 <= v)%Z.
Proof.
  intros H. apply ParseUint_spec in H as [H _].
  unfold decimal in H. destruct s; [discriminate|].
  apply decimal_from_ge in H; lia.
Qed.

(** ** The loader *)

Lemma substring_all (s : string) : substring 0 (String.length s) s = s.
Proof. induction s as [|c s IH]; simpl; [reflexivity | f_equal; exact IH]. Qed.

Lemma substring_none (s : string) : substring 0 0 s = EmptyString.
Proof. destruct s; reflexivity. Qed.

Section LoaderFacts.

Variable ParseFloat : string -> option float64.

Local Open Scope string_scope.
Local Open Scope Z_scope.

(** An error of the [switch] ends the load with that error. *)
Lemma scan_error (line : string) (lines : list string) (lineCnt : Z)
      (pts ts pts' ts' : list ptr) (e : error) (h h' : Heap) :
  (2 <= String.length line)%nat ->
  Object.dispatch ParseFloat line (lineCnt + 1) pts ts h = Done (pts', ts', Some e) h' ->
  Object.scan ParseFloat (line :: lines) lineCnt pts ts h = Done (inr e) h'.
Proof.
  intros Hlen H. simpl.
  destruct (Nat.eqb_spec (String.length line) 0) as [?|_]; [lia|].
  destruct (Nat.ltb_spec (String.length line) 2) as [?|_]; [lia|].
  rewrite (bind_Done _ _ _ _ _ H). reflexivity.
Qed.

Lemma scan_continue (line : string) (lines : list string) (lineCnt : Z)
      (pts ts pts' ts' : list ptr) (h h' : Heap) :
  (2 <= String.length line)%nat ->
  Object.dispatch ParseFloat line (lineCnt + 1) pts ts h = Done (pts', ts', None) h' ->
  Object.scan ParseFloat (line :: lines) lineCnt pts ts h
  = Object.scan ParseFloat lines (lineCnt + 1) pts' ts' h'.
Proof.
  intros Hlen H. simpl.
  destruct (Nat.eqb_spec (String.length line) 0) as [?|_]; [lia|].
  destruct (Nat.ltb_spec (String.length line) 2) as [?|_]; [lia|].
  rewrite (bind_Done _ _ _ _ _ H). reflexivity.
Qed.

Lemma dispatch_xc (line : string) (lineCnt : Z) (pts ts : list ptr) :
  Object.dispatch ParseFloat ("xc" ++ line) lineCnt pts ts
  = bind (Object.parseFaceColor ts line lineCnt) (fun err => ret (pts, ts, err)).
Proof.
  unfold Object.dispatch, strings.upto, strings.from.
  cbn [append substring String.length Nat.sub String.eqb Ascii.eqb Bool.eqb].
  rewrite ?substring_none, ?Nat.sub_0_r, substring_all. reflexivity.
Qed.

Lemma dispatch_v (body : string) (lineCnt : Z) (pts ts : list ptr) :
  Object.dispatch ParseFloat ("v " ++ body) lineCnt pts ts
  = bind (Object.parseVector ParseFloat (" " ++ body) lineCnt)
         (fun r => ret ((pts ++ [fst r])%list, ts, snd r)).
Proof.
  unfold Object.dispatch, strings.upto, strings.from.
  cbn [append substring String.length Nat.sub String.eqb Ascii.eqb Bool.eqb].
  rewrite ?substring_none, ?Nat.sub_0_r, substring_all. reflexivity.
Qed.

Lemma dispatch_f (body : string) (lineCnt : Z) (pts ts : list ptr) :
  Object.dispatch ParseFloat ("f " ++ body) lineCnt pts ts
  = bind (Object.parseFace pts (" " ++ body) lineCnt)
         (fun r => ret (pts, (ts ++ [fst r])%list, snd r)).
Proof.
  unfold Object.dispatch, strings.upto, strings.from.
  cbn [append substring String.length Nat.sub String.eqb Ascii.eqb Bool.eqb].
  rewrite ?substring_none, ?Nat.sub_0_r, substring_all. reflexivity.
Qed.

End LoaderFacts.

Local Open Scope string_scope.

(** C10.  For an ["xc"] line whose first field is the decimal numeral of
    [n]: if [n] exceeds 255 the load ends with the error ["bad i"] for that
    line, whatever the number of faces declared; [parseFaceColor] returns
    no error only if [n] is between 1 and the smaller of 255 and the number
    of faces; and for such an [n] the index is accepted: the fields parse
    with the index [n], or the error is about a channel. *)
Theorem xc_index_is_uint8 (ParseFloat : string -> option float64) (ts : list ptr)
        (line f0 : string) (rest : list string) (n : Z) :
  strings.Split (strings.TrimSpace line) = f0 :: rest ->
  decimal f0 = Some n ->
  ((255 < n)%Z ->
   forall (lineCnt : Z) (lines : list string) (pts : list ptr) (h : Heap),
     Object.scan ParseFloat (("xc" ++ line) :: lines) lineCnt pts ts h
     = Done (inr (Errorf "bad i in line %d: %s" [Int (lineCnt + 1); Str line])) h)
  /\ (forall (lineCnt : Z) (h h' : Heap),
         Object.parseFaceColor ts line lineCnt h = Done None h' ->
         (1 <= n <= Z.min 255 (Object.len ts))%Z)
  /\ ((1 <= n <= Z.min 255 (Object.len ts))%Z ->
      forall lineCnt : Z,
        match Object.parseFaceColor_fields ts line lineCnt with
        | inl (i, _, _, _, _) => i = n
        | inr e => In (format e) channel_errors
        end).
Proof.
  intros Hsplit Hdec.
  assert (Hlen : (Object.len (f0 :: rest) <? 1)%Z = false).
  { unfold Object.len. simpl length. apply Z.ltb_ge. lia. }
  split; [|split].
  - intros Hn lineCnt lines pts h.
    apply scan_error with (pts' := pts) (ts' := ts); [simpl; lia|].
    rewrite dispatch_xc.
    unfold Object.parseFaceColor, Object.parseFaceColor_fields.
    rewrite Hsplit, Hlen. cbn [nth].
    destruct (strconv.ParseUint f0 8) as [v [e|]] eqn:E; [reflexivity|].
    apply ParseUint_spec in E as [E Hv]. rewrite Hdec in E. inversion E. lia.
  - intros lineCnt h h'.
    unfold Object.parseFaceColor, Object.parseFaceColor_fields.
    rewrite Hsplit, Hlen. cbn [nth].
    destruct (strconv.ParseUint f0 8) as [v [e|]] eqn:E; [discriminate|].
    apply ParseUint_spec in E as [E Hv]. rewrite Hdec in E. inversion E; subst v.
    destruct (Z.ltb_spec n 1); [discriminate|].
    destruct (Z.gtb_spec n (Object.len ts)); [discriminate|].
    intros _. lia.
  - intros Hn lineCnt.
    unfold Object.parseFaceColor_fields.
    rewrite Hsplit, Hlen. cbn [nth].
    destruct (strconv.ParseUint f0 8) as [v [e|]] eqn:E.
    + assert (E' : strconv.ParseUint f0 8 = (n, None))
        by (apply ParseUint_spec; split; [exact Hdec | lia]).
      rewrite E' in E. discriminate.
    + apply ParseUint_spec in E as [E Hv]. rewrite Hdec in E. inversion E; subst v.
      destruct (Z.ltb_spec n 1); [lia|].
      destruct (Z.gtb_spec n (Object.len ts)); [lia|].
      cbn [orb].
      repeat match goal with
             | |- context [match (if ?c then ?p else ?q) with _ => _ end] =>
                 destruct (if c then p else q) as [? [?|]]
             end;
        unfold channel_errors; cbn; auto.
Qed.

(** A model of 300 faces: index 256 is rejected, index 200 is accepted. *)
Lemma xc_index_is_uint8_witness :
  Object.scan (fun _ => None) ["xc 256 255 0 0"] 0 [] (repeat (Some 0%nat) 300) empty_heap
  = Done (inr (Errorf "bad i in line %d: %s" [Int 1; Str " 256 255 0 0"])) empty_heap
  /\ match Object.parseFaceColor_fields (repeat (Some 0%nat) 300) " 200 7" 1 with
     | inl (i, _, _, _, _) => i = 200%Z
     | inr e => In (format e) channel_errors
     end.
Proof.
  split.
  - apply (proj1 (xc_index_is_uint8 (fun _ => None) (repeat (Some 0%nat) 300)
                    " 256 255 0 0" "256" ["255"; "0"; "0"] 256 eq_refl eq_refl)).
    reflexivity.
  - apply (proj2 (proj2 (xc_index_is_uint8 (fun _ => None) (repeat (Some 0%nat) 300)
                           " 200 7" "200" ["7"] 200 eq_refl eq_refl))).
    vm_compute. split; intros H; discriminate H.
Defined.

Local Open Scope Z_scope.

Lemma index_Done {A : Type} (l : list A) (i : Z) (x : A) (h : Heap) :
  1 <= i -> l !! Z.to_nat (i - 1) = Some x -> Object.index l (i - 1) h = Done x h.
Proof.
  intros Hi Hx. unfold Object.index, Object.len.
  pose proof (lookup_lt_Some _ _ _ Hx) as Hlt.
  destruct (Z.ltb_spec (i - 1) 0); [lia|].
  destruct (Z.leb_spec (Z.of_nat (length l)) (i - 1)); [lia|].
  simpl. rewrite Hx. reflexivity.
Qed.

Lemma index_Panic {A : Type} (l : list A) (i : Z) (h : Heap) :
  i < 1 \/ Object.len l < i -> Object.index l (i - 1) h = Panic.
Proof.
  intros Hi. unfold Object.index, Object.len in *.
  destruct (Z.ltb_spec (i - 1) 0); [reflexivity|].
  destruct (Z.leb_spec (Z.of_nat (length l)) (i - 1)); [reflexivity|]. lia.
Qed.

Lemma index_cases {A : Type} (l : list A) (i : Z) (h : Heap) :
  Object.index l i h = Panic \/ exists x : A, Object.index l i h = Done x h.
Proof.
  unfold Object.index.
  destruct ((i <? 0) || (Object.len l <=? i)); [left; reflexivity|].
  destruct (l !! Z.to_nat i); [right; eexists; reflexivity | left; reflexivity].
Qed.

(** An index of an ["f "] line outside [1 .. len(pts)] is an index out of
    range in [parseFace]: a panic, not an error. *)
Lemma parseFace_out_of_range (pts : list ptr) (line : string) (lineCnt : Z)
      (i1 i2 i3 : Z) (h : Heap) :
  Object.parseFace_fields line lineCnt = inl (i1, i2, i3) ->
  (i1 < 1 \/ Object.len pts < i1) \/ (i2 < 1 \/ Object.len pts < i2)
  \/ (i3 < 1 \/ Object.len pts < i3) ->
  Object.parseFace pts line lineCnt h = Panic.
Proof.
  intros Hf Hr. unfold Object.parseFace. rewrite Hf. unfold bind at 1.
  destruct (index_cases pts (i1 - 1) h) as [-> | [a Ha]]; [reflexivity|].
  rewrite Ha. unfold bind at 1.
  destruct (index_cases pts (i2 - 1) h) as [-> | [b Hb]]; [reflexivity|].
  rewrite Hb. unfold bind at 1.
  destruct (index_cases pts (i3 - 1) h) as [-> | [c Hc]]; [reflexivity|].
  exfalso. destruct Hr as [Hr | [Hr | Hr]].
  - rewrite (index_Panic pts i1 h Hr) in Ha. discriminate.
  - rewrite (index_Panic pts i2 h Hr) in Hb. discriminate.
  - rewrite (index_Panic pts i3 h Hr) in Hc. discriminate.
Qed.

Lemma scan_face_out_of_range (ParseFloat : string -> option float64)
      (body : string) (lines : list string) (lineCnt : Z) (pts ts : list ptr)
      (i1 i2 i3 : Z) (h : Heap) :
  Object.parseFace_fields (" " ++ body) (lineCnt + 1) = inl (i1, i2, i3) ->
  (i1 < 1 \/ Object.len pts < i1) \/ (i2 < 1 \/ Object.len pts < i2)
  \/ (i3 < 1 \/ Object.len pts < i3) ->
  Object.scan ParseFloat (("f " ++ body) :: lines) lineCnt pts ts h = Panic.
Proof.
  intros Hf Hr.
  cbn [Object.scan append String.length Nat.eqb Nat.ltb Nat.leb].
  change (String " " body) with (" " ++ body).
  change (String "f" (" " ++ body)) with ("f " ++ body).
  rewrite dispatch_f. unfold bind.
  rewrite (parseFace_out_of_range pts _ _ i1 i2 i3 h Hf Hr). reflexivity.
Qed.

(** C2, on the code.  A model whose only line is the face [f 1 2 3], with
    no vertex declared, does not load to an error: [LoadObject] panics. *)
Theorem LoadObject_face_out_of_range_panics
        (ParseFloat : string -> option float64) (h : Heap) :
  Object.LoadObject ParseFloat ["f 1 2 3"] h = Panic.
Proof.
  unfold Object.LoadObject.
  apply (scan_face_out_of_range ParseFloat "1 2 3" [] 0 [] [] 1 2 3 h).
  - reflexivity.
  - left. right. unfold Object.len. simpl. lia.
Qed.

(** ** Loading vertices and a face *)

Section Loading.

Variable ParseFloat : string -> option float64.

(** The vertex lines append their vectors to the store and the addresses
    to [pts]. *)
Lemma scan_vertex_lines (vlines : list string) (vs : list Vector) :
  Forall2 (vertex_line ParseFloat) vlines vs ->
  forall (rest : list string) (lineCnt : Z) (pts ts : list ptr)
         (V : list Vector) (TS : list Triangle),
    Object.scan ParseFloat (vlines ++ rest) lineCnt pts ts (mkHeap V TS)
    = Object.scan ParseFloat rest (lineCnt + Object.len vlines)
                  (pts ++ map Some (seq (length V) (length vs))) ts
                  (mkHeap (V ++ vs) TS).
Proof.
  induction 1 as [|l v vlines vs (body & -> & Hv) _ IH];
    intros rest lineCnt pts ts V TS.
  - unfold Object.len. simpl. rewrite !app_nil_r, Z.add_0_r. reflexivity.
  - rewrite <- app_comm_cons.
    rewrite (scan_continue ParseFloat _ _ lineCnt pts ts
               (pts ++ [Some (length V)]) ts (mkHeap V TS) (mkHeap (V ++ [v]) TS)).
    + rewrite IH. rewrite length_app. simpl length.
      rewrite <- !app_assoc. simpl.
      replace (length V + 1)%nat with (S (length V)) by lia.
      f_equal. unfold Object.len. simpl length. lia.
    + simpl. lia.
    + rewrite dispatch_v. unfold Object.parseVector. rewrite Hv. reflexivity.
Qed.

Lemma parseFace_Done (line : string) (lineCnt a b c : Z) (pa pb pc : ptr)
      (pts : list ptr) (V : list Vector) (TS : list Triangle) :
  Object.parseFace_fields line lineCnt = inl (a, b, c) ->
  1 <= a -> pts !! Z.to_nat (a - 1) = Some pa ->
  1 <= b -> pts !! Z.to_nat (b - 1) = Some pb ->
  1 <= c -> pts !! Z.to_nat (c - 1) = Some pc ->
  Object.parseFace pts line lineCnt (mkHeap V TS)
  = Done (Some (length TS), None)
         (mkHeap (V ++ [Vector.mk 0 0 0 1])
                 (TS ++ [mkTriangle pa pb pc (Some (length V)) 0 0 4294967295])).
Proof.
  intros Hf Ha Hpa Hb Hpb Hc Hpc.
  unfold Object.parseFace. rewrite Hf.
  rewrite (bind_Done _ _ _ _ _ (index_Done pts a pa _ Ha Hpa)).
  rewrite (bind_Done _ _ _ _ _ (index_Done pts b pb _ Hb Hpb)).
  rewrite (bind_Done _ _ _ _ _ (index_Done pts c pc _ Hc Hpc)).
  reflexivity.
Qed.

(** A face line with indices in range appends a triangle on the vectors
    [pts] holds at those indices. *)
Lemma scan_face_line (l : string) (a b c : Z) (pa pb pc : ptr)
      (rest : list string) (lineCnt : Z) (pts ts : list ptr)
      (V : list Vector) (TS : list Triangle) :
  face_line l a b c ->
  1 <= a -> pts !! Z.to_nat (a - 1) = Some pa ->
  1 <= b -> pts !! Z.to_nat (b - 1) = Some pb ->
  1 <= c -> pts !! Z.to_nat (c - 1) = Some pc ->
  Object.scan ParseFloat (l :: rest) lineCnt pts ts (mkHeap V TS)
  = Object.scan ParseFloat rest (lineCnt + 1) pts (ts ++ [Some (length TS)])
                (mkHeap (V ++ [Vector.mk 0 0 0 1])
                        (TS ++ [mkTriangle pa pb pc (Some (length V)) 0 0 4294967295])).
Proof.
  intros (body & -> & Hf) Ha Hpa Hb Hpb Hc Hpc.
  apply scan_continue; [simpl; lia|].
  rewrite dispatch_f.
  rewrite (bind_Done _ _ _ _ _
             (parseFace_Done _ _ a b c pa pb pc pts V TS (Hf _) Ha Hpa Hb Hpb Hc Hpc)).
  reflexivity.
Qed.

Lemma parseFaceColor_Done (line : string) (lineCnt i r g b a : Z) (j : nat)
      (T : Triangle) (ts : list ptr) (V : list Vector) (TS : list Triangle) :
  Object.parseFaceColor_fields ts line lineCnt = inl (i, r, g, b, a) ->
  1 <= i -> ts !! Z.to_nat (i - 1) = Some (Some j) ->
  TS !! j = Some T ->
  Object.parseFaceColor ts line lineCnt (mkHeap V TS)
  = Done None (mkHeap V (<[j := set_color T (Object.pack r g b a)]> TS)).
Proof.
  intros Hf Hi Hts HT.
  unfold Object.parseFaceColor. rewrite Hf.
  rewrite (bind_Done _ _ _ _ _ (index_Done ts i _ _ Hi Hts)).
  rewrite (bind_Done _ _ _ _ _ (get_Triangle_lookup j (mkHeap V TS) T HT)).
  unfold put_Triangle, bind. simpl. rewrite HT. reflexivity.
Qed.

(** An ["xc"] line whose fields parse assigns the packed color to the
    triangle of that index. *)
Lemma scan_color_line (line : string) (i r g b a : Z) (j : nat) (T : Triangle)
      (rest : list string) (lineCnt : Z) (pts ts : list ptr)
      (V : list Vector) (TS : list Triangle) :
  Object.parseFaceColor_fields ts line (lineCnt + 1) = inl (i, r, g, b, a) ->
  1 <= i -> ts !! Z.to_nat (i - 1) = Some (Some j) ->
  TS !! j = Some T ->
  Object.scan ParseFloat (("xc" ++ line) :: rest) lineCnt pts ts (mkHeap V TS)
  = Object.scan ParseFloat rest (lineCnt + 1) pts ts
                (mkHeap V (<[j := set_color T (Object.pack r g b a)]> TS)).
Proof.
  intros Hf Hi Hts HT.
  apply scan_continue; [simpl; lia|].
  rewrite dispatch_xc.
  rewrite (bind_Done _ _ _ _ _
             (parseFaceColor_Done _ _ i r g b a j T ts V TS Hf Hi Hts HT)).
  reflexivity.
Qed.

End Loading.

Lemma lookup_addresses (s n : nat) (i : Z) :
  1 <= i <= Z.of_nat n ->
  (map Some (seq s n) : list ptr) !! Z.to_nat (i - 1) = Some (Some (s + Z.to_nat (i - 1))%nat).
Proof.
  intros Hi. change (map Some (seq s n)) with (Some <$> seq s n).
  rewrite list_lookup_fmap, lookup_seq_lt by lia. reflexivity.
Qed.

(** Every face line with an index outside [1 .. n], after [n] vertex
    lines, makes [LoadObject] panic, whatever follows it. *)
Lemma LoadObject_face_out_of_range (ParseFloat : string -> option float64) (h : Heap)
      (vlines : list string) (vs : list Vector) (fl : string) (rest : list string)
      (a b c : Z) :
  Forall2 (vertex_line ParseFloat) vlines vs ->
  face_line fl a b c ->
  (a < 1 \/ Object.len vs < a) \/ (b < 1 \/ Object.len vs < b)
  \/ (c < 1 \/ Object.len vs < c) ->
  Object.LoadObject ParseFloat (vlines ++ fl :: rest) h = Panic.
Proof.
  intros Hv (body & -> & Hf) Hr. destruct h as [V TS].
  unfold Object.LoadObject.
  rewrite (scan_vertex_lines ParseFloat vlines vs Hv).
  apply (scan_face_out_of_range ParseFloat body rest _ _ _ a b c _ (Hf _)).
  unfold Object.len in *. simpl. rewrite length_map, length_seq. exact Hr.
Qed.

Lemma get_Vector_loaded (V vs tail : list Vector) (TS : list Triangle) (i : nat) (v : Vector) :
  vs !! i = Some v ->
  get_Vector (Some (length V + i)%nat) (mkHeap ((V ++ vs) ++ tail) TS)
  = Done v (mkHeap ((V ++ vs) ++ tail) TS).
Proof.
  intros E. rewrite <- app_assoc. apply get_Vector_behind.
  rewrite lookup_app_l; [exact E|]. eapply lookup_lt_Some; exact E.
Qed.

Ltac read_loaded :=
  apply get_Vector_lookup; cbn [vectors]; rewrite <- ?app_assoc;
  first [ rewrite lookup_first_behind
        | rewrite lookup_second_behind
        | rewrite lookup_third_behind ];
  reflexivity.

(** ** The fields of a vertex line and of a face line *)

Lemma field_byte_no_space (c : ascii) :
  field_byte c = true -> strings.asciiSpace c = false.
Proof.
  unfold field_byte. intros H. apply andb_prop in H as [H _].
  apply negb_true_iff in H. exact H.
Qed.

Lemma TrimLeft_blank (s : string) :
  strings.TrimLeft (String " " s) = strings.TrimLeft s.
Proof. reflexivity. Qed.

Lemma TrimLeft_field (f r : string) :
  is_field f = true -> strings.TrimLeft (f ++ r) = f ++ r.
Proof.
  destruct f as [|c f]; [discriminate|]. cbn [is_field no_space]. intros H.
  apply andb_prop in H as [Hc _]. apply field_byte_no_space in Hc.
  cbn [append strings.TrimLeft]. rewrite Hc. reflexivity.
Qed.

Lemma TrimLeft_one (f : string) : is_field f = true -> strings.TrimLeft f = f.
Proof.
  destruct f as [|c f]; [discriminate|]. cbn [is_field no_space]. intros H.
  apply andb_prop in H as [Hc _]. apply field_byte_no_space in Hc.
  cbn [strings.TrimLeft]. rewrite Hc. reflexivity.
Qed.

Lemma TrimRight_field (f : string) :
  is_field f = true -> strings.TrimRight f = f.
Proof.
  induction f as [|c f IH]; [discriminate|]. cbn [is_field no_space]. intros H.
  apply andb_prop in H as [Hc Hf]. apply field_byte_no_space in Hc.
  cbn [strings.TrimRight]. destruct f as [|c' f'].
  - cbn [strings.TrimRight]. rewrite Hc. reflexivity.
  - rewrite IH by exact Hf. reflexivity.
Qed.

Lemma TrimRight_keep (a J : string) :
  J <> "" -> strings.TrimRight J = J -> strings.TrimRight (a ++ J) = a ++ J.
Proof.
  intros HJ HT. induction a as [|c a IH]; [exact HT|].
  cbn [append strings.TrimRight]. rewrite IH.
  destruct (a ++ J) eqn:E; [|reflexivity].
  exfalso. destruct a; [apply HJ; exact E | discriminate E].
Qed.

Lemma no_space_not_blank (c : ascii) :
  strings.asciiSpace c = false -> Ascii.eqb c " " = false.
Proof.
  intros H. destruct (Ascii.eqb_spec c " ") as [->|_]; [|reflexivity].
  vm_compute in H. discriminate H.
Qed.

Lemma Split_field (f : string) : no_space f = true -> strings.Split f = [f].
Proof.
  induction f as [|c f IH]; [reflexivity|]. cbn [no_space]. intros H.
  apply andb_prop in H as [Hc Hf]. apply field_byte_no_space in Hc.
  cbn [strings.Split]. rewrite (no_space_not_blank c Hc), (IH Hf). reflexivity.
Qed.

Lemma Split_field_app (f r : string) :
  no_space f = true -> strings.Split (f ++ String " " r) = f :: strings.Split r.
Proof.
  induction f as [|c f IH]; [reflexivity|]. cbn [no_space]. intros H.
  apply andb_prop in H as [Hc Hf]. apply field_byte_no_space in Hc.
  cbn [append strings.Split]. rewrite (no_space_not_blank c Hc), (IH Hf). reflexivity.
Qed.

Lemma is_field_no_space (f : string) : is_field f = true -> no_space f = true.
Proof. destruct f; [discriminate | auto]. Qed.

Lemma join_fields (fs : list string) :
  fs <> [] -> Forall (fun f => is_field f = true) fs ->
  join fs <> ""
  /\ strings.TrimLeft (join fs) = join fs
  /\ strings.TrimRight (join fs) = join fs
  /\ strings.Split (join fs) = fs.
Proof.
  induction fs as [|f fs IH]; [contradiction|]. intros _ H.
  inversion H as [|? ? Hf Hfs]; subst. destruct fs as [|f2 fs].
  - cbn [join]. split; [destruct f; [discriminate Hf | discriminate]|].
    split; [apply TrimLeft_one; exact Hf|].
    split; [apply TrimRight_field; exact Hf|].
    apply Split_field, is_field_no_space, Hf.
  - destruct (IH ltac:(discriminate) Hfs) as (N & L & R & S).
    change (join (f :: f2 :: fs)) with (f ++ String " " (join (f2 :: fs))).
    split; [destruct f; [discriminate Hf | discriminate]|].
    split; [apply TrimLeft_field; exact Hf|].
    split.
    + apply TrimRight_keep; [discriminate|].
      apply (TrimRight_keep (String " " EmptyString)); assumption.
    + rewrite Split_field_app by (apply is_field_no_space; exact Hf).
      rewrite S. reflexivity.
Qed.

Lemma fields_of_line (fs : list string) :
  fs <> [] -> Forall (fun f => is_field f = true) fs ->
  strings.Split (strings.TrimSpace (" " ++ join fs)) = fs.
Proof.
  intros Hne H. destruct (join_fields fs Hne H) as (_ & L & R & S).
  unfold strings.TrimSpace. change (" " ++ join fs) with (String " " (join fs)).
  rewrite TrimLeft_blank, L, R. exact S.
Qed.

Lemma digit_field_byte (c : ascii) : strconv.isDigit c = true -> field_byte c = true.
Proof.
  unfold strconv.isDigit, field_byte, strings.asciiSpace. intros H.
  apply andb_prop in H as [H1 H2]. apply Nat.leb_le in H1. apply Nat.leb_le in H2.
  destruct (Nat.leb_spec 9 (nat_of_ascii c)), (Nat.leb_spec (nat_of_ascii c) 13),
    (Nat.eqb_spec (nat_of_ascii c) 32), (Nat.ltb_spec (nat_of_ascii c) 128);
    try reflexivity; lia.
Qed.

Lemma decimal_from_no_space (s : string) (n v : Z) :
  decimal_from s n = Some v -> no_space s = true.
Proof.
  revert n. induction s as [|c s IH]; [reflexivity|]. cbn [decimal_from no_space].
  intros n H. destruct (strconv.isDigit c) eqn:D; [|discriminate].
  rewrite (digit_field_byte c D). cbn [andb]. eapply IH; exact H.
Qed.

Lemma decimal_is_field (s : string) (v : Z) : decimal s = Some v -> is_field s = true.
Proof.
  unfold decimal. destruct s as [|c s]; [discriminate|].
  intros H. cbn [is_field]. eapply decimal_from_no_space; exact H.
Qed.

(** [ParseInt] reads a decimal numeral below [2^31] as its value. *)
Lemma ParseInt_decimal (s : string) (a : Z) :
  decimal s = Some a -> a < 2 ^ 31 -> strconv.ParseInt s 32 = (a, None).
Proof.
  intros H Ha. pose proof H as Hd. unfold decimal in H.
  destruct s as [|c s]; [discriminate|].
  assert (D : strconv.isDigit c = true).
  { cbn [decimal_from] in H. destruct (strconv.isDigit c); [reflexivity | discriminate]. }
  assert (Ep : Ascii.eqb c "+" = false).
  { destruct (Ascii.eqb_spec c "+") as [->|_]; [vm_compute in D; discriminate D | reflexivity]. }
  assert (Em : Ascii.eqb c "-" = false).
  { destruct (Ascii.eqb_spec c "-") as [->|_]; [vm_compute in D; discriminate D | reflexivity]. }
  assert (E : strconv.ParseUint (String c s) 32 = (a, None)).
  { unfold strconv.ParseUint. change (2 ^ 32 - 1) with 4294967295.
    apply ParseUint_loop_spec; [lia | unfold strconv.maxUint64; lia |].
    split; [exact H | lia]. }
  unfold strconv.ParseInt. rewrite Ep, Em, E. cbv beta iota zeta.
  change (2 ^ (32 - 1)) with 2147483648. change (2 ^ 31) with 2147483648 in Ha.
  cbn [negb andb]. destruct (Z.geb_spec a 2147483648); [lia | reflexivity].
Qed.

(** A declared vertex line is read as the vertex it declares, a declared
    face line as its three indices. *)
Lemma vertex_declared_line (ParseFloat : string -> option float64) (l : string) (v : Vector) :
  vertex_declared ParseFloat l v -> vertex_line ParseFloat l v.
Proof.
  intros (fx & fy & fz & Hx & Hy & Hz & Px & Py & Pz & [[-> Hw] | (fw & Hwf & Pw & ->)]).
  - exists (fx ++ " " ++ fy ++ " " ++ fz). split; [reflexivity|]. intros n.
    unfold Object.parseVector_fields.
    change (fx ++ " " ++ fy ++ " " ++ fz) with (join [fx; fy; fz]).
    rewrite fields_of_line by (try discriminate; repeat constructor; assumption).
    change (Object.len [fx; fy; fz]) with 3. cbn [nth].
    change (3 <? 3) with false. change (3 >? 4) with false. change (3 =? 4) with false.
    rewrite Px, Py, Pz. cbv beta iota. destruct v as [x y z w]. cbn in Hw. subst w.
    reflexivity.
  - exists (fx ++ " " ++ fy ++ " " ++ fz ++ " " ++ fw). split; [reflexivity|]. intros n.
    unfold Object.parseVector_fields.
    change (fx ++ " " ++ fy ++ " " ++ fz ++ " " ++ fw) with (join [fx; fy; fz; fw]).
    rewrite fields_of_line by (try discriminate; repeat constructor; assumption).
    change (Object.len [fx; fy; fz; fw]) with 4. cbn [nth].
    change (4 <? 3) with false. change (4 >? 4) with false. change (4 =? 4) with true.
    rewrite Px, Py, Pz, Pw. cbv beta iota. destruct v as [x y z w]. reflexivity.
Qed.

Lemma face_declared_line (l : string) (a b c : Z) :
  face_declared l a b c -> a < 2 ^ 31 -> b < 2 ^ 31 -> c < 2 ^ 31 -> face_line l a b c.
Proof.
  intros (fa & fb & fc & Da & Db & Dc & ->) Ha Hb Hc.
  exists (fa ++ " " ++ fb ++ " " ++ fc). split; [reflexivity|]. intros n.
  unfold Object.parseFace_fields.
  change (fa ++ " " ++ fb ++ " " ++ fc) with (join [fa; fb; fc]).
  rewrite fields_of_line
    by (try discriminate; repeat constructor; eapply decimal_is_field; eassumption).
  change (Object.len [fa; fb; fc]) with 3. change (3 =? 3) with true. cbn [negb nth].
  rewrite (ParseInt_decimal fa a Da Ha), (ParseInt_decimal fb b Db Hb),
    (ParseInt_decimal fc c Dc Hc).
  reflexivity.
Qed.

(** C5.  Vertex lines ["v x y z"] or ["v x y z w"], declaring the vertices
    whose coordinates are what [ParseFloat] reads in the fields ([w] is 1
    when left out), followed by a face line ["f a b c"] with indices in
    range, load to one triangle whose vertices are, by value, the vertices
    the lines [a], [b] and [c] declare (counted from 1).  And with a
    [ParseFloat] that reads ["0"] and ["1"] as 0 and 1, the five lines of
    the scenario load to one triangle with the vertices [(0,0,0)],
    [(1,0,0)], [(0,1,0)] and the color R=255, G=0, B=0, A=255. *)
Theorem LoadObject_face_round_trip (ParseFloat : string -> option float64) (h : Heap) :
  (forall (vlines : list string) (vs : list Vector) (fl : string) (a b c : Z),
      Forall2 (vertex_declared ParseFloat) vlines vs ->
      face_declared fl a b c ->
      Object.len vs < 2 ^ 31 ->
      1 <= a <= Object.len vs -> 1 <= b <= Object.len vs -> 1 <= c <= Object.len vs ->
      exists (t : ptr) (T : Triangle) (h' : Heap) (va vb vc : Vector),
        Object.LoadObject ParseFloat (vlines ++ [fl]) h
        = Done (inl (Object.mk [t] None)) h'
        /\ get_Triangle t h' = Done T h'
        /\ vs !! Z.to_nat (a - 1) = Some va /\ get_Vector (vs0 T) h' = Done va h'
        /\ vs !! Z.to_nat (b - 1) = Some vb /\ get_Vector (vs1 T) h' = Done vb h'
        /\ vs !! Z.to_nat (c - 1) = Some vc /\ get_Vector (vs2 T) h' = Done vc h')
  /\ (ParseFloat "0" = Some 0%R -> ParseFloat "1" = Some 1%R ->
      exists (t : ptr) (T : Triangle) (h' : Heap),
        Object.LoadObject ParseFloat scenario h = Done (inl (Object.mk [t] None)) h'
        /\ get_Triangle t h' = Done T h'
        /\ get_Vector (vs0 T) h' = Done (Vector.mk 0 0 0 1) h'
        /\ get_Vector (vs1 T) h' = Done (Vector.mk 1 0 0 1) h'
        /\ get_Vector (vs2 T) h' = Done (Vector.mk 0 1 0 1) h'
        /\ Triangle.R t h' = Done 255 h'
        /\ Triangle.G t h' = Done 0 h'
        /\ Triangle.B t h' = Done 0 h'
        /\ Triangle.A t h' = Done 255 h').
Proof.
  destruct h as [V TS]. split.
  - intros vlines vs fl a b c Hd Hfd Hn Ha Hb Hc.
    assert (Hv : Forall2 (vertex_line ParseFloat) vlines vs)
      by (eapply Forall2_impl; [exact Hd | apply vertex_declared_line]).
    assert (Hf : face_line fl a b c) by (apply face_declared_line; [exact Hfd | lia ..]).
    unfold Object.len in Ha, Hb, Hc.
    destruct (lookup_lt_is_Some_2 vs (Z.to_nat (a - 1)) ltac:(lia)) as [va Hva].
    destruct (lookup_lt_is_Some_2 vs (Z.to_nat (b - 1)) ltac:(lia)) as [vb Hvb].
    destruct (lookup_lt_is_Some_2 vs (Z.to_nat (c - 1)) ltac:(lia)) as [vc Hvc].
    eexists _, _, _, va, vb, vc. split.
    { unfold Object.LoadObject.
      rewrite (scan_vertex_lines ParseFloat vlines vs Hv). simpl app.
      rewrite (scan_face_line ParseFloat fl a b c _ _ _ [] _ _ [] _ _ Hf
                 (proj1 Ha) (lookup_addresses _ _ a Ha)
                 (proj1 Hb) (lookup_addresses _ _ b Hb)
                 (proj1 Hc) (lookup_addresses _ _ c Hc)).
      reflexivity. }
    split; [apply get_Triangle_behind|]. cbn [vs0 vs1 vs2].
    split; [exact Hva|]. split; [apply get_Vector_loaded; exact Hva|].
    split; [exact Hvb|]. split; [apply get_Vector_loaded; exact Hvb|].
    split; [exact Hvc|]. apply get_Vector_loaded; exact Hvc.
  - intros H0 H1.
    assert (Hv : Forall2 (vertex_line ParseFloat) ["v 0 0 0"; "v 1 0 0"; "v 0 1 0"]
                         [Vector.mk 0 0 0 1; Vector.mk 1 0 0 1; Vector.mk 0 1 0 1]).
    { repeat constructor.
      - exists "0 0 0". split; [reflexivity|]. intros k.
        unfold Object.parseVector_fields.
        change (strings.Split (strings.TrimSpace (" " ++ "0 0 0"))) with ["0"; "0"; "0"].
        cbn. rewrite H0. reflexivity.
      - exists "1 0 0". split; [reflexivity|]. intros k.
        unfold Object.parseVector_fields.
        change (strings.Split (strings.TrimSpace (" " ++ "1 0 0"))) with ["1"; "0"; "0"].
        cbn. rewrite H0, H1. reflexivity.
      - exists "0 1 0". split; [reflexivity|]. intros k.
        unfold Object.parseVector_fields.
        change (strings.Split (strings.TrimSpace (" " ++ "0 1 0"))) with ["0"; "1"; "0"].
        cbn. rewrite H0, H1. reflexivity. }
    assert (Hf : face_line "f 1 2 3" 1 2 3).
    { exists "1 2 3". split; [reflexivity|]. intros k. reflexivity. }
    eexists _, _, _. split.
    { unfold Object.LoadObject, scenario.
      rewrite (scan_vertex_lines ParseFloat _ _ Hv ["f 1 2 3"; "xc 1 255 0 0"]).
      cbn [app map seq length].
      erewrite (scan_face_line ParseFloat "f 1 2 3" 1 2 3);
        [| exact Hf | lia | reflexivity | lia | reflexivity | lia | reflexivity ].
      erewrite (scan_color_line ParseFloat " 1 255 0 0" 1 255 0 0 255 (length TS));
        [| reflexivity | lia | reflexivity | rewrite lookup_first_behind; reflexivity ].
      rewrite insert_first_behind. reflexivity. }
    split; [apply get_Triangle_behind|]. cbn [vs0 vs1 vs2 set_color].
    split; [read_loaded|]. split; [read_loaded|]. split; [read_loaded|].
    unfold Triangle.R, Triangle.G, Triangle.B, Triangle.A.
    rewrite !(bind_Done _ _ _ _ _ (get_Triangle_behind _ _ _ _)).
    repeat split.
Qed.

Lemma LoadObject_face_round_trip_witness :
  (exists (t : ptr) (T : Triangle) (h' : Heap),
      Object.LoadObject ParseFloat_of_digits (["v 1 2 3"; "v 4 5 6 7"] ++ ["f 2 1 2"])
                        empty_heap
      = Done (inl (Object.mk [t] None)) h'
      /\ get_Triangle t h' = Done T h'
      /\ get_Vector (vs0 T) h' = Done (Vector.mk 4 5 6 7) h'
      /\ get_Vector (vs1 T) h' = Done (Vector.mk 1 2 3 1) h'
      /\ get_Vector (vs2 T) h' = Done (Vector.mk 4 5 6 7) h')
  /\ (exists (t : ptr) (h' : Heap),
         Object.LoadObject ParseFloat_of_digits scenario empty_heap
         = Done (inl (Object.mk [t] None)) h'
         /\ Triangle.R t h' = Done 255 h'
         /\ Triangle.A t h' = Done 255 h').
Proof.
  destruct (LoadObject_face_round_trip ParseFloat_of_digits empty_heap) as [General Scenario].
  split.
  - destruct (General ["v 1 2 3"; "v 4 5 6 7"] [Vector.mk 1 2 3 1; Vector.mk 4 5 6 7]
                      "f 2 1 2" 2 1 2)
      as (t & T & h' & va & vb & vc & HL & HT & Ea & Ha & Eb & Hb & Ec & Hc).
    + repeat constructor.
      * exists "1", "2", "3". repeat (split; [reflexivity|]).
        left. split; reflexivity.
      * exists "4", "5", "6". repeat (split; [reflexivity|]).
        right. exists "7". repeat split; reflexivity.
    + exists "2", "1", "2". repeat split; reflexivity.
    + unfold Object.len; simpl; lia.
    + unfold Object.len; simpl; lia.
    + unfold Object.len; simpl; lia.
    + unfold Object.len; simpl; lia.
    + inversion Ea; subst va. inversion Eb; subst vb. inversion Ec; subst vc.
      exists t, T, h'. repeat split; assumption.
  - destruct (Scenario eq_refl eq_refl)
      as (t & T & h' & HL & _ & _ & _ & _ & HR & _ & _ & HA).
    exists t, h'. repeat split; assumption.
Defined.

(** ** The loader: lines passed over, errors and counts *)

Lemma Split_nonempty (s : string) : strings.Split s <> [].
Proof.
  induction s as [|c s IH]; simpl; [discriminate|].
  destruct (Ascii.eqb c " "); [discriminate|].
  destruct (strings.Split s); discriminate.
Qed.

Lemma index_inv {A : Type} (l : list A) (i : Z) (x : A) (h h' : Heap) :
  Object.index l i h = Done x h' -> h' = h /\ 0 <= i /\ l !! Z.to_nat i = Some x.
Proof.
  unfold Object.index.
  destruct (Z.ltb_spec i 0); [discriminate|]. cbn [orb].
  destruct (Object.len l <=? i); [discriminate|].
  destruct (l !! Z.to_nat i) as [y|] eqn:E; [|discriminate].
  intros H'. inversion H'; subst. auto.
Qed.

Ltac split_matches H :=
  repeat (match type of H with
          | context [match ?x with _ => _ end] => destruct x
          end; cbv beta iota in H).

Section LoaderEffects.

Variable ParseFloat : string -> option float64.

Lemma parseVector_fields_error (line : string) (n : Z) (e : error) :
  Object.parseVector_fields ParseFloat line n = inr e -> lineCnt_of e = Some n.
Proof.
  unfold Object.parseVector_fields. intros H.
  split_matches H; inversion H; reflexivity.
Qed.

Lemma parseFace_fields_error (line : string) (n : Z) (e : error) :
  Object.parseFace_fields line n = inr e -> lineCnt_of e = Some n.
Proof.
  unfold Object.parseFace_fields. intros H.
  split_matches H; inversion H; reflexivity.
Qed.

Lemma parseFaceColor_fields_error (ts : list ptr) (line : string) (n : Z) (e : error) :
  Object.parseFaceColor_fields ts line n = inr e ->
  lineCnt_of e = Some n /\ format e <> "too few color entries in line %d: %s".
Proof.
  unfold Object.parseFaceColor_fields.
  destruct (Z.ltb_spec (Object.len (strings.Split (strings.TrimSpace line))) 1) as [L|_].
  { exfalso. pose proof (Split_nonempty (strings.TrimSpace line)) as N.
    unfold Object.len in L. destruct (strings.Split (strings.TrimSpace line)); [congruence|].
    simpl in L. lia. }
  intros H.
  split_matches H; inversion H; (split; [reflexivity | discriminate]).
Qed.

Lemma parseVector_inv (line : string) (n : Z) (p : ptr) (oe : option error) (h h' : Heap) :
  Object.parseVector ParseFloat line n h = Done (p, oe) h' ->
  match oe with
  | Some e => h' = h /\ lineCnt_of e = Some n
  | None => p = Some (length (vectors h))
            /\ exists v : Vector, h' = mkHeap (vectors h ++ [v]) (triangles h)
  end.
Proof.
  unfold Object.parseVector.
  destruct (Object.parseVector_fields ParseFloat line n) as [v|e] eqn:E.
  - intros H. inversion H; subst. split; [reflexivity|]. exists v. reflexivity.
  - intros H. inversion H; subst. split; [reflexivity|].
    eapply parseVector_fields_error; exact E.
Qed.

Lemma parseFace_inv (pts : list ptr) (line : string) (n : Z) (t : ptr)
      (oe : option error) (h h' : Heap) :
  Object.parseFace pts line n h = Done (t, oe) h' ->
  match oe with
  | Some e => h' = h /\ lineCnt_of e = Some n
  | None => t = Some (length (triangles h))
            /\ exists (v : Vector) (T : Triangle),
                h' = mkHeap (vectors h ++ [v]) (triangles h ++ [T])
  end.
Proof.
  unfold Object.parseFace.
  destruct (Object.parseFace_fields line n) as [[[i1 i2] i3]|e] eqn:E.
  - intros H.
    apply bind_inv in H as (a & h1 & Ha & H). apply index_inv in Ha as (-> & _).
    apply bind_inv in H as (b & h1 & Hb & H). apply index_inv in Hb as (-> & _).
    apply bind_inv in H as (c & h1 & Hc & H). apply index_inv in Hc as (-> & _).
    inversion H; subst. split; [reflexivity|]. eexists _, _. reflexivity.
  - intros H. inversion H; subst. split; [reflexivity|].
    eapply parseFace_fields_error; exact E.
Qed.

Lemma parseFaceColor_inv (ts : list ptr) (line : string) (n : Z)
      (oe : option error) (h h' : Heap) :
  Object.parseFaceColor ts line n h = Done oe h' ->
  match oe with
  | Some e => h' = h /\ lineCnt_of e = Some n
  | None =>
      exists (i r g b a : Z) (j : nat) (T : Triangle),
        Object.parseFaceColor_fields ts line n = inl (i, r, g, b, a)
        /\ ts !! Z.to_nat (i - 1) = Some (Some j)
        /\ triangles h !! j = Some T
        /\ h' = mkHeap (vectors h) (<[j := set_color T (Object.pack r g b a)]> (triangles h))
  end.
Proof.
  unfold Object.parseFaceColor.
  destruct (Object.parseFaceColor_fields ts line n) as [[[[[i r] g] b] a]|e] eqn:E.
  - intros H.
    apply bind_inv in H as (t & h1 & Ht & H). apply index_inv in Ht as (-> & _ & Lt).
    apply bind_inv in H as (T & h1 & HT & H).
    apply get_Triangle_inv in HT as (-> & j & -> & LT).
    apply bind_inv in H as (u & h1 & Hp & H).
    apply put_Triangle_inv in Hp as (j' & [= <-] & _ & ->).
    inversion H; subst.
    exists i, r, g, b, a, j, T. repeat split; assumption.
  - intros H. inversion H; subst. split; [reflexivity|].
    eapply parseFaceColor_fields_error; exact E.
Qed.

(** What one turn of the [switch] does, by the first two bytes of the
    line. *)
Lemma dispatch_inv (line : string) (n : Z) (pts ts pts1 ts1 : list ptr)
      (oe : option error) (h h1 : Heap) :
  Object.dispatch ParseFloat line n pts ts h = Done (pts1, ts1, oe) h1 ->
  match oe with
  | Some e =>
      lineCnt_of e = Some n
      /\ (strings.upto 2 line = "v " \/ strings.upto 2 line = "f "
          \/ strings.upto 2 line = "xc")
  | None =>
      (strings.upto 2 line = "v " /\ ts1 = ts
       /\ exists v : Vector, h1 = mkHeap (vectors h ++ [v]) (triangles h))
      \/ (strings.upto 2 line = "f " /\ ts1 = (ts ++ [Some (length (triangles h))])%list
          /\ exists (v : Vector) (T : Triangle),
              h1 = mkHeap (vectors h ++ [v]) (triangles h ++ [T]))
      \/ (strings.upto 2 line = "xc" /\ ts1 = ts
          /\ vectors h1 = vectors h /\ length (triangles h1) = length (triangles h))
      \/ (strings.upto 2 line <> "v " /\ strings.upto 2 line <> "f "
          /\ strings.upto 2 line <> "xc" /\ ts1 = ts /\ h1 = h)
  end.
Proof.
  unfold Object.dispatch. set (tag := strings.upto 2 line).
  assert (Other : forall (r : list ptr * list ptr * option error),
             tag <> "v " -> tag <> "f " -> tag <> "xc" ->
             ret (pts, ts, None) h = Done (pts1, ts1, oe) h1 ->
             match oe with
             | Some e => lineCnt_of e = Some n /\ (tag = "v " \/ tag = "f " \/ tag = "xc")
             | None =>
                 (tag = "v " /\ ts1 = ts
                  /\ exists v : Vector, h1 = mkHeap (vectors h ++ [v]) (triangles h))
                 \/ (tag = "f " /\ ts1 = (ts ++ [Some (length (triangles h))])%list
                     /\ exists (v : Vector) (T : Triangle),
                         h1 = mkHeap (vectors h ++ [v]) (triangles h ++ [T]))
                 \/ (tag = "xc" /\ ts1 = ts
                     /\ vectors h1 = vectors h /\ length (triangles h1) = length (triangles h))
                 \/ (tag <> "v " /\ tag <> "f " /\ tag <> "xc" /\ ts1 = ts /\ h1 = h)
             end).
  { intros _ N1 N2 N3 H. inversion H; subst. right. right. right. auto. }
  destruct (String.eqb_spec tag "# ") as [E|_].
  { apply (Other (pts, ts, None)); rewrite E; discriminate. }
  destruct (String.eqb_spec tag "v ") as [E|Nv].
  { intros H. apply bind_inv in H as ([p oe'] & h2 & Hp & H).
    unfold ret in H. cbn [fst snd] in H. injection H as <- <- <- <-.
    apply parseVector_inv in Hp. destruct oe' as [e|].
    - destruct Hp as [_ Hp]. auto.
    - destruct Hp as [_ [v ->]]. left. repeat split; [exact E|]. exists v. reflexivity. }
  destruct (String.eqb_spec tag "vt") as [E|_].
  { apply (Other (pts, ts, None)); rewrite E; discriminate. }
  destruct (String.eqb_spec tag "vn") as [E|_].
  { apply (Other (pts, ts, None)); rewrite E; discriminate. }
  destruct (String.eqb_spec tag "vp") as [E|_].
  { apply (Other (pts, ts, None)); rewrite E; discriminate. }
  destruct (String.eqb_spec tag "f ") as [E|Nf].
  { intros H. apply bind_inv in H as ([t oe'] & h2 & Hp & H).
    unfold ret in H. cbn [fst snd] in H. injection H as <- <- <- <-.
    apply parseFace_inv in Hp. destruct oe' as [e|].
    - destruct Hp as [_ Hp]. auto.
    - destruct Hp as [-> (v & T & ->)]. right. left.
      repeat split; [exact E|]. exists v, T. reflexivity. }
  destruct (String.eqb_spec tag "l ") as [E|_].
  { apply (Other (pts, ts, None)); rewrite E; discriminate. }
  destruct (String.eqb_spec tag "xc") as [E|Nx].
  { intros H. apply bind_inv in H as (oe' & h2 & Hp & H).
    unfold ret in H. injection H as <- <- <- <-.
    apply parseFaceColor_inv in Hp. destruct oe' as [e|].
    - destruct Hp as [_ Hp]. auto.
    - destruct Hp as (i & r & g & b & a & j & T & _ & _ & _ & ->).
      right. right. left. repeat split; [exact E|].
      cbn [triangles]. apply length_insert. }
  apply (Other (pts, ts, None)); assumption.
Qed.

Lemma scan_step (line : string) (lines : list string) (n : Z) (pts ts : list ptr)
      (r : Object.Object + error) (h h' : Heap) :
  (String.length line <> 0)%nat ->
  Object.scan ParseFloat (line :: lines) n pts ts h = Done r h' ->
  (2 <= String.length line)%nat
  /\ exists (pts1 ts1 : list ptr) (oe : option error) (h1 : Heap),
      Object.dispatch ParseFloat line (n + 1) pts ts h = Done (pts1, ts1, oe) h1
      /\ match oe with
         | Some e => r = inr e /\ h' = h1
         | None => Object.scan ParseFloat lines (n + 1) pts1 ts1 h1 = Done r h'
         end.
Proof.
  intros Hlen. cbn [Object.scan].
  destruct (Nat.eqb_spec (String.length line) 0) as [?|_]; [contradiction|].
  destruct (Nat.ltb_spec (String.length line) 2) as [?|L2]; [discriminate|].
  intros H. split; [exact L2|].
  apply bind_inv in H as ([[pts1 ts1] oe] & h1 & Hd & H).
  exists pts1, ts1, oe, h1. split; [exact Hd|].
  destruct oe as [e|]; [inversion H; auto | exact H].
Qed.

Lemma scan_passed_over (line : string) (lines : list string) (n : Z)
      (pts ts : list ptr) (h : Heap) :
  passed_over line = true ->
  Object.scan ParseFloat (line :: lines) n pts ts h
  = Object.scan ParseFloat lines (n + 1) pts ts h.
Proof.
  unfold passed_over. intros H. cbn [Object.scan].
  destruct (Nat.eqb_spec (String.length line) 0) as [?|_]; [reflexivity|].
  cbn [orb] in H. apply andb_prop in H as [H Hx]. apply andb_prop in H as [H Hf].
  apply andb_prop in H as [H Hv]. apply Nat.leb_le in H.
  destruct (Nat.ltb_spec (String.length line) 2) as [?|_]; [lia|].
  unfold Object.dispatch. set (tag := strings.upto 2 line) in *.
  apply negb_true_iff in Hv, Hf, Hx. rewrite Hv, Hf, Hx.
  repeat match goal with
         | |- context [if String.eqb tag ?s then _ else _] => destruct (String.eqb tag s)
         end; reflexivity.
Qed.

Lemma scan_passed_over_all (lines rest : list string) (n : Z)
      (pts ts : list ptr) (h : Heap) :
  Forall (fun line => passed_over line = true) lines ->
  Object.scan ParseFloat (lines ++ rest) n pts ts h
  = Object.scan ParseFloat rest (n + Object.len lines) pts ts h.
Proof.
  intros H. revert n. induction H as [|line lines Hl _ IH]; intros n.
  - unfold Object.len. simpl. rewrite Z.add_0_r. reflexivity.
  - rewrite <- app_comm_cons, scan_passed_over by exact Hl.
    rewrite IH. f_equal. unfold Object.len. simpl length. lia.
Qed.

(** X19.  [LoadObject] passes over empty lines and over the lines that
    start with none of ["v "], ["f "] and ["xc"], comments among them:
    they change neither the store nor what is loaded, they only count as
    lines.  A file of such lines alone loads to an object with no
    triangle and no offset. *)
Theorem LoadObject_passes_over_other_lines
        (lines rest : list string) (h : Heap) :
  Forall (fun line => passed_over line = true) lines ->
  Object.LoadObject ParseFloat (lines ++ rest) h
  = Object.scan ParseFloat rest (Object.len lines) [] [] h
  /\ Object.LoadObject ParseFloat lines h = Done (inl (Object.mk [] None)) h.
Proof.
  intros H. unfold Object.LoadObject. split.
  - rewrite scan_passed_over_all by exact H. reflexivity.
  - rewrite <- (app_nil_r lines), scan_passed_over_all by exact H. reflexivity.
Qed.

(** X20.  A line of one byte makes [LoadObject] panic (the slice
    [line[:2]] is out of range), also after lines that were passed
    over. *)
Theorem LoadObject_line_of_one_byte_panics
        (lines rest : list string) (c : ascii) (h : Heap) :
  Forall (fun line => passed_over line = true) lines ->
  Object.LoadObject ParseFloat (lines ++ String c EmptyString :: rest) h = Panic.
Proof.
  intros H. unfold Object.LoadObject.
  rewrite scan_passed_over_all by exact H. reflexivity.
Qed.

Lemma scan_error_line (lines : list string) :
  forall (n : Z) (pts ts : list ptr) (e : error) (h h' : Heap),
    Object.scan ParseFloat lines n pts ts h = Done (inr e) h' ->
    exists (k : nat) (line : string),
      lines !! k = Some line
      /\ lineCnt_of e = Some (n + Z.of_nat k + 1)
      /\ (strings.upto 2 line = "v " \/ strings.upto 2 line = "f "
          \/ strings.upto 2 line = "xc").
Proof.
  induction lines as [|line lines IH]; intros n pts ts e h h' H.
  - discriminate H.
  - destruct (Nat.eq_dec (String.length line) 0%nat) as [Z0|NZ].
    + cbn [Object.scan] in H. rewrite Z0 in H. cbn [Nat.eqb] in H.
      apply IH in H as (k & l & Hk & He & Ht).
      exists (S k), l. split; [exact Hk|]. split; [|exact Ht].
      rewrite He. f_equal. lia.
    + apply scan_step in H as (_ & pts1 & ts1 & oe & h1 & Hd & H); [|exact NZ].
      apply dispatch_inv in Hd. destruct oe as [e'|].
      * destruct H as [[= <-] _]. destruct Hd as [He Ht].
        exists 0%nat, line. split; [reflexivity|]. split; [|exact Ht].
        rewrite He. f_equal. lia.
      * apply IH in H as (k & l & Hk & He & Ht).
        exists (S k), l. split; [exact Hk|]. split; [|exact Ht].
        rewrite He. f_equal. lia.
Qed.

(** X21.  An error of [LoadObject] carries the number, counted from 1 and
    with the lines passed over counted in, of the line that caused it, and
    that line starts with ["v "], ["f "] or ["xc"].  A vertex line with
    fewer than three values is such a line. *)
Theorem LoadObject_error_names_its_line (lines : list string) (h : Heap) :
  (forall (e : error) (h' : Heap),
      Object.LoadObject ParseFloat lines h = Done (inr e) h' ->
      exists (k : nat) (line : string),
        lines !! k = Some line
        /\ lineCnt_of e = Some (Z.of_nat k + 1)
        /\ (strings.upto 2 line = "v " \/ strings.upto 2 line = "f "
            \/ strings.upto 2 line = "xc"))
  /\ (forall (body : string) (rest : list string),
         Forall (fun line => passed_over line = true) lines ->
         Object.len (strings.Split (strings.TrimSpace (" " ++ body))) < 3 ->
         Object.LoadObject ParseFloat (lines ++ ("v " ++ body) :: rest) h
         = Done (inr (Errorf "too few values in line %d: %s"
                             [Int (Object.len lines + 1); Str (" " ++ body)])) h).
Proof.
  split.
  - intros e h' H. unfold Object.LoadObject in H.
    apply scan_error_line in H as (k & l & Hk & He & Ht).
    exists k, l. split; [exact Hk|]. split; [exact He | exact Ht].
  - intros body rest Hp Hs. unfold Object.LoadObject.
    rewrite scan_passed_over_all by exact Hp.
    apply scan_error with (pts' := [None]) (ts' := []); [simpl; lia|].
    rewrite dispatch_v. unfold Object.parseVector, Object.parseVector_fields.
    apply Z.ltb_lt in Hs. rewrite Hs. reflexivity.
Qed.

Lemma tag_count_cons (tag line : string) (lines : list string) :
  tag_count tag (line :: lines)
  = ((if String.eqb (strings.upto 2 line) tag then 1 else 0) + tag_count tag lines)%nat.
Proof.
  unfold tag_count. cbn [List.filter].
  destruct (String.eqb (strings.upto 2 line) tag); reflexivity.
Qed.

Lemma scan_counts (lines : list string) :
  forall (n : Z) (pts ts : list ptr) (o : Object.Object) (h h' : Heap),
    Object.scan ParseFloat lines n pts ts h = Done (inl o) h' ->
    Object.ts o
    = (ts ++ map Some (seq (length (triangles h)) (tag_count "f " lines)))%list
    /\ Object.offset o = None
    /\ (exists new : list Vector,
           vectors h' = (vectors h ++ new)%list
           /\ length new = (tag_count "v " lines + tag_count "f " lines)%nat)
    /\ length (triangles h') = (length (triangles h) + tag_count "f " lines)%nat.
Proof.
  induction lines as [|line lines IH]; intros n pts ts o h h' H.
  - inversion H; subst. cbn [Object.ts Object.offset tag_count List.filter length seq map].
    rewrite app_nil_r. repeat split; [|lia]. exists []. rewrite app_nil_r. auto.
  - rewrite !tag_count_cons.
    destruct (Nat.eq_dec (String.length line) 0%nat) as [Z0|NZ].
    + cbn [Object.scan] in H. rewrite Z0 in H. cbn [Nat.eqb] in H.
      destruct line; [|discriminate Z0].
      apply IH in H. exact H.
    + apply scan_step in H as (_ & pts1 & ts1 & oe & h1 & Hd & H); [|exact NZ].
      apply dispatch_inv in Hd. destruct oe as [e'|]; [destruct H; discriminate|].
      apply IH in H as (Hts & Hoff & (new & Hv & Hnew) & Htri).
      destruct Hd as [(E & -> & v & ->)
                     | [(E & -> & v & T & ->)
                       | [(E & -> & Ev & Et) | (N1 & N2 & N3 & -> & ->)]]].
      * rewrite E. cbn [String.eqb Ascii.eqb Bool.eqb andb Nat.add].
        cbn [vectors triangles] in *.
        split; [exact Hts|]. split; [exact Hoff|]. split; [|exact Htri].
        exists (v :: new). rewrite Hv, <- app_assoc. split; [reflexivity|].
        simpl length. lia.
      * rewrite E. cbn [String.eqb Ascii.eqb Bool.eqb andb Nat.add].
        cbn [vectors triangles] in *. rewrite length_app in Hts, Htri.
        cbn [length] in Hts, Htri.
        split; [rewrite Hts, <- app_assoc; cbn [app seq map];
                replace (length (triangles h) + 1)%nat with (S (length (triangles h)))
                  by lia; reflexivity|].
        split; [exact Hoff|]. split; [|lia].
        exists (v :: new). rewrite Hv, <- app_assoc. split; [reflexivity|].
        simpl length. lia.
      * rewrite E. cbn [String.eqb Ascii.eqb Bool.eqb andb Nat.add].
        rewrite Et in Hts, Htri. rewrite Ev in Hv.
        split; [exact Hts|]. split; [exact Hoff|]. split; [|exact Htri].
        exists new. auto.
      * apply String.eqb_neq in N1, N2. rewrite N1, N2. cbn [Nat.add].
        split; [exact Hts|]. split; [exact Hoff|]. split; [|exact Htri].
        exists new. auto.
Qed.

(** X22.  When [LoadObject] returns an object, the object holds one
    triangle for every line that starts with ["f "], in the order of the
    lines and all of them new in the store, and it has no offset; the
    store has grown by one vector for every ["v "] line and one (the
    normal) for every ["f "] line, and no vector it held was written
    to. *)
Theorem LoadObject_counts_the_lines
        (lines : list string) (o : Object.Object) (h h' : Heap) :
  Object.LoadObject ParseFloat lines h = Done (inl o) h' ->
  Object.ts o = map Some (seq (length (triangles h)) (tag_count "f " lines))
  /\ Object.offset o = None
  /\ (exists new : list Vector,
         vectors h' = (vectors h ++ new)%list
         /\ length new = (tag_count "v " lines + tag_count "f " lines)%nat)
  /\ length (triangles h') = (length (triangles h) + tag_count "f " lines)%nat.
Proof.
  intros H. unfold Object.LoadObject in H. apply scan_counts in H. exact H.
Qed.

(** X23.  [parseFaceColor] writes nothing but the color of one triangle
    of the object: the vectors, the number of triangles, every other
    triangle and the other fields of that triangle stay as they are, and
    the new color is a [uint32].  When it returns an error the store is
    as it was. *)
Theorem parseFaceColor_changes_one_color
        (ts : list ptr) (line : string) (n : Z) (oe : option error) (h h' : Heap) :
  Object.parseFaceColor ts line n h = Done oe h' ->
  vectors h' = vectors h
  /\ length (triangles h') = length (triangles h)
  /\ (forall e : error, oe = Some e -> h' = h)
  /\ (oe = None ->
      exists (j : nat) (T T' : Triangle),
        In (Some j) ts
        /\ triangles h !! j = Some T
        /\ triangles h' !! j = Some T'
        /\ vs0 T' = vs0 T /\ vs1 T' = vs1 T /\ vs2 T' = vs2 T
        /\ normal T' = normal T /\ normalI T' = normalI T /\ incident T' = incident T
        /\ 0 <= color T' < 2 ^ 32
        /\ forall j' : nat, j' <> j -> triangles h' !! j' = triangles h !! j').
Proof.
  intros H. apply parseFaceColor_inv in H. destruct oe as [e|].
  - destruct H as [-> _]. repeat split; try discriminate. 
  - destruct H as (i & r & g & b & a & j & T & _ & Lt & LT & ->).
    cbn [vectors triangles].
    split; [reflexivity|]. split; [apply length_insert|]. split; [discriminate|].
    intros _. exists j, T, (set_color T (Object.pack r g b a)).
    split; [apply list_elem_of_In; eapply list_elem_of_lookup_2; exact Lt|].
    split; [exact LT|].
    split; [apply list_lookup_insert_eq; eapply lookup_lt_Some; exact LT|].
    cbn [set_color vs0 vs1 vs2 normal normalI incident color].
    repeat (split; [reflexivity|]).
    split.
    + rewrite pack_value.
      pose proof (uint8_range r). pose proof (uint8_range g).
      pose proof (uint8_range b). pose proof (uint8_range a). lia.
    + intros j' Hj. apply list_lookup_insert_ne. congruence.
Qed.

End LoaderEffects.

Lemma LoadObject_passes_over_other_lines_witness :
  Object.LoadObject (fun _ => None) ["# a cube"; ""; "vt 0 0"; "o cube"] empty_heap
  = Done (inl (Object.mk [] None)) empty_heap.
Proof.
  apply (LoadObject_passes_over_other_lines (fun _ => None)
           ["# a cube"; ""; "vt 0 0"; "o cube"] [] empty_heap).
  repeat constructor.
Defined.

Lemma LoadObject_line_of_one_byte_panics_witness :
  Object.LoadObject (fun _ => None) (["# a cube"] ++ ["#"; "v 0 0 0"]) empty_heap = Panic.
Proof.
  apply (LoadObject_line_of_one_byte_panics (fun _ => None) ["# a cube"] ["v 0 0 0"] "#"
           empty_heap).
  repeat constructor.
Defined.

Lemma LoadObject_error_names_its_line_witness :
  Object.LoadObject (fun _ => None) (["# a cube"; ""] ++ ["v 1 2"]) empty_heap
  = Done (inr (Errorf "too few values in line %d: %s" [Int 3; Str " 1 2"])) empty_heap.
Proof.
  apply (proj2 (LoadObject_error_names_its_line (fun _ => None) ["# a cube"; ""] empty_heap)
           "1 2" []).
  - repeat constructor.
  - vm_compute. reflexivity.
Defined.

Lemma LoadObject_counts_the_lines_witness :
  exists (o : Object.Object) (h' : Heap),
    Object.LoadObject ParseFloat_of_digits scenario empty_heap = Done (inl o) h'
    /\ Object.ts o = [Some 0%nat]
    /\ length (vectors h') = 4%nat.
Proof.
  assert (L : exists (o : Object.Object) (h' : Heap),
             Object.LoadObject ParseFloat_of_digits scenario empty_heap = Done (inl o) h')
    by (eexists _, _; unfold scenario; vm_compute; reflexivity).
  destruct L as (o & h' & L).
  destruct (LoadObject_counts_the_lines ParseFloat_of_digits scenario o empty_heap h' L)
    as (Hts & _ & (new & Hv & Hn) & _).
  exists o, h'. split; [exact L|]. split; [exact Hts|].
  rewrite Hv, length_app, Hn. reflexivity.
Defined.

Lemma parseFaceColor_changes_one_color_witness :
  exists h' : Heap,
    Object.parseFaceColor [Some 0%nat] " 1 255 0 0" 1 unit_store = Done None h'
    /\ vectors h' = vectors unit_store.
Proof.
  assert (H : Object.parseFaceColor [Some 0%nat] " 1 255 0 0" 1 unit_store
              = Done None
                     (mkHeap (vectors unit_store)
                             (<[0%nat := set_color unit_triangle (Object.pack 255 0 0 255)]>
                                [unit_triangle]))).
  { apply (parseFaceColor_Done " 1 255 0 0" 1 1 255 0 0 255 0 unit_triangle
             [Some 0%nat] (vectors unit_store) [unit_triangle]).
    - reflexivity.
    - lia.
    - reflexivity.
    - reflexivity. }
  eexists. split; [exact H|].
  apply (parseFaceColor_changes_one_color _ _ _ _ _ _ H).
Defined.

(** ** The channels of an ["xc"] line *)

(** X24.  [parseFaceColor] never returns its error ["too few color
    entries"]: [strings.Split] returns at least one field.  An ["xc"] line
    with an index alone gives the color [0x000000FF] (red, green and blue
    0, alpha 255), and fields after the fifth are not read. *)
Theorem parseFaceColor_defaults (ts : list ptr) (line : string) (n : Z) :
  (forall e : error,
      Object.parseFaceColor_fields ts line n = inr e ->
      format e <> "too few color entries in line %d: %s")
  /\ (forall (f0 : string) (i : Z),
         strings.Split (strings.TrimSpace line) = [f0] ->
         decimal f0 = Some i ->
         1 <= i <= Z.min 255 (Object.len ts) ->
         Object.parseFaceColor_fields ts line n = inl (i, 0, 0, 0, 255)
         /\ Object.pack 0 0 0 255 = 255)
  /\ (forall (f0 f1 f2 f3 f4 : string) (extra : list string) (line' : string)
             (v : Z * Z * Z * Z * Z),
         strings.Split (strings.TrimSpace line) = f0 :: f1 :: f2 :: f3 :: f4 :: extra ->
         strings.Split (strings.TrimSpace line') = [f0; f1; f2; f3; f4] ->
         Object.parseFaceColor_fields ts line' n = inl v ->
         Object.parseFaceColor_fields ts line n = inl v).
Proof.
  split; [|split].
  - intros e H. apply parseFaceColor_fields_error in H. apply H.
  - intros f0 i Hs Hd Hi. split; [|reflexivity].
    unfold Object.parseFaceColor_fields. rewrite Hs.
    change (Object.len [f0]) with 1. cbn [nth].
    assert (E : strconv.ParseUint f0 8 = (i, None))
      by (apply ParseUint_spec; split; [exact Hd | lia]).
    rewrite E.
    destruct (Z.ltb_spec i 1); [lia|].
    destruct (Z.gtb_spec i (Object.len ts)); [lia|].
    reflexivity.
  - intros f0 f1 f2 f3 f4 extra line' v Hs Hs'.
    unfold Object.parseFaceColor_fields. rewrite Hs, Hs'.
    change (Object.len [f0; f1; f2; f3; f4]) with 5.
    assert (Hl : 5 <= Object.len (f0 :: f1 :: f2 :: f3 :: f4 :: extra))
      by (unfold Object.len; simpl length; lia).
    generalize dependent (Object.len (f0 :: f1 :: f2 :: f3 :: f4 :: extra)).
    intros l Hl. cbn [nth].
    destruct (Z.ltb_spec l 1); [lia|].
    destruct (Z.gtb_spec l 1); [|lia]. destruct (Z.gtb_spec l 2); [|lia].
    destruct (Z.gtb_spec l 3); [|lia]. destruct (Z.gtb_spec l 4); [|lia].
    change (5 <? 1) with false. change (5 >? 1) with true. change (5 >? 2) with true.
    change (5 >? 3) with true. change (5 >? 4) with true. cbv beta iota.
    repeat match goal with
           | |- context [match ?x with _ => _ end] => destruct x
           end; intros H'; try discriminate H'; exact H'.
Qed.

Lemma parseFaceColor_defaults_witness :
  Object.parseFaceColor_fields [Some 0%nat] " 1" 7 = inl (1, 0, 0, 0, 255).
Proof.
  apply (proj1 (proj2 (parseFaceColor_defaults [Some 0%nat] " 1" 7)) "1" 1).
  - reflexivity.
  - reflexivity.
  - unfold Object.len. simpl. lia.
Defined.

(** ** The methods of an object *)

Section ObjectMethods.

Local Open Scope nat_scope.

Lemma unchanged_refl (h : Heap) : unchanged h h.
Proof. split; auto. Qed.

Lemma unchanged_trans (h1 h2 h3 : Heap) :
  unchanged h1 h2 -> unchanged h2 h3 -> unchanged h1 h3.
Proof. intros [V1 T1] [V2 T2]. split; auto. Qed.

Lemma Done_eq {A : Type} (a b : A) (h : Heap) : Done a h = Done b h -> a = b.
Proof. intros H. inversion H. reflexivity. Qed.

Lemma complete_unchanged (h h' : Heap) (t : ptr) :
  unchanged h h' -> complete h t -> complete h' t.
Proof.
  intros [UV UT] [(T & a & b & c & Ht & Ha & Hb & Hc) (T0 & n & Ht0 & Hn)].
  split; [exists T, a, b, c | exists T0, n]; auto 6.
Qed.

Lemma image_source (f : Vector -> Vector) (h h1 h' : Heap) (t t' : ptr) :
  complete h t -> unchanged h h1 -> image f h1 h' t t' -> image f h h' t t'.
Proof.
  intros [(T & a & b & c & Ht & Ha & Hb & Hc) (T0 & n & Ht0 & Hn)] [UV UT]
         (T1 & T' & a1 & b1 & c1 & n1 & Ht1 & Ha1 & Hb1 & Hc1 & Hn1 & Rest).
  rewrite Ht in Ht0. apply Done_eq in Ht0. subst T0.
  pose proof (UT _ _ Ht) as Ht'. rewrite Ht' in Ht1. apply Done_eq in Ht1. subst T1.
  pose proof (UV _ _ Ha) as Ha'. rewrite Ha' in Ha1. apply Done_eq in Ha1. subst a1.
  pose proof (UV _ _ Hb) as Hb'. rewrite Hb' in Hb1. apply Done_eq in Hb1. subst b1.
  pose proof (UV _ _ Hc) as Hc'. rewrite Hc' in Hc1. apply Done_eq in Hc1. subst c1.
  pose proof (UV _ _ Hn) as Hn'. rewrite Hn' in Hn1. apply Done_eq in Hn1. subst n1.
  exists T, T', a, b, c, n. auto 15.
Qed.

Lemma image_source_all (f : Vector -> Vector) (h h1 h' : Heap) (l l' : list ptr) :
  Forall (complete h) l -> unchanged h h1 ->
  Forall2 (image f h1 h') l l' -> Forall2 (image f h h') l l'.
Proof.
  intros Hc U H. induction H as [|t t' l l' Hi _ IH]; [constructor|].
  inversion Hc; subst. constructor; [eapply image_source; eassumption | auto].
Qed.

Lemma newInstance_each_Done (l : list ptr) :
  forall h : Heap,
    Forall (complete h) l ->
    exists h' : Heap,
      Object.newInstance_each l h
      = Done (map Some (seq (length (triangles h)) (length l))) h'
      /\ unchanged h h'
      /\ length (triangles h') = length (triangles h) + length l
      /\ Forall2 (image (fun v => v) h h') l
                 (map Some (seq (length (triangles h)) (length l))).
Proof.
  induction l as [|t l IH]; intros h Hl.
  - exists h. split; [reflexivity|]. split; [apply unchanged_refl|].
    split; [simpl; lia | constructor].
  - inversion Hl as [|? ? Ht Hl']; subst.
    pose proof Ht as [(T & a & b & c & HT & Ha & Hb & Hc) (T0 & n & HT0 & Hn)].
    rewrite HT in HT0. apply Done_eq in HT0. subst T0.
    destruct h as [vs ts].
    pose proof (NewInstance_Done vs ts t T a b c HT Ha Hb Hc n Hn) as HN.
    set (h1 := mkHeap (vs ++ [a; b; c; n])
                      (ts ++ [mkTriangle (Some (length vs)) (Some (length vs + 1))
                                         (Some (length vs + 2)) (Some (length vs + 3))
                                         0%R 0%R (color T)])) in *.
    assert (U1 : unchanged (mkHeap vs ts) h1) by apply (unchanged_app (mkHeap vs ts)).
    assert (Hl1 : Forall (complete h1) l).
    { eapply Forall_impl; [exact Hl'|]. intros x. apply complete_unchanged. exact U1. }
    destruct (IH h1 Hl1) as (h' & HE & U & Hlen & HF).
    assert (L1 : length (triangles h1) = S (length ts)).
    { unfold h1. cbn [triangles]. rewrite length_app. simpl. lia. }
    rewrite L1 in HE, Hlen, HF.
    exists h'. cbn [Object.newInstance_each triangles length seq map].
    split; [|split; [|split]].
    + rewrite (bind_Done _ _ _ _ _ HN). rewrite (bind_Done _ _ _ _ _ HE). reflexivity.
    + eapply unchanged_trans; eassumption.
    + lia.
    + constructor.
      * destruct U as [UV UT].
        exists T, (mkTriangle (Some (length vs)) (Some (length vs + 1))
                              (Some (length vs + 2)) (Some (length vs + 3))
                              0%R 0%R (color T)), a, b, c, n.
        repeat (split; [assumption|]).
        split; [apply UT; apply get_Triangle_behind|].
        cbn [vs0 vs1 vs2 normal normalI incident color].
        split; [apply UV; rewrite <- (Nat.add_0_r (length vs)) at 1;
                apply get_Vector_behind; reflexivity|].
        split; [apply UV; apply get_Vector_behind; reflexivity|].
        split; [apply UV; apply get_Vector_behind; reflexivity|].
        split; [apply UV; apply get_Vector_behind; reflexivity|].
        repeat split.
      * eapply image_source_all; eassumption.
Qed.

(** What [applyMatrix] does to its receiver and leaves alone. *)
Lemma applyMatrix_effect (h : Heap) (t : ptr) (T : Triangle) (a b c : Vector)
      (m : Matrix4X4) :
  get_Triangle t h = Done T h ->
  get_Vector (vs0 T) h = Done a h ->
  get_Vector (vs1 T) h = Done b h ->
  get_Vector (vs2 T) h = Done c h ->
  exists (T' : Triangle) (h' : Heap),
    Triangle.applyMatrix t m h = Done tt h'
    /\ get_Triangle t h' = Done T' h'
    /\ get_Vector (vs0 T') h' = Done (Vector.MatrixMultiply a m) h'
    /\ get_Vector (vs1 T') h' = Done (Vector.MatrixMultiply b m) h'
    /\ get_Vector (vs2 T') h' = Done (Vector.MatrixMultiply c m) h'
    /\ normal T' = normal T
    /\ normalI T' = normalI T
    /\ incident T' = incident T
    /\ color T' = color T
    /\ (forall (p : ptr) (v : Vector),
          get_Vector p h = Done v h -> get_Vector p h' = Done v h')
    /\ (forall (t2 : ptr) (T2 : Triangle),
          t2 <> t -> get_Triangle t2 h = Done T2 h -> get_Triangle t2 h' = Done T2 h')
    /\ length (triangles h') = length (triangles h).
Proof.
  intros Ht Ha Hb Hc. destruct h as [vs ts].
  destruct (get_Triangle_inv _ _ _ _ Ht) as (_ & i & -> & L). simpl in L.
  assert (Hi : i < length ts) by (eapply lookup_lt_Some; exact L).
  eexists _, _.
  split; [apply (applyMatrix_Done vs ts (Some i) T a b c Ht Ha Hb Hc i m eq_refl)|].
  split; [apply get_Triangle_inserted; exact Hi|].
  cbn [vs0 vs1 vs2 normal normalI incident color].
  split; [rewrite <- (Nat.add_0_r (length vs)) at 1;
          apply get_Vector_behind; reflexivity|].
  split; [apply get_Vector_behind; reflexivity|].
  split; [apply get_Vector_behind; reflexivity|].
  repeat (split; [reflexivity|]).
  split; [|split].
  - intros p v H. eapply get_Vector_grown. exact H.
  - intros t2 T2 Hne H. apply get_Triangle_inv in H as (_ & j & -> & Lj). simpl in Lj.
    apply get_Triangle_lookup. simpl.
    rewrite list_lookup_insert_ne; [exact Lj|]. intros ->. apply Hne. reflexivity.
  - simpl. apply length_insert.
Qed.

Lemma applyMatrix_each_Done (m : Matrix4X4) (l : list ptr) :
  forall h : Heap,
    NoDup l -> Forall (loaded h) l ->
    exists h' : Heap,
      Object.applyMatrix_each l m h = Done tt h'
      /\ (forall (p : ptr) (v : Vector),
            get_Vector p h = Done v h -> get_Vector p h' = Done v h')
      /\ (forall (t2 : ptr) (T2 : Triangle),
            t2 ∉ l -> get_Triangle t2 h = Done T2 h -> get_Triangle t2 h' = Done T2 h')
      /\ (forall (t : ptr) (T : Triangle) (a b c : Vector),
            t ∈ l ->
            get_Triangle t h = Done T h ->
            get_Vector (vs0 T) h = Done a h ->
            get_Vector (vs1 T) h = Done b h ->
            get_Vector (vs2 T) h = Done c h ->
            exists T' : Triangle,
              get_Triangle t h' = Done T' h'
              /\ get_Vector (vs0 T') h' = Done (Vector.MatrixMultiply a m) h'
              /\ get_Vector (vs1 T') h' = Done (Vector.MatrixMultiply b m) h'
              /\ get_Vector (vs2 T') h' = Done (Vector.MatrixMultiply c m) h'
              /\ normal T' = normal T /\ normalI T' = normalI T
              /\ incident T' = incident T /\ color T' = color T).
Proof.
  induction l as [|t l IH]; intros h Hnd Hl.
  - exists h. repeat split; auto. intros t T a b c Hin. inversion Hin.
  - apply NoDup_cons in Hnd as [Hnotin Hnd'].
    inversion Hl as [|? ? Ht Hl']; subst.
    destruct Ht as (T & a & b & c & HT & Ha & Hb & Hc).
    destruct (applyMatrix_effect h t T a b c m HT Ha Hb Hc)
      as (T' & h1 & HA & HT' & Ha' & Hb' & Hc' & En & EnI & Ei & Ec & KV & KT & _).
    assert (Hl1 : Forall (loaded h1) l).
    { apply Forall_forall. intros x Hx.
      rewrite Forall_forall in Hl'.
      destruct (Hl' x Hx) as (Tx & ax & bx & cx & H1 & H2 & H3 & H4).
      exists Tx, ax, bx, cx.
      split; [apply KT; [|exact H1]; intros ->; apply Hnotin; exact Hx|]. auto. }
    destruct (IH h1 Hnd' Hl1) as (h' & HE & KV' & KT' & Img).
    exists h'. cbn [Object.applyMatrix_each].
    split; [rewrite (bind_Done _ _ _ _ _ HA); exact HE|].
    split; [auto|]. split.
    + intros t2 T2 Hn2 H2. apply not_elem_of_cons in Hn2 as [Hne Hnl].
      apply KT'; [exact Hnl|]. apply KT; assumption.
    + intros t0 T0 a0 b0 c0 Hin H0 H1 H2 H3.
      apply elem_of_cons in Hin as [->|Hin].
      * rewrite HT in H0. apply Done_eq in H0. subst T0.
        rewrite Ha in H1. apply Done_eq in H1. subst a0.
        rewrite Hb in H2. apply Done_eq in H2. subst b0.
        rewrite Hc in H3. apply Done_eq in H3. subst c0.
        exists T'. split; [apply KT'; assumption|].
        split; [apply KV'; exact Ha'|]. split; [apply KV'; exact Hb'|].
        split; [apply KV'; exact Hc'|]. auto.
      * apply (Img t0 T0 a0 b0 c0 Hin); auto.
        apply KT; [intros ->; apply Hnotin; exact Hin | exact H0].
Qed.

Lemma Forall2_impl_elem {A B : Type} (P Q : A -> B -> Prop) (l : list A) (l' : list B) :
  Forall2 P l l' -> (forall x y, y ∈ l' -> P x y -> Q x y) -> Forall2 Q l l'.
Proof.
  induction 1 as [|x y l l' Hxy _ IH]; intros HPQ; constructor.
  - apply HPQ; [left | exact Hxy].
  - apply IH. intros x' y' Hy. apply HPQ. right. exact Hy.
Qed.

Lemma image_loaded (f : Vector -> Vector) (h h' : Heap) (l l' : list ptr) :
  Forall2 (image f h h') l l' -> Forall (loaded h') l'.
Proof.
  induction 1 as [|t t' l l' Hi _ IH]; constructor; [|exact IH].
  destruct Hi as (T & T' & a & b & c & n & _ & _ & _ & _ & _ & HT' & Ha & Hb & Hc & _).
  exists T', (f a), (f b), (f c). auto.
Qed.

Lemma image_target (f : Vector -> Vector) (h h1 h' : Heap) (t t' : ptr) :
  unchanged h1 h' -> image f h h1 t t' -> image f h h' t t'.
Proof.
  intros [UV UT] (T & T' & a & b & c & n & H1 & H2 & H3 & H4 & H5 & H6 & H7 & H8 & H9 & H10 & R).
  exists T, T', a, b, c, n. auto 20.
Qed.

Lemma fresh_addresses (s n : nat) (t : ptr) (T : Triangle) (V : list Vector)
      (ts : list Triangle) :
  length ts <= s ->
  get_Triangle t (mkHeap V ts) = Done T (mkHeap V ts) ->
  t ∉ (map Some (seq s n) : list ptr).
Proof.
  intros Hs H Hin. apply get_Triangle_inv in H as (_ & j & -> & L). simpl in L.
  apply lookup_lt_Some in L.
  change (map Some (seq s n)) with (Some <$> seq s n) in Hin.
  apply list_elem_of_fmap in Hin as (k & [= <-] & Hk).
  apply elem_of_seq in Hk. lia.
Qed.

Lemma unchanged_fresh (h h1 : Heap) :
  unchanged h h1 -> get_Vector (Some (length (vectors h1))) h = Panic.
Proof.
  intros [UV _]. unfold get_Vector.
  destruct (vectors h !! length (vectors h1)) as [v|] eqn:E; [|reflexivity].
  exfalso. pose proof (UV _ _ (get_Vector_lookup _ h v E)) as H.
  apply get_Vector_inv in H as (_ & a & [= <-] & L).
  apply lookup_lt_Some in L. lia.
Qed.

Lemma newInstance_Done (o : Object.Object) (h : Heap) :
  Forall (complete h) (Object.ts o) ->
  exists (o1 : Object.Object) (h1 : Heap),
    Object.newInstance o h = Done o1 h1
    /\ unchanged h h1
    /\ Forall2 (image (fun v => v) h h1) (Object.ts o) (Object.ts o1)
    /\ NoDup (Object.ts o1)
    /\ (forall (t : ptr) (T : Triangle),
          get_Triangle t h = Done T h -> t ∉ Object.ts o1)
    /\ Object.offset o1 = Object.offset o.
Proof.
  intros Hc.
  destruct (newInstance_each_Done (Object.ts o) h Hc) as (h1 & HE & U & Hlen & HF).
  eexists _, h1. split.
  { unfold Object.newInstance. rewrite (bind_Done _ _ _ _ _ HE). reflexivity. }
  cbn [Object.ts Object.offset].
  split; [exact U|]. split; [exact HF|]. split; [|split; [|reflexivity]].
  - change (map Some (seq (length (triangles h)) (length (Object.ts o))))
      with (Some <$> seq (length (triangles h)) (length (Object.ts o))).
    apply NoDup_fmap_2; [intros x y [= ->]; reflexivity | apply NoDup_seq].
  - intros t T H. destruct h as [V ts]. eapply fresh_addresses; [|exact H].
    cbn [triangles]. lia.
Qed.

Lemma transform_Done (o : Object.Object) (m : Matrix4X4) (h : Heap) :
  Forall (complete h) (Object.ts o) ->
  exists (o' : Object.Object) (h' : Heap),
    bind (Object.newInstance o) (fun o1 => Object.applyMatrix o1 m) h = Done o' h'
    /\ unchanged h h'
    /\ Forall2 (image (fun v => Vector.MatrixMultiply v m) h h')
               (Object.ts o) (Object.ts o')
    /\ Object.offset o' = Object.offset o.
Proof.
  intros Hc.
  destruct (newInstance_Done o h Hc) as (o1 & h1 & HN & [UV UT] & HF & Hnd & Hfresh & Hoff).
  destruct (applyMatrix_each_Done m (Object.ts o1) h1 Hnd (image_loaded _ _ _ _ _ HF))
    as (h2 & HE & KV & KT & Img).
  exists o1, h2. split.
  { rewrite (bind_Done _ _ _ _ _ HN). unfold Object.applyMatrix.
    rewrite (bind_Done _ _ _ _ _ HE). reflexivity. }
  split; [|split; [|exact Hoff]].
  - split; [auto|]. intros t T H. apply KT; [eapply Hfresh; exact H | apply UT; exact H].
  - eapply Forall2_impl_elem; [exact HF|].
    intros t t' Hin (T & T' & a & b & c & n & H1 & H2 & H3 & H4 & H5
                     & H6 & H7 & H8 & H9 & H10 & E1 & E2 & E3).
    destruct (Img t' T' a b c Hin H6 H7 H8 H9)
      as (T2 & G1 & G2 & G3 & G4 & F1 & F2 & F3 & F4).
    exists T, T2, a, b, c, n.
    repeat (split; [assumption|]).
    split; [rewrite F1; apply KV; exact H10|].
    split; [congruence|]. split; congruence.
Qed.

Lemma image_times (m : Matrix4X4) (h h' : Heap) (t t' : ptr) :
  image (fun v => Vector.MatrixMultiply v m) h h' t t' -> image (times m) h h' t t'.
Proof.
  unfold image. intros (T & T' & a & b & c & n & H).
  exists T, T', a, b, c, n. rewrite <- !MatrixMultiply_times. exact H.
Qed.

(** X25.  [Scale] and [Rotate] work on a copy: they return an object with
    as many triangles, each a new triangle whose vertices are those of the
    receiver's triangle multiplied by [ScaleXYZ], or by [RotateXYZ] of the
    angles in radians (coordinate [i] of a new vertex is
    [m[i][0] * x + m[i][1] * y + m[i][2] * z + m[i][3] * w]), with a normal of the same value as before, the same
    color and both incidences at zero; the offset is carried over, and
    everything the store held, the receiver's triangles and vertices among
    it, is as it was. *)
Theorem Scale_and_Rotate_return_a_copy
        (o : Object.Object) (h : Heap) (x y z : float64) :
  Forall (complete h) (Object.ts o) ->
  (exists (o' : Object.Object) (h' : Heap),
      Object.Scale o x y z h = Done o' h'
      /\ unchanged h h'
      /\ Forall2 (image (times (Matrix.ScaleXYZ x y z)) h h')
                 (Object.ts o) (Object.ts o')
      /\ Object.offset o' = Object.offset o)
  /\ (exists (o' : Object.Object) (h' : Heap),
         Object.Rotate o x y z h = Done o' h'
         /\ unchanged h h'
         /\ Forall2 (image (times (Matrix.RotateXYZ (x * PI / 180) (y * PI / 180)
                                                     (z * PI / 180))) h h')
                    (Object.ts o) (Object.ts o')
         /\ Object.offset o' = Object.offset o).
Proof.
  intros Hc. split.
  - destruct (transform_Done o (Matrix.ScaleXYZ x y z) h Hc) as (o' & h' & H & U & I & O).
    exists o', h'. repeat (split; [assumption|]). split; [|exact O].
    eapply Forall2_impl; [exact I | apply image_times].
  - destruct (transform_Done o (Matrix.RotateXYZ (x * PI / 180) (y * PI / 180) (z * PI / 180))
                h Hc) as (o' & h' & H & U & I & O).
    exists o', h'. repeat (split; [assumption|]). split; [|exact O].
    eapply Forall2_impl; [exact I | apply image_times].
Qed.

Lemma unchanged_new_Vector (h : Heap) (v : Vector) :
  unchanged h (mkHeap (vectors h ++ [v]) (triangles h)).
Proof.
  pose proof (unchanged_app h [v] []) as U. rewrite app_nil_r in U. exact U.
Qed.

(** X26.  [Translate] moves no vertex: it returns a copy of the object
    whose vertices have the values of the receiver's, and whose offset is
    a new vector [(x, y, z, 0)], whatever offset the receiver had, so that
    [OffsetXYZ] of the copy is [(x, y, z)].  [Offset] of an object without
    an offset allocates the zero vector and stores it in the object: a
    second call returns the same address and allocates nothing, and
    [OffsetXYZ] of such an object is [(0, 0, 0)]. *)
Theorem Translate_sets_the_offset (o : Object.Object) (h : Heap) (x y z : float64) :
  (Forall (complete h) (Object.ts o) ->
   exists (o' : Object.Object) (h' : Heap),
     Object.Translate o x y z h = Done o' h'
     /\ get_Vector (Object.offset o') h' = Done (Vector.mk x y z 0%R) h'
     /\ get_Vector (Object.offset o') h = Panic
     /\ Forall2 (image (fun v => v) h h') (Object.ts o) (Object.ts o')
     /\ unchanged h h'
     /\ Object.OffsetXYZ o' h' = Done (x, y, z, o') h')
  /\ (Object.offset o = None ->
      exists (p : ptr) (o1 : Object.Object) (h1 : Heap),
        Object.Offset o h = Done (p, o1) h1
        /\ get_Vector p h = Panic
        /\ get_Vector p h1 = Done (Vector.mk 0%R 0%R 0%R 0%R) h1
        /\ Object.offset o1 = p
        /\ Object.ts o1 = Object.ts o
        /\ unchanged h h1
        /\ Object.Offset o1 h1 = Done (p, o1) h1
        /\ Object.OffsetXYZ o h = Done (0%R, 0%R, 0%R, o1) h1).
Proof.
  split.
  - intros Hc.
    destruct (newInstance_Done o h Hc) as (o1 & h1 & HN & U & HF & _ & _ & _).
    pose proof (unchanged_new_Vector h1 (Vector.mk x y z 0%R)) as U1.
    assert (HP : get_Vector (Some (length (vectors h1)))
                            (mkHeap (vectors h1 ++ [Vector.mk x y z 0%R]) (triangles h1))
                 = Done (Vector.mk x y z 0%R)
                        (mkHeap (vectors h1 ++ [Vector.mk x y z 0%R]) (triangles h1)))
      by apply get_Vector_first_behind.
    eexists _, _. split.
    { unfold Object.Translate. rewrite (bind_Done _ _ _ _ _ HN). reflexivity. }
    cbn [Object.offset Object.ts].
    split; [exact HP|].
    split; [apply unchanged_fresh; exact U|].
    split; [eapply Forall2_impl; [exact HF|]; intros t t'; apply image_target; exact U1|].
    split; [eapply unchanged_trans; eassumption|].
    unfold Object.OffsetXYZ, Object.Offset. cbn [Object.offset].
    unfold bind at 1. unfold ret at 1. cbn [fst snd].
    rewrite (bind_Done _ _ _ _ _ HP). reflexivity.
  - intros Hnone.
    assert (HP : get_Vector (Some (length (vectors h)))
                            (mkHeap (vectors h ++ [Vector.mk 0%R 0%R 0%R 0%R]) (triangles h))
                 = Done (Vector.mk 0%R 0%R 0%R 0%R)
                        (mkHeap (vectors h ++ [Vector.mk 0%R 0%R 0%R 0%R]) (triangles h)))
      by apply get_Vector_first_behind.
    assert (HO : Object.Offset o h
                 = Done (Some (length (vectors h)),
                         Object.mk (Object.ts o) (Some (length (vectors h))))
                        (mkHeap (vectors h ++ [Vector.mk 0%R 0%R 0%R 0%R]) (triangles h)))
      by (unfold Object.Offset; rewrite Hnone; reflexivity).
    eexists _, _, _. split; [exact HO|].
    split; [apply unchanged_fresh, unchanged_refl|].
    split; [exact HP|].
    split; [reflexivity|]. split; [reflexivity|].
    split; [apply unchanged_new_Vector|].
    split; [reflexivity|].
    unfold Object.OffsetXYZ. rewrite (bind_Done _ _ _ _ _ HO). cbn [fst snd].
    rewrite (bind_Done _ _ _ _ _ HP). reflexivity.
Qed.

End ObjectMethods.

Lemma unit_object_complete : Forall (complete unit_store) (Object.ts unit_object).
Proof.
  repeat constructor.
  - exists unit_triangle, (Vector.mk 0 0 0 1)%R, (Vector.mk 1 0 0 1)%R, (Vector.mk 0 1 0 1)%R.
    repeat split.
  - exists unit_triangle, (Vector.mk 0 0 0 1)%R. repeat split.
Qed.

Lemma Scale_and_Rotate_return_a_copy_witness :
  exists (o' : Object.Object) (h' : Heap),
    Object.Scale unit_object 2 2 2 unit_store = Done o' h'
    /\ get_Vector (Some 1%nat) h' = Done (Vector.mk 1 0 0 1)%R h'.
Proof.
  destruct (proj1 (Scale_and_Rotate_return_a_copy unit_object unit_store 2 2 2
                     unit_object_complete))
    as (o' & h' & HS & [UV _] & _).
  exists o', h'. split; [exact HS|]. apply UV. reflexivity.
Defined.

Lemma Translate_sets_the_offset_witness :
  (exists (o' : Object.Object) (h' : Heap),
      Object.Translate unit_object 1 2 3 unit_store = Done o' h'
      /\ Object.OffsetXYZ o' h' = Done (1%R, 2%R, 3%R, o') h')
  /\ (exists (o1 : Object.Object) (h1 : Heap),
         Object.OffsetXYZ unit_object unit_store = Done (0%R, 0%R, 0%R, o1) h1).
Proof.
  destruct (Translate_sets_the_offset unit_object unit_store 1 2 3) as [HT HO]. split.
  - destruct (HT unit_object_complete) as (o' & h' & H1 & _ & _ & _ & _ & H2).
    exists o', h'. split; assumption.
  - destruct (HO eq_refl) as (p & o1 & h1 & _ & _ & _ & _ & _ & _ & _ & H).
    exists o1, h1. exact H.
Defined.

(** ** The run loop *)

Section RunLoop.

Import Canvas.

Ltac settle :=
  cbn; repeat split; try reflexivity; try assumption;
  try (eexists; split; reflexivity).

Lemma inv_step (k0 k1 k2 : config) : inv k0 k1 -> step k1 k2 -> inv k0 k2.
Proof.
  destruct k1 as [[W s r hd n tm lk] q g].
  unfold inv, step. cbn [canvas qpc gpc Window renderer handler state glwg frameRateTimer].
  intros (HW & Hr & Hh & Hs & (t & Ht & Ha) & Hl) Hstep.
  subst s tm. destruct t as [a p]. cbn in Ha. subst a.
  destruct q, g; unfold loop_at, left_loop in Hl; cbn in Hl;
    rewrite ?orb_false_r in Hl; try discriminate Hl;
    apply Z.eqb_eq in Hl; subst n;
    destruct p, lk as [[|]|];
    (destruct Hstep as [H | [H | [H | H]]];
     cbn in H; try discriminate H; inversion H; subst; settle).
Qed.

Lemma inv_reachable (k0 k : config) : inv k0 k0 -> reachable k0 k -> inv k0 k.
Proof.
  intros H0. induction 1 as [|k1 k2 _ IH Hs]; [exact H0|].
  eapply inv_step; eassumption.
Qed.

Lemma launched_inv (k : config) : launched k = true -> inv k k.
Proof.
  destruct k as [[W s r hd n tm lk] q g]. unfold launched, inv. cbn.
  intros H. repeat (apply andb_prop in H as [H ?]).
  destruct s; try discriminate. destruct q; try discriminate.
  destruct tm as [[a p]|]; try discriminate. cbn in *. subst a.
  repeat split; try reflexivity.
  - eexists; split; reflexivity.
  - apply andb_true_intro; split; assumption.
Qed.

Lemma act_step (a : actor) (k k' : config) : act a k = Some k' -> step k k'.
Proof. unfold step. destruct a; cbn; auto. Qed.

Lemma reachable_trans (k1 k2 k3 : config) :
  reachable k1 k2 -> reachable k2 k3 -> reachable k1 k3.
Proof.
  intros H12. induction 1 as [|k k' _ IH Hs]; [exact H12|].
  eapply reachable_step; eassumption.
Qed.

Lemma run_reachable (sched : list actor) (k k' : config) :
  run sched k = Some k' -> reachable k k'.
Proof.
  revert k. induction sched as [|a sched IH]; cbn; intros k H.
  - inversion H. apply reachable_refl.
  - destruct (act a k) as [k1|] eqn:E; [|discriminate].
    eapply reachable_trans; [|apply IH; exact H].
    eapply reachable_step; [apply reachable_refl | eapply act_step; exact E].
Qed.

Lemma Quit_can_finish (k0 : config) :
  launched k0 = true ->
  (gpc k0 = G_lock -> lock (canvas k0) = None) ->
  exists k : config,
    run (to_select (gpc k0) ++ handshake)%list k0 = Some k
    /\ qpc k = Q_return.
Proof.
  destruct k0 as [[W s r hd n tm lk] q g]. unfold launched. cbn.
  intros H Hlk. repeat (apply andb_prop in H as [H ?]).
  destruct s; try discriminate. destruct q; try discriminate.
  destruct tm as [[a p]|]; try discriminate. cbn in *. subst a.
  match goal with E : (n =? 1) = true |- _ => apply Z.eqb_eq in E; subst n end.
  destruct g; try discriminate; try rewrite (Hlk eq_refl);
    destruct lk as [[|]|]; try discriminate;
    destruct p; cbn; eexists; split; reflexivity.
Qed.

Lemma schedule_of_program (g : loop_pc) :
  forallb program (to_select g ++ handshake)%list = true.
Proof. destruct g; reflexivity. Qed.

(** The statements of [Quit] in their order.  [Quit] in a state other than
    [running] returns at once and
    leaves the canvas as it was.  When [Quit] is called in state
    [running] with the game loop launched, then at every moment of every
    run: the window, the renderer and the handler are the same; the state
    is [running] until [Quit] assigns [terminating], [terminating] until
    it assigns [stopped], and [stopped] once it returned; the ticker is
    stopped from the send on; [Quit] stands behind its [Wait] only when the
    game loop is over and the wait group is at zero, so [stopped] is
    assigned only then; and a second call after the return is a step that
    changes nothing.  The send waits for the game loop to stand at its
    [select] and [Wait] for the counter to be zero.  And unless the game
    loop waits for [c.lock] while the event loop holds it, steps of [Quit]
    and of the game loop alone take [Quit] to its return. *)
Theorem Quit_transitions :
  (forall k : config,
      qpc k = Q_if -> state (canvas k) <> running ->
      Quit k = Some (mkConfig (canvas k) Q_return (gpc k)))
  /\ (forall k0 k : config,
         launched k0 = true -> reachable k0 k ->
         inv k0 k
         /\ (qpc k = Q_stopped \/ qpc k = Q_return ->
             gpc k = G_exit /\ glwg (canvas k) = 0%Z)
         /\ (state (canvas k) = stopped -> qpc k = Q_return /\ gpc k = G_exit)
         /\ (qpc k = Q_return -> Quit (call_Quit k) = Some k))
  /\ (forall k : config,
         (qpc k = Q_send -> gpc k <> G_select -> Quit k = None)
         /\ (qpc k = Q_wait -> glwg (canvas k) <> 0%Z -> Quit k = None))
  /\ (forall k0 : config,
         launched k0 = true ->
         (gpc k0 = G_lock -> lock (canvas k0) = None) ->
         exists (sched : list actor) (k : config),
           forallb program sched = true
           /\ run sched k0 = Some k
           /\ qpc k = Q_return /\ state (canvas k) = stopped).
Proof.
  split; [|split; [|split]].
  - intros [c q g] Hq Hs. cbn in *. subst q. unfold Quit. cbn.
    destruct (state c); try reflexivity. contradiction.
  - intros k0 k Hl Hr.
    pose proof (inv_reachable k0 k (launched_inv k0 Hl) Hr) as Hinv.
    split; [exact Hinv|].
    destruct k as [c q g]. destruct Hinv as (_ & _ & _ & Hs & _ & Hloop).
    cbn in *.
    split; [|split].
    + intros [-> | ->]; cbn in Hloop; apply andb_prop in Hloop as [Hg Hn];
        apply Z.eqb_eq in Hn; destruct g; try discriminate; auto.
    + intros E. rewrite E in Hs.
      destruct q; try discriminate; cbn in Hloop; try discriminate.
      apply andb_prop in Hloop as [Hg _]. destruct g; try discriminate; auto.
    + intros ->. unfold Quit, call_Quit. cbn. rewrite Hs. reflexivity.
  - intros [c q g]. cbn. split.
    + intros -> Hg. unfold Quit. cbn. destruct g; try reflexivity. contradiction.
    + intros -> Hn. unfold Quit. cbn.
      destruct (Z.eqb_spec (glwg c) 0); [contradiction | reflexivity].
  - intros k0 Hl Hlk.
    destruct (Quit_can_finish k0 Hl Hlk) as (k & Hrun & Hq).
    exists (to_select (gpc k0) ++ handshake)%list, k.
    split; [apply schedule_of_program|]. split; [exact Hrun|]. split; [exact Hq|].
    apply run_reachable in Hrun.
    destruct (inv_reachable k0 k (launched_inv k0 Hl) Hrun) as (_ & _ & _ & Hs & _).
    rewrite Hs, Hq. reflexivity.
Qed.

Lemma Quit_transitions_witness :
  exists k : config,
    reachable waiting k
    /\ qpc k = Q_return
    /\ state (canvas k) = stopped
    /\ gpc k = G_exit
    /\ Quit (call_Quit k) = Some k.
Proof.
  destruct Quit_transitions as (_ & Safe & _ & Live).
  destruct (Live waiting eq_refl) as (sched & k & _ & Hrun & Hq & Hs).
  - discriminate.
  - pose proof (run_reachable sched waiting k Hrun) as Hr.
    destruct (Safe waiting k eq_refl Hr) as (_ & _ & Hg & Hq2).
    exists k. repeat split; try assumption.
    + apply Hg. exact Hs.
    + apply Hq2. exact Hq.
Defined.

(** *** Where [Quit] does not reach [stopped] *)

Lemma panicked_step (k k' : config) : panicked k -> step k k' -> panicked k'.
Proof.
  destruct k as [[W s r hd n tm lk] q g]. unfold panicked, step.
  cbn [canvas qpc state]. intros (-> & ->) Hstep.
  destruct Hstep as [H | [H | [H | H]]].
  - discriminate H.
  - unfold gameLoop in H. cbn [canvas qpc gpc state frameRateTimer lock glwg] in H.
    destruct g, tm as [[a p]|], lk as [[|]|]; cbn in H;
      try destruct p; try destruct (n - 1 <? 0)%Z;
      try discriminate H; inversion H; subst; split; reflexivity.
  - unfold tick in H. cbn [canvas frameRateTimer] in H.
    destruct tm as [[a p]|]; [|discriminate H].
    destruct a, p; cbn in H; try discriminate H; inversion H; subst; split; reflexivity.
  - unfold events in H. cbn [canvas lock] in H.
    destruct lk as [[|]|]; try discriminate H; inversion H; subst; split; reflexivity.
Qed.

Lemma panicked_reachable (k k' : config) : panicked k -> reachable k k' -> panicked k'.
Proof.
  intros H0. induction 1 as [|k1 k2 _ IH Hs]; [exact H0|].
  eapply panicked_step; eassumption.
Qed.

Lemma stuck_step (k k' : config) : stuck k -> step k k' -> stuck k'.
Proof.
  destruct k as [[W s r hd n tm lk] q g]. unfold stuck, step.
  cbn [canvas qpc gpc state frameRateTimer].
  intros (-> & -> & -> & t & -> & Ha) Hstep. destruct t as [a p]. cbn in Ha. subst a.
  destruct Hstep as [H | [H | [H | H]]]; cbn in H; try discriminate H.
  destruct lk as [[|]|]; try discriminate H; inversion H; subst; cbn;
    repeat split; eexists; split; reflexivity.
Qed.

Lemma stuck_reachable (k k' : config) : stuck k -> reachable k k' -> stuck k'.
Proof.
  intros H0. induction 1 as [|k1 k2 _ IH Hs]; [exact H0|].
  eapply stuck_step; eassumption.
Qed.

Lemma run_to_stuck (k0 : config) :
  launched k0 = true ->
  exists k : config, run (to_for k0 ++ missed)%list k0 = Some k /\ stuck k.
Proof.
  destruct k0 as [[W s r hd n tm lk] q g]. unfold launched, to_for, stuck. cbn.
  intros H. repeat (apply andb_prop in H as [H ?]).
  destruct s; try discriminate. destruct q; try discriminate.
  destruct tm as [[a p]|]; try discriminate. cbn in *. subst a.
  match goal with E : (n =? 1) = true |- _ => apply Z.eqb_eq in E; subst n end.
  destruct g; try discriminate;
    destruct lk as [[|]|]; try discriminate;
    destruct p; cbn; eexists; (split; [reflexivity|]); cbn;
    repeat split; eexists; split; reflexivity.
Qed.

(** C6, on the code.  [Quit] in a state other than [running] returns at
    once and leaves the canvas as it was.  In state [running] it assigns
    [terminating], but it does not always go on to [stopped].  Called
    while the ticker is nil, as it is when the handler's [Init] calls
    [Quit] ([start] assigns [running] and calls [Init] before it launches
    the game loop, which creates the ticker), [Quit] assigns [terminating]
    and dereferences the nil ticker in [c.frameRateTimer.Stop()]: the call
    is over with a panic and, whatever happens afterwards, the state is
    [terminating].  And with the game loop launched and inside its [for]
    statement there is a run on which the game loop tests the condition of
    the statement after [Quit] has assigned [terminating] and before
    [Quit] sends on [c.done]: the game loop leaves without receiving, and
    whatever happens afterwards [Quit] stands at its send, cannot take a
    step, and the state is [terminating]. *)
Theorem Quit_while_running_can_miss_stopped :
  (forall k : config,
      qpc k = Q_if -> state (canvas k) <> running ->
      Quit k = Some (mkConfig (canvas k) Q_return (gpc k)))
  /\ (forall (W r hd : nat) (n : Z) (lk : option owner) (g : loop_pc),
         run [quit; quit; quit] (mkConfig (mkCanvas W running r hd n None lk) Q_if g)
         = Some (mkConfig (mkCanvas W terminating r hd n None lk) Q_panic g)
         /\ forall k' : config,
             reachable (mkConfig (mkCanvas W terminating r hd n None lk) Q_panic g) k' ->
             qpc k' = Q_panic /\ Quit k' = None /\ state (canvas k') = terminating)
  /\ (forall k0 : config,
         launched k0 = true ->
         exists k : config,
           run (to_for k0 ++ missed)%list k0 = Some k
           /\ forall k' : config,
               reachable k k' ->
               qpc k' = Q_send /\ Quit k' = None /\ state (canvas k') = terminating).
Proof.
  split; [|split].
  - intros [c q g] Hq Hs. cbn in *. subst q. unfold Quit. cbn.
    destruct (state c); try reflexivity. contradiction.
  - intros W r hd n lk g. split; [reflexivity|]. intros k' Hr.
    assert (H0 : panicked (mkConfig (mkCanvas W terminating r hd n None lk) Q_panic g))
      by (split; reflexivity).
    destruct (panicked_reachable _ k' H0 Hr) as [Hq Hs].
    split; [exact Hq|]. split; [|exact Hs]. unfold Quit. rewrite Hq. reflexivity.
  - intros k0 Hl. destruct (run_to_stuck k0 Hl) as (k & Hrun & Hs).
    exists k. split; [exact Hrun|]. intros k' Hr.
    destruct (stuck_reachable k k' Hs Hr) as (Hq & Hg & Hst & _).
    split; [exact Hq|]. split; [|exact Hst]. unfold Quit. rewrite Hq, Hg. reflexivity.
Qed.

Lemma Quit_while_running_can_miss_stopped_witness :
  (exists k : config,
      run [quit; quit; quit] in_Init = Some k
      /\ qpc k = Q_panic /\ state (canvas k) = terminating)
  /\ (exists k : config,
         reachable waiting k /\ qpc k = Q_send /\ Quit k = None
         /\ state (canvas k) = terminating).
Proof.
  destruct Quit_while_running_can_miss_stopped as (_ & Nil & Missed).
  split.
  - destruct (Nil 1%nat 2%nat 3%nat 0%Z None G_new) as [Hrun Hk].
    eexists. split; [exact Hrun|]. split; reflexivity.
  - destruct (Missed waiting eq_refl) as (k & Hrun & Hk).
    destruct (Hk k (reachable_refl k)) as (Hq & HQ & Hs).
    exists k. split; [exact (run_reachable _ _ _ Hrun)|].
    repeat split; assumption.
Defined.

End RunLoop.

(** ** [Quit] can wait for ever *)

Section Missed.

Import Canvas.

(** X27.  [Quit] can wait for ever.  From every configuration in which the
    game loop is launched and [Quit] is called there is a run in which the
    game loop tests the condition of its [for] statement after [Quit] has
    assigned [terminating] and before [Quit] sends on [c.done]: the game
    loop leaves without receiving, and from then on, whatever happens,
    [Quit] stands at its send, cannot take a step, and the state is
    [terminating], never [stopped]. *)
Theorem Quit_can_wait_for_ever (k0 : config) :
  launched k0 = true ->
  exists k : config,
    run (to_for k0 ++ missed)%list k0 = Some k
    /\ reachable k0 k
    /\ forall k' : config,
        reachable k k' ->
        qpc k' = Q_send /\ Quit k' = None
        /\ gpc k' = G_exit /\ state (canvas k') = terminating.
Proof.
  intros Hl. destruct (run_to_stuck k0 Hl) as (k & Hrun & Hs).
  exists k. split; [exact Hrun|]. split; [apply run_reachable in Hrun; exact Hrun|].
  intros k' Hr. destruct (stuck_reachable k k' Hs Hr) as (Hq & Hg & Hst & _).
  repeat split; try assumption.
  unfold Quit. rewrite Hq, Hg. reflexivity.
Qed.

Lemma Quit_can_wait_for_ever_witness :
  exists k : config,
    reachable waiting k /\ qpc k = Q_send /\ Quit k = None.
Proof.
  destruct (Quit_can_wait_for_ever waiting eq_refl) as (k & _ & Hr & Hk).
  destruct (Hk k (reachable_refl k)) as (Hq & HQ & _).
  exists k. repeat split; assumption.
Defined.

End Missed.

(** ** The configuration *)

Section Options.

Import Config.

Local Open Scope Z_scope.

Variable k : sdl.constants.

Lemma provided_framerate (option : ConfigOption) (c : config) :
  provided k option -> 0 < framerate c -> 0 < framerate (option c).
Proof.
  intros [fr | flags | x y | flags] Hc; cbn; try exact Hc.
  unfold Framerate. destruct (Z.gtb_spec fr 0); cbn; [lia | exact Hc].
Qed.

Lemma options_framerate (options : list ConfigOption) :
  Forall (provided k) options ->
  forall c : config,
    0 < framerate c ->
    0 < framerate (fold_left (fun cfg option => option cfg) options c).
Proof.
  induction 1 as [|option options Hp _ IH]; intros c Hc; [exact Hc|].
  cbn [fold_left]. apply IH. apply provided_framerate; assumption.
Qed.

(** X28.  Whatever options of core.go [Open] is given, in whatever order,
    the frame rate it passes to the game loop is positive: [Framerate]
    with an argument that is not positive changes nothing.  The division
    by which [gameLoop] computes the period of its ticker is therefore
    never a division by zero; the period itself is zero nanoseconds as
    soon as the frame rate is above [10^9]. *)
Theorem framerate_is_positive (options : list ConfigOption) :
  Forall (provided k) options ->
  0 < framerate (configure k options)
  /\ (forall fr : Z,
         fr <= 0 ->
         configure k (options ++ [Framerate fr]) = configure k options)
  /\ (forall fr : Z,
         0 < fr ->
         framerate (configure k (options ++ [Framerate fr])) = fr)
  /\ exists d : Z,
      period (framerate (configure k options)) = Some d
      /\ 0 <= d
      /\ (d = 0 <-> 1000000000 < framerate (configure k options)).
Proof.
  intros Hp.
  assert (Hf : 0 < framerate (configure k options))
    by (apply options_framerate; [exact Hp | cbn; lia]).
  split; [exact Hf|]. split; [|split].
  - intros fr Hfr. unfold configure. rewrite fold_left_app. cbn [fold_left].
    unfold Framerate. destruct (Z.gtb_spec fr 0); [lia | reflexivity].
  - intros fr Hfr. unfold configure. rewrite fold_left_app. cbn [fold_left].
    unfold Framerate. destruct (Z.gtb_spec fr 0); [reflexivity | lia].
  - unfold period. set (f := framerate (configure k options)) in *.
    destruct (Z.eqb_spec f 0); [lia|].
    exists (Z.quot 1000000000 f). split; [reflexivity|].
    rewrite Z.quot_div_nonneg by lia.
    split; [apply Z.div_pos; lia|]. split.
    + intros E. destruct (Z_lt_le_dec 1000000000 f) as [L|L]; [exact L|].
      exfalso. assert (0 < 1000000000 / f); [|lia].
      apply Z.div_str_pos. lia.
    + intros L. apply Z.div_small. lia.
Qed.

Lemma land_through (a b c r : Z) :
  Z.land a b = 0 -> Z.land a (Z.land c (Z.land b r)) = 0.
Proof.
  intros H. rewrite (Z.land_assoc a c), (Z.land_comm a c), <- (Z.land_assoc c a).
  rewrite (Z.land_assoc a b), H, Z.land_0_l, Z.land_0_r. reflexivity.
Qed.

(** X29.  [RendererFlags] and [WindowFlags] join their argument and the
    constants with [&]: when [RENDERER_SOFTWARE] and
    [RENDERER_ACCELERATED], and [WINDOW_FULLSCREEN] and [WINDOW_OPENGL],
    have no bit in common, as two flags have, both options clear the
    flags of the configuration, whatever their argument is, and leave the
    other fields as they are. *)
Theorem flag_options_clear_the_flags (flags : Z) (c : config) :
  Z.land (sdl.RENDERER_SOFTWARE k) (sdl.RENDERER_ACCELERATED k) = 0 ->
  Z.land (sdl.WINDOW_FULLSCREEN k) (sdl.WINDOW_OPENGL k) = 0 ->
  RendererFlags k flags c
  = mk (windowX c) (windowY c) (windowFlags c) (framerate c) 0
  /\ WindowFlags k flags c
     = mk (windowX c) (windowY c) 0 (framerate c) (rendererFlags c).
Proof.
  intros Hr Hw. split.
  - unfold RendererFlags. f_equal.
    rewrite <- !Z.land_assoc. rewrite (Z.land_assoc (sdl.RENDERER_SOFTWARE k)).
    rewrite Hr, Z.land_0_l, Z.land_0_r. reflexivity.
  - unfold WindowFlags. f_equal.
    rewrite <- !Z.land_assoc.
    rewrite (land_through _ _ _ _ Hw). apply Z.land_0_r.
Qed.

End Options.

Lemma framerate_is_positive_witness :
  (0 < Config.framerate
         (Config.configure SDL2 [Config.Framerate 0; Config.WindowPosition 10 10;
                                 Config.Framerate (-5)]))%Z.
Proof.
  apply (framerate_is_positive SDL2
           [Config.Framerate 0; Config.WindowPosition 10 10; Config.Framerate (-5)]).
  repeat constructor.
Defined.

Lemma flag_options_clear_the_flags_witness :
  Config.rendererFlags
    (Config.RendererFlags SDL2 (sdl.RENDERER_ACCELERATED SDL2) (Config.defaults SDL2))
  = 0%Z.
Proof.
  rewrite (proj1 (flag_options_clear_the_flags SDL2 (sdl.RENDERER_ACCELERATED SDL2)
                    (Config.defaults SDL2) eq_refl eq_refl)).
  reflexivity.
Defined.

(** ** The destroyers of a handler *)

Section Handler.

Import BaseHandler.

Variable World : Type.

Lemma AddDestroyer_all (ds l : list (destroyer World)) :
  ds <> [] ->
  fold_left (AddDestroyer World) ds (mk World (Some l)) = mk World (Some (l ++ ds)%list).
Proof.
  revert l. induction ds as [|d ds IH]; intros l Hne; [contradiction|].
  cbn [fold_left]. unfold AddDestroyer at 2. cbn [destroyers].
  destruct ds as [|d' ds].
  - reflexivity.
  - rewrite IH by discriminate. rewrite <- app_assoc. reflexivity.
Qed.

Lemma call_each_app (l l' : list (destroyer World)) (w : World) :
  call_each World (l ++ l') w = call_each World l' (call_each World l w).
Proof. revert w. induction l as [|d l IH]; intros w; [reflexivity | apply IH]. Qed.

(** X30.  [Destroy] calls the destroyers in the order in which
    [AddDestroyer] registered them, each once, and forgets them: a second
    [Destroy] calls nothing, and destroyers registered afterwards are the
    only ones the next [Destroy] calls. *)
Theorem Destroy_calls_each_destroyer_once
        (ds ds' : list (destroyer World)) (w w' : World) :
  let b := fold_left (AddDestroyer World) ds (mk World None) in
  let b1 := fst (Destroy World b w) in
  snd (Destroy World b w) = call_each World ds w
  /\ destroyers World b1 = None
  /\ Destroy World b1 w' = (b1, w')
  /\ snd (Destroy World (fold_left (AddDestroyer World) ds' b1) w')
     = call_each World ds' w'.
Proof.
  assert (F : forall (l : list (destroyer World)) (v : World),
             Destroy World (fold_left (AddDestroyer World) l (mk World None)) v
             = (mk World None, call_each World l v)).
  { intros [|d l] v; [reflexivity|].
    cbn [fold_left]. unfold AddDestroyer at 2. cbn [destroyers app].
    destruct l as [|d' l]; [reflexivity|].
    rewrite AddDestroyer_all by discriminate. reflexivity. }
  intros b b1. subst b1 b. rewrite F. cbn [fst snd destroyers].
  repeat split. rewrite F. reflexivity.
Qed.

End Handler.
